(** * Inkbird IDT-34c-B supervisor: slot allocator, sample register, decoder,
      discovery, teardown and retry policy

    A shallow embedding of [shock.py] (the multi-device script) and of
    [deadlock.py] (its state-machine rewrite).  The two files share the
    allocator's [deallocate], the decoder and most of the register update;
    where they differ each variant lives in its own module, [Shock] and
    [Deadlock], and the shared code sits in front of them.

    Python values are modelled as follows.
    - [float] is IEEE binary64: Rocq's primitive [float].
    - [int] is [Z]; a [list] indexed by an int is a Rocq [list] read and
      written through [getitem]/[setitem], which raise [IndexError].
    - a [dict] whose iteration order the code depends on is an association
      list in insertion order ([free_offsets], [gatt_services]); the other
      dicts are [gmap]s keyed by the object path.
    - an exception is a value of [exn]; a function that mutates globals and
      may raise is a computation in the monad [M], which keeps the state
      reached when the exception was raised.
    - handlers run one at a time: the event loop and the timer threads are
      not interleaved, and a clock reading is an argument of the handler.

    [min.py], the single-device reader, has no register and no allocator
    and is not part of the embedding. *)

From Stdlib Require Import ZArith List Lia Bool Ascii.
From Stdlib Require Import Floats.
From Stdlib Require Import Numbers.Cyclic.Int63.Uint63.
From stdpp Require Import base option list gmap strings.

Local Open Scope Z_scope.

(** ** Exceptions and the state-and-exception monad *)

Inductive exn : Type :=
| KeyError     (* dict lookup or [del] on a missing key *)
| IndexError   (* list index out of range *)
| TypeError    (* wrong number of arguments to [temperature]; a float as list index *)
| DBusError.   (* a bus method call that failed *)

Definition M (S A : Type) : Type := S -> (exn + A) * S.

Definition ret {S A} (a : A) : M S A := fun s => (inr a, s).

Definition raise {S A} (e : exn) : M S A := fun s => (inl e, s).

Definition and_then {S A B} (m : M S A) (k : A -> M S B) : M S B :=
  fun s => match m s with
           | (inr a, s') => k a s'
           | (inl e, s') => (inl e, s')
           end.

Definition gets {S A} (f : S -> A) : M S A := fun s => (inr (f s), s).

Definition modify {S} (f : S -> S) : M S unit := fun s => (inr tt, f s).

(** [try: m except Exception: h] *)
Definition try_except {S A} (m : M S A) (h : exn -> M S A) : M S A :=
  fun s => match m s with
           | (inr a, s') => (inr a, s')
           | (inl e, s') => h e s'
           end.

(** A lookup that raises when the key is missing. *)
Definition lookup_or {S A} (e : exn) (o : option A) : M S A :=
  match o with Some a => ret a | None => raise e end.

(** [m], and then [release] on the state it leaves, whether it returned
    or raised: the end of the scope of a local variable. *)
Definition scoped {S A} (m : M S A) (release : S -> S) : M S A :=
  fun s => match m s with (r, s') => (r, release s') end.

(** [m], and [release] on the state it leaves when it raised. *)
Definition lose_on_raise {S A} (m : M S A) (release : S -> S) : M S A :=
  fun s => match m s with
           | (inr a, s') => (inr a, s')
           | (inl e, s') => (inl e, release s')
           end.

(** Run a computation on a component of the state. *)
Definition zoom {S T A} (proj : S -> T) (inj : T -> S -> S) (m : M T A) : M S A :=
  fun s => match m (proj s) with (r, t) => (r, inj t s) end.

Declare Scope py_scope.
Delimit Scope py_scope with py.
Notation "'let*' x ':=' m 'in' k" := (and_then m (fun x => k))
  (at level 10, x name, m at level 200, k at level 200) : py_scope.
Local Open Scope py_scope.

Fixpoint for_each {S A} (l : list A) (body : A -> M S unit) : M S unit :=
  match l with
  | [] => ret tt
  | a :: l' => let* _ := body a in for_each l' body
  end.

(** ** Python lists *)

(** [l[k]]: a negative index counts from the end. *)
Definition py_index {A} (l : list A) (k : Z) : option nat :=
  let n := Z.of_nat (length l) in
  if (0 <=? k) && (k <? n) then Some (Z.to_nat k)
  else if (- n <=? k) && (k <? 0) then Some (Z.to_nat (n + k))
  else None.

Definition getitem {A} (l : list A) (k : Z) : option A :=
  match py_index l k with
  | Some i => l !! i
  | None => None
  end.

Definition setitem {A} (l : list A) (k : Z) (a : A) : option (list A) :=
  match py_index l k with
  | Some i => Some (<[i := a]> l)
  | None => None
  end.

(** [l[lo:hi]] for non-negative bounds; out-of-range bounds are clipped. *)
Definition slice {A} (l : list A) (lo hi : nat) : list A :=
  take (hi - lo) (drop lo l).

(** ** Slot allocator

    [allocated_offsets] maps a device path to its offset.  [free_offsets]
    starts as [{0:0, 4:4, ...}], keyed by the offsets themselves, and
    [deallocate] files a returned offset under the device path, so its keys
    are ints or paths.  [allocate] iterates over it, so insertion order is
    kept. *)

Inductive key : Type :=
| KInt (n : Z)
| KPath (p : string).

#[global] Instance key_eq_dec : EqDecision key.
Proof. solve_decision. Defined.

Fixpoint dict_get (k : key) (d : list (key * Z)) : option Z :=
  match d with
  | [] => None
  | (k', v) :: d' => if decide (k = k') then Some v else dict_get k d'
  end.

(** [d[k] = v]: an existing key keeps its place, a new one goes last. *)
Fixpoint dict_set (k : key) (v : Z) (d : list (key * Z)) : list (key * Z) :=
  match d with
  | [] => [(k, v)]
  | (k', v') :: d' =>
      if decide (k = k') then (k, v) :: d' else (k', v') :: dict_set k v d'
  end.

Fixpoint dict_del (k : key) (d : list (key * Z)) : list (key * Z) :=
  match d with
  | [] => []
  | (k', v') :: d' =>
      if decide (k = k') then d' else (k', v') :: dict_del k d'
  end.

Record Alloc : Type := mkAlloc {
  allocated_offsets : gmap string Z;
  free_offsets : list (key * Z)
}.

Definition alloc_init : Alloc :=
  {| allocated_offsets := ∅;
     free_offsets := [(KInt 0, 0); (KInt 4, 4); (KInt 8, 8);
                      (KInt 12, 12); (KInt 16, 16); (KInt 20, 20)] |}.

(** The scan in [allocate] starts from [offset = 1e9].  The float [1e9] is
    compared with the int offsets by value, so it is written as the integer
    10^9.  It is the only float that can become an offset, every other
    offset being one of the ints of the initial [free_offsets]; an offset
    equal to [SENTINEL] therefore stands for the float, and a list indexed
    with it raises [TypeError] (see [update_all]). *)
Definition SENTINEL : Z := 1000000000.

(** [deallocate], the same in both files. *)
Definition deallocate (obj_path : string) (a : Alloc) : Alloc :=
  match allocated_offsets a !! obj_path with
  | Some off =>
      {| allocated_offsets := delete obj_path (allocated_offsets a);
         free_offsets := dict_set (KPath obj_path) off (free_offsets a) |}
  | None => a
  end.

(** One round of [for key in free_offsets: if offset > free_offsets[key]: ...]. *)
Definition scan_step (acc : option key * Z) (kv : key * Z) : option key * Z :=
  if snd kv <? snd acc then (Some (fst kv), snd kv) else acc.

(** The part of [allocate] that both files share: choose [best, offset].
    [best] starts as [None]. *)
Definition choose (obj_path : string) (free : list (key * Z)) : option key * Z :=
  match dict_get (KPath obj_path) free with
  | Some off => (Some (KPath obj_path), off)
  | None => fold_left scan_step free (None, SENTINEL)
  end.

(** [best in free_offsets]; [None] is never a key. *)
Definition best_in (best : option key) (free : list (key * Z)) : bool :=
  match best with
  | Some k => bool_decide (is_Some (dict_get k free))
  | None => false
  end.

(** [del free_offsets[best]] once [best in free_offsets] is known. *)
Definition del_best (best : option key) (free : list (key * Z)) : list (key * Z) :=
  match best with
  | Some k => dict_del k free
  | None => free
  end.

(** ** Decoder *)

(** [int -> float]; exact below 2^53. *)
Definition float_of_Z (z : Z) : float :=
  if z <? 0 then PrimFloat.opp (PrimFloat.of_uint63 (Uint63.of_Z (- z)))
  else PrimFloat.of_uint63 (Uint63.of_Z z).

(** [a / b] on two ints: when both convert exactly, CPython divides the
    two converted floats. *)
Definition truediv (a b : Z) : float :=
  (float_of_Z a / float_of_Z b)%float.

(** [temperature(lsbyte, msbyte)], the same in both files. *)
Definition temperature (lsbyte msbyte : Z) : float :=
  let value := Z.shiftl (Z.lxor msbyte 0x80) 8 + lsbyte - 0x8000 in
  truediv (value - 320) 18.

Definition TRAILER : list Z := [0xFE; 0x7F; 0xFE; 0x7F].

(** [temperature] applied to the unpacked slice [data[2*i:2*i+2]]:
    anything but two arguments is a [TypeError]. *)
Definition temperature_star {S} (args : list Z) : M S float :=
  match args with
  | [lsbyte; msbyte] => ret (temperature lsbyte msbyte)
  | _ => raise TypeError
  end.

Fixpoint map_m {S A B} (f : A -> M S B) (l : list A) : M S (list B) :=
  match l with
  | [] => ret []
  | a :: l' => let* b := f a in let* bs := map_m f l' in ret (b :: bs)
  end.

(** The comprehension over [range(0,4)] that builds [t4vec]. *)
Definition t4vec {S} (data : list Z) : M S (list float) :=
  map_m (fun i : nat => temperature_star (slice data (2 * i) (2 * i + 2)))
        [0; 1; 2; 3]%nat.

(** ** Sample register *)

Definition MAXTEMP : float := 1802.5%float.
Definition MAXWAIT : Z := 20.

Record Register : Type := mkRegister {
  thermostamp : list float;
  thermofilter : list float;
  thermocount : list Z;
  stamp : bool;
  laststamp : float
}.

(** The module-level initial values; [t0] is [time.time()] at start-up. *)
Definition register_init (t0 : float) : Register :=
  {| thermostamp := replicate 24 nan;
     thermofilter := replicate 24 0%float;
     thermocount := replicate 24 0;
     stamp := false;
     laststamp := t0 |}.

Definition set_thermostamp (l : list float) (r : Register) : Register :=
  {| thermostamp := l; thermofilter := thermofilter r;
     thermocount := thermocount r; stamp := stamp r; laststamp := laststamp r |}.
Definition set_thermofilter (l : list float) (r : Register) : Register :=
  {| thermostamp := thermostamp r; thermofilter := l;
     thermocount := thermocount r; stamp := stamp r; laststamp := laststamp r |}.
Definition set_thermocount (l : list Z) (r : Register) : Register :=
  {| thermostamp := thermostamp r; thermofilter := thermofilter r;
     thermocount := l; stamp := stamp r; laststamp := laststamp r |}.
Definition set_stamp (b : bool) (r : Register) : Register :=
  {| thermostamp := thermostamp r; thermofilter := thermofilter r;
     thermocount := thermocount r; stamp := b; laststamp := laststamp r |}.
Definition set_laststamp (t : float) (r : Register) : Register :=
  {| thermostamp := thermostamp r; thermofilter := thermofilter r;
     thermocount := thermocount r; stamp := stamp r; laststamp := t |}.

(** [arr[c]] and [arr[c] = x] on one of the three arrays. *)
Definition read {A} (arr : Register -> list A) (c : Z) : M Register A :=
  fun r => lookup_or IndexError (getitem (arr r) c) r.

Definition write {A} (arr : Register -> list A)
    (set : list A -> Register -> Register) (c : Z) (x : A) : M Register unit :=
  fun r => match setitem (arr r) c x with
           | Some l => (inr tt, set l r)
           | None => (inl IndexError, r)
           end.

(** [redundant and (redundant<MAXWAIT) and (value == vlast or
    value == thermofilter[c])], with Python's short-circuit evaluation. *)
Definition is_redundant (c : Z) (value vlast : float) (redundant : Z) : M Register bool :=
  if negb (redundant =? 0) && (redundant <? MAXWAIT) then
    if (value =? vlast)%float then ret true
    else let* vfilt := read thermofilter c in ret (value =? vfilt)%float
  else ret false.

(** [if not stamp: thermocount[c] = 0; stamp = True] *)
Definition first_stamp (c : Z) : M Register unit :=
  let* st := gets stamp in
  if negb st then
    let* _ := write thermocount set_thermocount c 0 in
    modify (set_stamp true)
  else ret tt.

(** ** The bus, the timers and the global state

    A proxy is identified by the object path it stands for.  A bus method
    call is recorded in [bus_log]; whether it raises is decided by the
    environment, the predicate [fails] below.  [print] calls are left out.

    [temperatures], [commands], [batteries] and, in shock.py, [inkbirds]
    are [weakref.WeakValueDictionary]s: an entry lasts only as long as
    something else refers to its proxy.  The state records the entries
    that are there when a function is called; where a function of the
    scripts drops the last reference to a proxy it made or stored, the
    entry goes with it (see [scoped], [lose_on_raise] and [unbind]). *)

Definition Proxy : Type := string.

Inductive Callback : Type :=
| cb_temperature | cb_command | cb_extra | cb_battery.

(** An entry of [bind[dev_path]]: [(proxy, callback, dev_path)]. *)
Definition Binding : Type := Proxy * Callback * string.

Inductive BusCall : Type :=
| Connect (dev : string)
| Disconnect (dev : string)
| GetProperty (dev : string) (name : string)
| SetProperty (dev : string) (name : string)
| StartNotify (char : Proxy)
| StopNotify (char : Proxy)
| WriteValue (char : Proxy) (value : list Z)
| ReadValue (char : Proxy)
| RemoveDevice (dev : string).

Inductive TimerCallback : Type :=
| tc_logger
| tc_scan_dbus
| tc_retry_pseudo_pairing (obj_path : string).

Inductive TimerStatus : Type := Pending | Cancelled | Fired.

(** A started [threading.Timer(interval, callback)]. *)
Record Timer : Type := mkTimer {
  interval : float;
  callback : TimerCallback;
  status : TimerStatus
}.

(** The module globals; [D] is what [inkbirds] holds for a device.
    [fout] collects the lines written to the log file: the time and the 24
    values as they are handed to the format string. *)
Record World (D : Type) : Type := mkWorld {
  alloc : Alloc;
  reg : Register;
  inkbirds : gmap string D;
  temperatures : gmap string Proxy;
  commands : gmap string Proxy;
  batteries : gmap string Proxy;
  bind : gmap string (list Binding);
  gatt_services : list (string * bool);
  timers : list Timer;
  bus_log : list BusCall;
  fout : list (float * list float)
}.

Arguments mkWorld {D}.
Arguments alloc {D}.
Arguments reg {D}.
Arguments inkbirds {D}.
Arguments temperatures {D}.
Arguments commands {D}.
Arguments batteries {D}.
Arguments bind {D}.
Arguments gatt_services {D}.
Arguments timers {D}.
Arguments bus_log {D}.
Arguments fout {D}.

Section WorldOps.
Context {D : Type}.
Implicit Type w : World D.

Definition set_alloc (a : Alloc) w : World D :=
  mkWorld a (reg w) (inkbirds w) (temperatures w) (commands w) (batteries w)
          (bind w) (gatt_services w) (timers w) (bus_log w) (fout w).
Definition set_reg (r : Register) w : World D :=
  mkWorld (alloc w) r (inkbirds w) (temperatures w) (commands w) (batteries w)
          (bind w) (gatt_services w) (timers w) (bus_log w) (fout w).
Definition set_inkbirds (m : gmap string D) w : World D :=
  mkWorld (alloc w) (reg w) m (temperatures w) (commands w) (batteries w)
          (bind w) (gatt_services w) (timers w) (bus_log w) (fout w).
Definition set_temperatures (m : gmap string Proxy) w : World D :=
  mkWorld (alloc w) (reg w) (inkbirds w) m (commands w) (batteries w)
          (bind w) (gatt_services w) (timers w) (bus_log w) (fout w).
Definition set_commands (m : gmap string Proxy) w : World D :=
  mkWorld (alloc w) (reg w) (inkbirds w) (temperatures w) m (batteries w)
          (bind w) (gatt_services w) (timers w) (bus_log w) (fout w).
Definition set_batteries (m : gmap string Proxy) w : World D :=
  mkWorld (alloc w) (reg w) (inkbirds w) (temperatures w) (commands w) m
          (bind w) (gatt_services w) (timers w) (bus_log w) (fout w).
Definition set_bind (m : gmap string (list Binding)) w : World D :=
  mkWorld (alloc w) (reg w) (inkbirds w) (temperatures w) (commands w) (batteries w)
          m (gatt_services w) (timers w) (bus_log w) (fout w).
Definition set_timers (l : list Timer) w : World D :=
  mkWorld (alloc w) (reg w) (inkbirds w) (temperatures w) (commands w) (batteries w)
          (bind w) (gatt_services w) l (bus_log w) (fout w).
Definition set_bus_log (l : list BusCall) w : World D :=
  mkWorld (alloc w) (reg w) (inkbirds w) (temperatures w) (commands w) (batteries w)
          (bind w) (gatt_services w) (timers w) l (fout w).
Definition set_fout (l : list (float * list float)) w : World D :=
  mkWorld (alloc w) (reg w) (inkbirds w) (temperatures w) (commands w) (batteries w)
          (bind w) (gatt_services w) (timers w) (bus_log w) l.

(** The globals at import time. *)
Definition world_init (t0 : float) : World D :=
  mkWorld alloc_init (register_init t0) ∅ ∅ ∅ ∅ ∅ [] [] [] [].

Definition on_alloc {A} (m : M Alloc A) : M (World D) A := zoom alloc set_alloc m.
Definition on_reg {A} (m : M Register A) : M (World D) A := zoom reg set_reg m.

(** [d[k]] on a dict of the world. *)
Definition item {V} (d : World D -> gmap string V) (k : string) : M (World D) V :=
  fun w => lookup_or KeyError (d w !! k) w.

(** [threading.Timer(t, cb).start()]; the result is the timer's handle. *)
Definition start_timer (t : float) (cb : TimerCallback) : M (World D) nat :=
  fun w => (inr (length (timers w)),
            set_timers (timers w ++ [mkTimer t cb Pending]) w).

(** [timer.cancel()]: only a timer that has not fired yet is stopped. *)
Definition cancel_in (i : nat) (l : list Timer) : list Timer :=
  match l !! i with
  | Some (mkTimer t cb Pending) => <[i := mkTimer t cb Cancelled]> l
  | _ => l
  end.

Definition cancel_timer (i : nat) : M (World D) unit :=
  modify (fun w => set_timers (cancel_in i (timers w)) w).

Section Bus.
Variable fails : BusCall -> bool.

Definition bus_call (c : BusCall) : M (World D) unit :=
  fun w => let w' := set_bus_log (bus_log w ++ [c]) w in
           if fails c then (inl DBusError, w') else (inr tt, w').

(** [try: call except Exception: print(...)] *)
Definition bus_call_swallowed (c : BusCall) : M (World D) unit :=
  try_except (bus_call c) (fun _ => ret tt).

(** The first loop of [teardown_device], the same in both files. *)
Definition stop_notifications (dev_path : string) : M (World D) unit :=
  for_each [temperatures; commands; batteries]
    (fun char_dict : World D -> gmap string Proxy =>
       let* p := gets (fun w => char_dict w !! dev_path) in
       match p with
       | Some proxy => bus_call_swallowed (StopNotify proxy)
       | None => ret tt
       end).
End Bus.

(** [if dev_path in d: d.pop(dev_path, None)] for the three
    characteristic dicts, then [if dev_path in bind: del bind[dev_path]]
    and [deallocate(dev_path)]. *)
Definition drop_characteristics (dev_path : string) : M (World D) unit :=
  let* _ := modify (fun w => set_temperatures (delete dev_path (temperatures w)) w) in
  let* _ := modify (fun w => set_commands (delete dev_path (commands w)) w) in
  modify (fun w => set_batteries (delete dev_path (batteries w)) w).

Definition drop_bind (dev_path : string) : M (World D) unit :=
  modify (fun w => set_bind (delete dev_path (bind w)) w).

Definition free_slot (dev_path : string) : M (World D) unit :=
  modify (fun w => set_alloc (deallocate dev_path (alloc w)) w).

End WorldOps.

(** [os.path.dirname] for POSIX paths: cut after the last slash, then
    strip trailing slashes unless nothing else is left. *)
Definition is_sep (c : Ascii.ascii) : bool := Ascii.eqb c "/"%char.

Fixpoint drop_while {A} (f : A -> bool) (l : list A) : list A :=
  match l with
  | [] => []
  | a :: l' => if f a then drop_while f l' else l
  end.

Definition dirname (p : string) : string :=
  let head := drop_while (fun c => negb (is_sep c)) (rev (String.list_ascii_of_string p)) in
  let head' := if forallb is_sep head then head else drop_while is_sep head in
  String.string_of_list_ascii (rev head').

(** The counter update of the logger is an index loop over the whole of
    [thermocount]; it is the [map] of its body. *)
Definition tick_counts (f : Z -> Z) : M Register unit :=
  modify (fun r => set_thermocount (map f (thermocount r)) r).

(** [value if value < MAXTEMP else float('NaN')] *)
Definition rendered (value : float) : float :=
  if (value <? MAXTEMP)%float then value else nan.

(** ** The logger, up to its two parameters

    [logger] is the same function in both files but for the stall
    threshold (30 s or 120 s) and the counter update. *)

Section Logger.
Context {D : Type}.
Variable fails : BusCall -> bool.

(** The stall branch: one [ReadValue] per service marked [True]; an
    exception there is not caught. *)
Definition unstall (now : float) : M (World D) unit :=
  let* services := gets gatt_services in
  for_each services
    (fun sv : string * bool =>
       if snd sv then
         let obj_path := dirname (fst sv) in
         let* proxy := item temperatures obj_path in
         let* _ := bus_call fails (ReadValue proxy) in
         on_reg (modify (set_laststamp now))
       else ret tt).

(** One run of [logger]; [now] is the clock reading of this run. *)
Definition logger_with (threshold : float) (next_count : Z -> Z) (now : float)
    : M (World D) unit :=
  let* r := gets reg in
  let* _ := if negb (stamp r) && (threshold <? now - laststamp r)%float
            then unstall now else ret tt in
  let* r := gets reg in
  let* _ :=
    if stamp r then
      let sample := thermostamp r in
      let* _ := on_reg (modify (fun r => set_laststamp now (set_stamp false r))) in
      let* _ := on_reg (tick_counts next_count) in
      modify (fun w => set_fout (fout w ++ [(now, map rendered sample)]) w)
    else ret tt in
  let* _ := start_timer 1%float tc_logger in
  ret tt.

End Logger.

(** The loop of [update_temperatures] over [enumerate(t4vec)]; its body
    differs between the files.  In both the body starts with
    [thermostamp[offset+i]]: when [offset] is the float [1e9] so is
    [offset+i], and a list index that is a float is a [TypeError]. *)
Definition update_all {D} (update_channel : Z -> float -> M Register unit)
    (offset : Z) (vec : list float) : M (World D) unit :=
  for_each (imap (fun i value => (Z.of_nat i, value)) vec)
    (fun iv => if offset =? SENTINEL then raise TypeError
               else on_reg (update_channel (offset + fst iv) (snd iv))).

(** ** Service table and discovery helpers

    [gatt_services] maps a service path to whether its characteristics
    are bound; it is iterated over, so it is kept in insertion order. *)

Definition set_gatt_services {D} (l : list (string * bool)) (w : World D) : World D :=
  mkWorld (alloc w) (reg w) (inkbirds w) (temperatures w) (commands w) (batteries w)
          (bind w) l (timers w) (bus_log w) (fout w).

(** [d[k]] (or [k in d]) and [d[k] = v]: an existing key keeps its place. *)
Fixpoint assoc_get {V} (k : string) (d : list (string * V)) : option V :=
  match d with
  | [] => None
  | (k', v) :: d' => if String.eqb k k' then Some v else assoc_get k d'
  end.

Fixpoint assoc_set {V} (k : string) (v : V) (d : list (string * V)) : list (string * V) :=
  match d with
  | [] => [(k, v)]
  | (k', v') :: d' =>
      if String.eqb k k' then (k, v) :: d' else (k', v') :: assoc_set k v d'
  end.

(** The proxies a list of bindings refers to. *)
Definition proxies_of (l : list Binding) : list Proxy :=
  map (fun b : Binding => fst (fst b)) l.

(** A weak-valued dict once the list [l] of bindings is dropped: the
    entry of [dev_path] goes when its proxy was one of those of [l]. *)
Definition let_go (l : list Binding) (dev_path : string)
    (m : gmap string Proxy) : gmap string Proxy :=
  match m !! dev_path with
  | Some proxy => if bool_decide (proxy ∈ proxies_of l) then delete dev_path m else m
  | None => m
  end.

(** The list [l] that was [bind[dev_path]] is dropped.  Its tuples were
    the only references the script keeps to the characteristic proxies
    of [dev_path], so their entries leave the three weak-valued dicts. *)
Definition unbind {D} (l : list Binding) (dev_path : string) (w : World D) : World D :=
  set_batteries (let_go l dev_path (batteries w))
    (set_commands (let_go l dev_path (commands w))
       (set_temperatures (let_go l dev_path (temperatures w)) w)).

(** [bind[dev_path].append(b)] *)
Definition add_binding {D} (dev_path : string) (b : Binding) : M (World D) unit :=
  let* l := item bind dev_path in
  modify (fun w => set_bind (<[dev_path := l ++ [b]]> (bind w)) w).

(** The objects of [GetManagedObjects], or of one [InterfacesAdded]
    signal: interface name to properties, of which only the string-valued
    [Name], [UUID] and [Device] are read. *)
Definition Interfaces : Type := gmap string (gmap string string).

(** ** shock.py *)

Module Shock.

(** What the script sees of a device proxy: what a read of the remote
    properties [Connected] and [Trusted] returns while the call lasts. *)
Record DeviceProxy : Type := mkDeviceProxy {
  Connected : bool;
  Trusted : bool
}.

(** [allocate]: [del free_offsets[best]] is unguarded and comes after the
    write to [allocated_offsets]. *)
Definition allocate (obj_path : string) : M Alloc unit :=
  fun a =>
    let '(best, offset) := choose obj_path (free_offsets a) in
    let a1 := {| allocated_offsets := <[obj_path := offset]> (allocated_offsets a);
                 free_offsets := free_offsets a |} in
    if best_in best (free_offsets a1)
    then (inr tt, {| allocated_offsets := allocated_offsets a1;
                     free_offsets := del_best best (free_offsets a1) |})
    else (inl KeyError, a1).

(** The body of the loop over [enumerate(t4vec)] in
    [update_temperatures], for channel [c = offset + i]. *)
Definition update_channel (c : Z) (value : float) : M Register unit :=
  let* vlast := read thermostamp c in
  let* redundant := read thermocount c in
  let* skip := is_redundant c value vlast redundant in
  if skip then ret tt
  else if (1.5 <? abs (value - vlast))%float then
    let* cur := read thermostamp c in
    let* _ :=
      if (MAXTEMP <? value)%float || (MAXTEMP <? cur)%float
      then write thermostamp set_thermostamp c value
      else write thermostamp set_thermostamp c ((value + cur) / 2)%float in
    let* new := read thermostamp c in
    write thermofilter set_thermofilter c new
  else
    let* cur := read thermostamp c in
    let* _ := write thermofilter set_thermofilter c cur in
    let* _ := write thermostamp set_thermostamp c value in
    first_stamp c.

Section WithBus.
Variable fails : BusCall -> bool.
Abbreviation World := (World DeviceProxy).

Definition update_temperatures (obj_path : string) (data : list Z) : M World unit :=
  if bool_decide (slice data 8 12 ≠ TRAILER) then ret tt
  else
    let* vec := t4vec data in
    let* offset := item (fun w => allocated_offsets (alloc w)) obj_path in
    update_all update_channel offset vec.

(** [obj_dict] maps a changed property to its unpacked value; only
    ["Value"] is looked at. *)
Definition temperature_callback (obj_path : string)
    (obj_dict : gmap string (list Z)) : M World bool :=
  match obj_dict !! "Value"%string with
  | Some value =>
      let* slot := gets (fun w => allocated_offsets (alloc w) !! obj_path) in
      match slot with
      | None =>
          let* dev := item inkbirds obj_path in
          let* _ := bus_call fails (GetProperty obj_path "Connected") in
          let* _ :=
            if Connected dev then
              let* _ := on_alloc (allocate obj_path) in
              let* _ := bus_call fails (SetProperty obj_path "Trusted") in
              modify (fun w => set_inkbirds
                        (<[obj_path := mkDeviceProxy (Connected dev) true]> (inkbirds w)) w)
            else ret tt in
          ret false
      | Some _ =>
          let* _ := update_temperatures obj_path value in
          ret true
      end
  | None => ret true
  end.

Definition teardown_device (dev_path : string) : M World unit :=
  let* _ := stop_notifications fails dev_path in
  let* dev := gets (fun w => inkbirds w !! dev_path) in
  let* _ := match dev with
            | Some _ => bus_call_swallowed fails (Disconnect dev_path)
            | None => ret tt
            end in
  let* _ := modify (fun w => set_inkbirds (delete dev_path (inkbirds w)) w) in
  let* _ := drop_characteristics dev_path in
  let* _ := drop_bind dev_path in
  let* _ := free_slot dev_path in
  bus_call_swallowed fails (RemoveDevice dev_path).

(** [thermocount[i] = n+1 if n<MAXWAIT else 0] *)
Definition next_count (n : Z) : Z := if n <? MAXWAIT then n + 1 else 0.

(** [logger]: the stall threshold is 30 seconds. *)
Definition logger (now : float) : M World unit :=
  logger_with fails 30%float next_count now.

(** *** Discovery and shutdown *)

Definition INKBIRD_NAME : string := "IDT-34c-B".
Definition FRIENDLY_NAME : string := "INKBIRD".
Definition DEVICE_IFACE : string := "org.bluez.Device1".
Definition GATT_SERVICE_IFACE : string := "org.bluez.GattService1".
Definition GATT_CHAR_IFACE : string := "org.bluez.GattCharacteristic1".
Definition TEMPERATURE_UUID : string := "0000ff00-0000-1000-8000-00805f9b34fb".
(** [WATCHTIME = 90.1], as the binary64 value Python reads it. *)
Definition WATCHTIME : float := 0x1.6866666666666p+6%float.

(** The order in which [list(inkbirds.keys())] lists the known devices
    (their insertion order) is not recorded by the map; it is a parameter
    [order] of the functions that iterate over the devices. *)
Definition signal_handler (order : gmap string DeviceProxy -> list string) : M World Z :=
  let* paths := gets (fun w => order (inkbirds w)) in
  let* _ := for_each paths teardown_device in
  ret 2.

(** [PropertiesChanged.connect] only registers a closure; the bus call
    is [StartNotify]. *)
Definition bind_notify (b : Binding) : M World unit :=
  bus_call fails (StartNotify (fst (fst b))).

Definition start_cmd : list Z := [0xfd; 0x00; 0x00; 0x00; 0x00; 0x00; 0x00].

(** The loop over [gatt_services] in [services_resolved_callback];
    [Some b] is a [return b] from inside the loop. *)
Fixpoint mark_resolved (obj_path : string) (paths : list string) : M World (option bool) :=
  match paths with
  | [] => ret None
  | path :: rest =>
      if String.prefix obj_path path then
        let* flag := gets (fun w => assoc_get path (gatt_services w)) in
        let* flag := lookup_or KeyError flag in
        let* undersized :=
          if negb flag then
            let* l := item bind obj_path in ret (Z.of_nat (length l) <? 6)
          else ret false in
        if undersized then
          let* _ := item inkbirds obj_path in
          let* _ := bus_call fails (Disconnect obj_path) in
          ret (Some true)
        else
          let* _ := modify (fun w => set_gatt_services
                              (assoc_set path true (gatt_services w)) w) in
          mark_resolved obj_path rest
      else mark_resolved obj_path rest
  end.

(** [if obj_path in bind and bind[obj_path]: try: ... except: ...].
    In the [except] branch [bind[obj_path] = []] leaves the old list to
    the loop alone, and it is dropped when the function ends. *)
Definition bind_all (obj_path : string) : M World (option bool) :=
  let* bs := gets (fun w => bind w !! obj_path) in
  match bs with
  | Some (b :: l) =>
      try_except
        (let* _ := for_each (b :: l) bind_notify in ret None)
        (fun _ =>
           let* _ := modify (fun w => set_bind (<[obj_path := []]> (bind w)) w) in
           scoped
             (let* _ := item inkbirds obj_path in
              let* _ := bus_call fails (Disconnect obj_path) in
              ret (Some true))
             (unbind (b :: l) obj_path))
  | _ => ret None
  end.

(** [resolved] is [obj_dict.get('ServicesResolved')], unpacked; the
    result [None] is the function running off its end. *)
Definition services_resolved_callback (obj_path : string)
    (resolved : option bool) : M World (option bool) :=
  match resolved with
  | None => ret (Some false)
  | Some true =>
      let* paths := gets (fun w => (gatt_services w).*1) in
      let* early := mark_resolved obj_path paths in
      match early with
      | Some b => ret (Some b)
      | None =>
          let* early := bind_all obj_path in
          match early with
          | Some b => ret (Some b)
          | None =>
              let* cmd := gets (fun w => commands w !! obj_path) in
              match cmd with
              | Some c =>
                  let* _ := bus_call_swallowed fails (WriteValue c start_cmd) in
                  ret (Some true)
              | None => ret None
              end
          end
      end
  | Some false =>
      let* _ := teardown_device obj_path in
      ret (Some true)
  end.

(** The branch of [interface_added_callback] for a device object.
    [seen] gives the remote properties a fresh proxy shows.  The proxy
    is referred to by the local variable [new_inkbird] only (the closure
    connected to [PropertiesChanged] holds [obj_path]), so the entry made
    for it in [inkbirds] is gone when the function ends. *)
Definition device_added (seen : string -> DeviceProxy) (obj_path : string)
    (properties : gmap string string) : M World (option bool) :=
  match properties !! "Name"%string with
  | None => ret (Some true)
  | Some name =>
      if negb (String.eqb name INKBIRD_NAME) && negb (String.eqb name FRIENDLY_NAME)
      then ret (Some false)
      else
        let* known := gets (fun w => inkbirds w !! obj_path) in
        match known with
        | Some _ => ret (Some true)
        | None =>
            let* free := gets (fun w => free_offsets (alloc w)) in
            if (length free =? 0)%nat then ret (Some false)
            else
              let new_inkbird := seen obj_path in
              let* _ := bus_call fails (GetProperty obj_path "Connected") in
              if Connected new_inkbird then
                let* _ := free_slot obj_path in
                let* _ :=
                  try_except (bus_call fails (Disconnect obj_path))
                    (fun _ =>
                       let* _ := bus_call fails (SetProperty obj_path "Connected") in
                       bus_call fails (SetProperty obj_path "ServicesResolved")) in
                ret (Some false)
              else
                let* present := gets (fun w => inkbirds w !! obj_path) in
                match present with
                | None =>
                    let* _ := modify (fun w => set_inkbirds
                                        (<[obj_path := new_inkbird]> (inkbirds w)) w) in
                    scoped
                      (let* _ := bus_call fails (Connect obj_path) in
                       ret (Some true))
                      (fun w => set_inkbirds (delete obj_path (inkbirds w)) w)
                | Some _ =>
                    let* _ := bus_call fails (Connect obj_path) in
                    ret (Some true)
                end
        end
  end.

(** The branch for a GATT service object.  [bind[parent_path] = []]
    drops the list that was there, if any. *)
Definition service_added (obj_path : string)
    (properties : gmap string string) : M World (option bool) :=
  let parent_path := dirname obj_path in
  let* services := gets gatt_services in
  match assoc_get obj_path services with
  | Some _ => ret (Some true)
  | None =>
      let* uuid := lookup_or KeyError (properties !! "UUID"%string) in
      if String.eqb uuid TEMPERATURE_UUID then
        let* device := lookup_or KeyError (properties !! "Device"%string) in
        let* known := gets (fun w => inkbirds w !! device) in
        match known with
        | Some _ =>
            let* _ := modify (fun w => set_gatt_services
                                (assoc_set obj_path false (gatt_services w)) w) in
            let* old := gets (fun w => bind w !! parent_path) in
            let* _ := modify (fun w => set_bind (<[parent_path := []]> (bind w)) w) in
            let* _ := modify (unbind (default [] old) parent_path) in
            ret (Some true)
        | None => ret (Some true)
        end
      else ret (Some true)
  end.

(** The branch for a GATT characteristic object; the proxy of the
    characteristic stands for [obj_path].  The proxy is referred to by
    the local variable [proxy] and, once appended, by the tuple in
    [bind[dev_path]]: when [bind] has no list for [dev_path] the append
    raises [KeyError] and the entry just made in the weak-valued dict is
    gone when the function ends. *)
Definition characteristic_added (obj_path : string)
    (properties : gmap string string) : M World (option bool) :=
  let parent_path := dirname obj_path in
  let* services := gets gatt_services in
  match assoc_get parent_path services with
  | Some true => ret (Some true)
  | Some false =>
      let* uuid := lookup_or KeyError (properties !! "UUID"%string) in
      let proxy : Proxy := obj_path in
      let dev_path := dirname parent_path in
      if String.eqb "0000ff01-0000-1000-8000-00805f9b34fb" uuid then
        let* _ := modify (fun w => set_temperatures
                            (<[dev_path := proxy]> (temperatures w)) w) in
        let* _ := lose_on_raise
                    (add_binding dev_path (proxy, cb_temperature, dev_path))
                    (fun w => set_temperatures (delete dev_path (temperatures w)) w) in
        ret None
      else if String.eqb "0000ff02-0000-1000-8000-00805f9b34fb" uuid then
        let* _ := modify (fun w => set_commands
                            (<[dev_path := proxy]> (commands w)) w) in
        let* _ := lose_on_raise
                    (add_binding dev_path (proxy, cb_command, dev_path))
                    (fun w => set_commands (delete dev_path (commands w)) w) in
        ret None
      else if String.prefix "0000ff" uuid then
        if String.prefix "0000ff05" uuid then ret None
        else
          let* _ := add_binding dev_path (proxy, cb_extra, dev_path) in
          ret None
      else if String.eqb uuid "00002a19-0000-1000-8000-00805f9b34fb" then
        let* _ := modify (fun w => set_batteries
                            (<[dev_path := proxy]> (batteries w)) w) in
        let* _ := lose_on_raise
                    (add_binding dev_path (proxy, cb_battery, dev_path))
                    (fun w => set_batteries (delete dev_path (batteries w)) w) in
        ret None
      else ret (Some true)
  | None => ret (Some true)
  end.

Definition interface_added_callback (seen : string -> DeviceProxy) (obj_path : string)
    (obj_dict : Interfaces) : M World (option bool) :=
  match obj_dict !! DEVICE_IFACE with
  | Some properties => device_added seen obj_path properties
  | None =>
      match obj_dict !! GATT_SERVICE_IFACE with
      | Some properties => service_added obj_path properties
      | None =>
          match obj_dict !! GATT_CHAR_IFACE with
          | Some properties => characteristic_added obj_path properties
          | None => ret (Some false)
          end
      end
  end.

Definition interfaces_removed_callback (path : string)
    (interfaces : list string) : M World unit :=
  let* known := gets (fun w => inkbirds w !! path) in
  if bool_decide ("org.bluez.Device1"%string ∈ interfaces) && bool_decide (is_Some known)
  then teardown_device path
  else ret tt.

(** [managed] is the reply of [GetManagedObjects], in the order of its
    [items()]; [None] is a call that raised. *)
Definition scan_dbus (seen : string -> DeviceProxy)
    (order : gmap string DeviceProxy -> list string)
    (managed : option (list (string * Interfaces))) : M World unit :=
  let* objs := lookup_or DBusError managed in
  let* _ := for_each objs
              (fun o => let* _ := interface_added_callback seen (fst o) (snd o) in
                        ret tt) in
  let current_paths := objs.*1 in
  let* paths := gets (fun w => order (inkbirds w)) in
  let* _ := for_each paths
              (fun path => if bool_decide (path ∈ current_paths) then ret tt
                           else teardown_device path) in
  let* _ := start_timer WATCHTIME tc_scan_dbus in
  ret tt.

End WithBus.

End Shock.

(** ** deadlock.py *)

Module Deadlock.

Definition INITIAL_BACKOFF : float := 2%float.
Definition MAX_BACKOFF : float := 16%float.
Definition INKBIRD_NAME : string := "IDT-34c-B".
Definition FRIENDLY_NAME : string := "INKBIRD".
Definition DEVICE_IFACE : string := "org.bluez.Device1".

Inductive DeviceState : Type :=
| DISCONNECTED | CONNECTING | CONNECTED | PSEUDO_PAIRING | ACTIVE | TEARDOWN.

#[global] Instance DeviceState_eq_dec : EqDecision DeviceState.
Proof. solve_decision. Defined.

(** [InkbirdDevice]; [retry_timer] is the handle of the timer last
    started for the device.  The lock guards single field accesses and
    has no counterpart in a sequential model. *)
Record InkbirdDevice : Type := mkInkbirdDevice {
  obj_path : string;
  proxy : Proxy;
  state : DeviceState;
  allocated : bool;
  retry_backoff : float;
  retry_timer : option nat
}.

(** Modelled from the spec: the dict [inkbirds], which deadlock.py reads
    and writes in every function about devices but never creates.  The
    spec's Coordinator "holds [devices: map[path -> DeviceRecord]]"; as in
    shock.py it is empty at start-up and keyed by the object path. *)
Definition inkbirds_init : gmap string InkbirdDevice := ∅.

(** [InkbirdDevice.__init__] *)
Definition new_device (path : string) (prx : Proxy) : InkbirdDevice :=
  mkInkbirdDevice path prx DISCONNECTED false INITIAL_BACKOFF None.

Definition with_state (st : DeviceState) (d : InkbirdDevice) : InkbirdDevice :=
  mkInkbirdDevice (obj_path d) (proxy d) st (allocated d)
                  (retry_backoff d) (retry_timer d).
Definition with_retry (b : float) (t : option nat) (d : InkbirdDevice) : InkbirdDevice :=
  mkInkbirdDevice (obj_path d) (proxy d) (state d) (allocated d) b t.

Definition can_act (d : InkbirdDevice) (expected_state : DeviceState) : bool :=
  bool_decide (state d = expected_state).

(** Python's [min(a, b)]: [b] only when [b < a]. *)
Definition py_min (a b : float) : float := if (b <? a)%float then b else a.

(** [allocate]: [if best in free_offsets: del free_offsets[best]]. *)
Definition allocate (path : string) : M Alloc unit :=
  fun a =>
    let '(best, offset) := choose path (free_offsets a) in
    let a1 := {| allocated_offsets := <[path := offset]> (allocated_offsets a);
                 free_offsets := free_offsets a |} in
    if best_in best (free_offsets a1)
    then (inr tt, {| allocated_offsets := allocated_offsets a1;
                     free_offsets := del_best best (free_offsets a1) |})
    else (inr tt, a1).

(** The body of the loop over [enumerate(t4vec)] in
    [update_temperatures], for channel [c = offset + i]. *)
Definition update_channel (c : Z) (value : float) : M Register unit :=
  let* vlast := read thermostamp c in
  let* redundant := read thermocount c in
  let* skip := is_redundant c value vlast redundant in
  if skip then ret tt
  else
    let* _ :=
      if (1.5 <? abs (value - vlast))%float then
        let* cur := read thermostamp c in
        write thermostamp set_thermostamp c ((value + cur) / 2)%float
      else write thermostamp set_thermostamp c value in
    let* new := read thermostamp c in
    let* _ := write thermofilter set_thermofilter c new in
    first_stamp c.

(** [thermocount[i] = min(thermocount[i]+1, MAXWAIT)] *)
Definition next_count (n : Z) : Z := if MAXWAIT <? n + 1 then MAXWAIT else n + 1.

Section WithBus.
Variable fails : BusCall -> bool.
Abbreviation World := (World InkbirdDevice).

(** A method of the device object registered under [path]: the object
    is mutated in place, and the dict holds the only reference. *)
Definition on_device (path : string)
    (f : InkbirdDevice -> InkbirdDevice) : M World unit :=
  modify (fun w => set_inkbirds (alter f path (inkbirds w)) w).

Definition transition (path : string) (new_state : DeviceState) : M World unit :=
  on_device path (with_state new_state).

Definition schedule_retry (path : string) (cb : TimerCallback) : M World unit :=
  let* d := item inkbirds path in
  let* _ := match retry_timer d with
            | Some t => cancel_timer t
            | None => ret tt
            end in
  let backoff := py_min (retry_backoff d) MAX_BACKOFF in
  let* t := start_timer backoff cb in
  on_device path (with_retry (retry_backoff d * 2)%float (Some t)).

Definition cancel_retry (path : string) : M World unit :=
  let* d := item inkbirds path in
  let* _ := match retry_timer d with
            | Some t => cancel_timer t
            | None => ret tt
            end in
  on_device path (with_retry INITIAL_BACKOFF None).

Definition teardown_device (dev_path : string) : M World unit :=
  let* dev := gets (fun w => inkbirds w !! dev_path) in
  match dev with
  | None => ret tt
  | Some device =>
      let* _ := transition dev_path TEARDOWN in
      let* _ := cancel_retry dev_path in
      let* _ := stop_notifications fails dev_path in
      let* _ := bus_call_swallowed fails (Disconnect (proxy device)) in
      let* _ := drop_characteristics dev_path in
      let* _ := drop_bind dev_path in
      let* _ := free_slot dev_path in
      let* _ := bus_call_swallowed fails (RemoveDevice dev_path) in
      modify (fun w => set_inkbirds (delete dev_path (inkbirds w)) w)
  end.

Definition update_temperatures (path : string) (data : list Z) : M World unit :=
  if (Z.of_nat (length data) <? 12) || bool_decide (slice data 8 12 ≠ TRAILER)
  then ret tt
  else
    let* vec := t4vec data in
    let* offset := item (fun w => allocated_offsets (alloc w)) path in
    update_all update_channel offset vec.

Definition temperature_callback (path : string)
    (obj_dict : gmap string (list Z)) : M World unit :=
  match obj_dict !! "Value"%string with
  | Some value =>
      let* dev := gets (fun w => inkbirds w !! path) in
      let* slot := gets (fun w => allocated_offsets (alloc w) !! path) in
      let* _ :=
        match dev with
        | Some device =>
            match slot with
            | None =>
                if can_act device ACTIVE then on_alloc (allocate path) else ret tt
            | Some _ => ret tt
            end
        | None => ret tt
        end in
      update_temperatures path value
  | None => ret tt
  end.

(** [PropertiesChanged.connect] only registers a closure; the bus call
    is [StartNotify]. *)
Definition bind_notify (b : Binding) : M World unit :=
  bus_call fails (StartNotify (fst (fst b))).

Definition generic_init : list (list Z) :=
  [[0x02; 0x01; 0x00; 0x00; 0x00; 0x00; 0x00];
   [0x02; 0x02; 0x00; 0x00; 0x00; 0x00; 0x00];
   [0x02; 0x04; 0x00; 0x00; 0x00; 0x00; 0x00]].

Definition reinitialize_inkbird (path : string) : M World unit :=
  for_each generic_init
    (fun i => let* cmd := item commands path in
              bus_call fails (WriteValue cmd i)).

Definition start_cmd : list Z := [0xfd; 0x00; 0x00; 0x00; 0x00; 0x00; 0x00].

(** The [try] block of [run_pseudo_pairing]: first the calls on the bus,
    any of which may raise, as may the two dict lookups. *)
Definition pseudo_pairing_calls (path : string) : M World unit :=
  let* t := item temperatures path in
  let* _ := bus_call fails (StartNotify t) in
  let* cmd := item commands path in
  let* _ := bus_call fails (WriteValue cmd start_cmd) in
  let* _ := reinitialize_inkbird path in
  let* bs := gets (fun w => bind w !! path) in
  match bs with
  | Some l => for_each l bind_notify
  | None => ret tt
  end.

(** Then [device.transition(ACTIVE)], the reset of the backoff and
    [return True]. *)
Definition pseudo_pairing_steps (path : string) : M World bool :=
  let* _ := pseudo_pairing_calls path in
  let* _ := transition path ACTIVE in
  let* _ := on_device path
              (fun d => with_retry INITIAL_BACKOFF (retry_timer d) d) in
  ret true.

Definition run_pseudo_pairing (path : string) : M World bool :=
  let* dev := gets (fun w => inkbirds w !! path) in
  match dev with
  | None => ret false
  | Some device =>
      if negb (can_act device CONNECTED) then ret false
      else
        try_except (pseudo_pairing_steps path)
          (fun _ =>
             let* _ := schedule_retry path (tc_retry_pseudo_pairing path) in
             ret false)
  end.

Definition retry_pseudo_pairing (path : string) : M World unit :=
  let* dev := gets (fun w => inkbirds w !! path) in
  match dev with
  | Some device =>
      if can_act device CONNECTED
      then let* _ := run_pseudo_pairing path in ret tt
      else ret tt
  | None => ret tt
  end.

(** [resolved] is [obj_dict.get('ServicesResolved')], unpacked. *)
Definition services_resolved_callback (path : string)
    (resolved : option bool) : M World unit :=
  match resolved with
  | None => ret tt
  | Some r =>
      let* dev := gets (fun w => inkbirds w !! path) in
      match dev with
      | None => ret tt
      | Some _ =>
          if r then
            let* _ := transition path CONNECTED in
            let* _ := run_pseudo_pairing path in ret tt
          else teardown_device path
      end
  end.

(** [obj_dict] maps an interface name to its properties; of these only
    the string-valued [Name] is read. *)
Definition interface_added_callback (path : string)
    (obj_dict : gmap string (gmap string string)) : M World unit :=
  match obj_dict !! DEVICE_IFACE with
  | None => ret tt
  | Some props =>
      let name := default ""%string (props !! "Name"%string) in
      if negb (bool_decide (name ∈ [INKBIRD_NAME; FRIENDLY_NAME])) then ret tt
      else
        let* dev := gets (fun w => inkbirds w !! path) in
        let* _ := match dev with
                  | None => modify (fun w => set_inkbirds
                              (<[path := new_device path path]> (inkbirds w)) w)
                  | Some _ => ret tt
                  end in
        let* device := item inkbirds path in
        if can_act device DISCONNECTED then
          let* _ := transition path CONNECTING in
          try_except
            (let* _ := bus_call fails (Connect (proxy device)) in
             let* _ := bus_call fails (SetProperty (proxy device) "Trusted") in
             transition path CONNECTED)
            (fun _ => transition path DISCONNECTED)
        else ret tt
  end.

(** What a retry timer does when its interval has elapsed: nothing if
    it was cancelled (or has run already), else its callback. *)
Definition fire_retry (i : nat) : M World unit :=
  let* ts := gets timers in
  match ts !! i with
  | Some (mkTimer t (tc_retry_pseudo_pairing path) Pending) =>
      let* _ := modify (fun w => set_timers
                  (<[i := mkTimer t (tc_retry_pseudo_pairing path) Fired]> (timers w)) w) in
      retry_pseudo_pairing path
  | _ => ret tt
  end.

(** [logger]: the stall threshold is 120 seconds. *)
Definition logger (now : float) : M World unit :=
  logger_with fails 120%float next_count now.

(** *** Removal, scan and shutdown *)

Definition WATCHTIME : float := 45%float.

Definition interfaces_removed_callback (path : string)
    (interfaces : list string) : M World unit :=
  let* known := gets (fun w => inkbirds w !! path) in
  if bool_decide (DEVICE_IFACE ∈ interfaces) && bool_decide (is_Some known)
  then teardown_device path
  else ret tt.

(** [managed] is the reply of [GetManagedObjects], in the order of its
    [items()]; [None] is a call that raised.  [order] gives the order in
    which [list(inkbirds.keys())] lists the devices. *)
Definition scan_dbus (order : gmap string InkbirdDevice -> list string)
    (managed : option (list (string * Interfaces))) : M World unit :=
  let* objs := lookup_or DBusError managed in
  let* _ := for_each objs (fun o => interface_added_callback (fst o) (snd o)) in
  let current_paths := objs.*1 in
  let* paths := gets (fun w => order (inkbirds w)) in
  let* _ := for_each paths
              (fun path => if bool_decide (path ∈ current_paths) then ret tt
                           else teardown_device path) in
  let* _ := start_timer WATCHTIME tc_scan_dbus in
  ret tt.

Definition signal_handler (order : gmap string InkbirdDevice -> list string) : M World Z :=
  let* paths := gets (fun w => order (inkbirds w)) in
  let* _ := for_each paths teardown_device in
  ret 0.

End WithBus.

End Deadlock.

(** * Vocabulary of the properties *)

Definition is_byte (z : Z) : Prop := 0 <= z < 256.

(** The formula as the spec words it: [|] joins the two bytes. *)
Definition celsius_of_bytes (lo hi : Z) : float :=
  truediv (Z.lor (Z.shiftl (Z.lxor hi 0x80) 8) lo - 0x8000 - 320) 18.

Definition OFFSETS : list Z := [0; 4; 8; 12; 16; 20].

(** The offsets held by devices and the offsets on the free list. *)
Definition held (a : Alloc) : list Z := (map_to_list (allocated_offsets a)).*2.
Definition spare (a : Alloc) : list Z := (free_offsets a).*2.

(** The invariant as the spec states it. *)
Definition slots_partition (a : Alloc) : Prop :=
  (forall o, o ∈ held a \/ o ∈ spare a <-> o ∈ OFFSETS) /\
  (forall o, o ∈ held a -> o ∉ spare a) /\
  (size (allocated_offsets a) <= 6)%nat.

(** The invariant that is inductive: the offsets held and spare are the
    six offsets, each once; [free_offsets] is a dict; and a path that
    holds a slot has no entry in [free_offsets]. *)
Record alloc_inv (a : Alloc) : Prop := mk_alloc_inv {
  inv_perm : held a ++ spare a ≡ₚ OFFSETS;
  inv_keys : NoDup (free_offsets a).*1;
  inv_apart : forall p, is_Some (allocated_offsets a !! p) ->
                        dict_get (KPath p) (free_offsets a) = None
}.

(** The allocator states the two files can reach from the initial one:
    [teardown_device] (and, in shock.py, [interface_added_callback] on a
    device that shows as connected) calls [deallocate] for any path, and
    [temperature_callback] calls [allocate] for a path that holds no slot
    ([obj_path not in allocated_offsets], shock.py line 200 and
    deadlock.py line 169), whether or not a free offset is left and
    whether [allocate] returns or raises. *)
Inductive caller_reach (allocate : string -> M Alloc unit) : Alloc -> Prop :=
| reach_init : caller_reach allocate alloc_init
| reach_deallocate a p :
    caller_reach allocate a -> caller_reach allocate (deallocate p a)
| reach_allocate a p :
    caller_reach allocate a ->
    allocated_offsets a !! p = None ->
    caller_reach allocate (snd (allocate p a)).

(** An offset other than the scan's start value. *)
Definition is_slot (o : Z) : Prop := o ≠ SENTINEL.

(** What these states have in common: the offsets held or free, [1e9]
    left aside, are the six offsets, each once; [free_offsets] is a dict;
    and a path that holds a slot has no entry in [free_offsets]. *)
Record slots_kept (a : Alloc) : Prop := mk_slots_kept {
  kept_perm : filter is_slot (held a ++ spare a) ≡ₚ OFFSETS;
  kept_keys : NoDup (free_offsets a).*1;
  kept_apart : forall p, is_Some (allocated_offsets a !! p) ->
                         dict_get (KPath p) (free_offsets a) = None
}.

Definition six_paths : list string := ["/d1"; "/d2"; "/d3"; "/d4"; "/d5"; "/d6"].

(** The allocator after six devices have taken their slots. *)
Definition alloc_full : Alloc := snd (for_each six_paths Deadlock.allocate alloc_init).

(** The test that suppresses an update, on the values it reads. *)
Definition suppressed (n : Z) (v vlast vfilt : float) : bool :=
  negb (n =? 0) && (n <? MAXWAIT) && ((v =? vlast) || (v =? vfilt))%float.

(** ** Events and scenarios *)

(** What the event loop delivers to the sampling path: a change of
    [Value] on a device's temperature characteristic, a run of the
    logger, a teardown. *)
Inductive Event : Type :=
| EvNotify (path : string) (value : list Z)
| EvLogger (now : float)
| EvTeardown (path : string).

Definition shock_event (fails : BusCall -> bool) (e : Event)
    : M (World Shock.DeviceProxy) unit :=
  match e with
  | EvNotify path value =>
      let* _ := Shock.temperature_callback fails path {["Value"%string := value]} in
      ret tt
  | EvLogger now => Shock.logger fails now
  | EvTeardown path => Shock.teardown_device fails path
  end.

Definition deadlock_event (fails : BusCall -> bool) (e : Event)
    : M (World Deadlock.InkbirdDevice) unit :=
  match e with
  | EvNotify path value =>
      Deadlock.temperature_callback path {["Value"%string := value]}
  | EvLogger now => Deadlock.logger fails now
  | EvTeardown path => Deadlock.teardown_device fails path
  end.

(** Events are handled one after the other; an exception ends the
    handler and the state it leaves is the state the next event finds.
    Each event comes with the behaviour of the bus while it is handled. *)
Definition run {D} (handle : (BusCall -> bool) -> Event -> M (World D) unit)
    (trace : list ((BusCall -> bool) * Event)) (w : World D) : World D :=
  fold_left (fun w fe => snd (handle (fst fe) (snd fe) w)) trace w.

Definition no_failure : BusCall -> bool := fun _ => false.

(** A payload with the same reading on its four channels. *)
Definition packet (lo hi : Z) : list Z :=
  [lo; hi; lo; hi; lo; hi; lo; hi; 0xFE; 0x7F; 0xFE; 0x7F].

(** 25.0 and 30.0 degrees Celsius. *)
Definition packet_25 : list Z := packet 0x02 0x03.
Definition packet_30 : list Z := packet 0x5C 0x03.

(** shock.py with one known, connected device and nothing sampled yet. *)
Definition shock_known (path : string) : World Shock.DeviceProxy :=
  set_inkbirds {[path := Shock.mkDeviceProxy true false]} (world_init 0%float).

(** A register in which channel 0 was stamped with 25.0 one line ago. *)
Definition register_at_25 : Register :=
  {| thermostamp := <[0%nat := 25%float]> (replicate 24 nan);
     thermofilter := <[0%nat := 25%float]> (replicate 24 0%float);
     thermocount := replicate 24 1;
     stamp := false;
     laststamp := 0%float |}.

(** ** Invariants of handlers *)

(** [m] keeps [I]: whatever [m] returns or raises, the state it leaves
    satisfies [I] if the state it found did. *)
Definition preserves {S A} (I : S -> Prop) (m : M S A) : Prop :=
  forall s, I s -> I (snd (m s)).

(** Every counter of the register is between 0 and [MAXWAIT]. *)
Definition counts_bounded (r : Register) : Prop :=
  Forall (fun n => 0 <= n <= MAXWAIT) (thermocount r).

(** A property of the world that only looks at the register. *)
Definition on_register {D} (J : Register -> Prop) : World D -> Prop :=
  fun w => J (reg w).

(** The counter update as the spec words it. *)
Definition clamped (n : Z) : Z := Z.min (n + 1) MAXWAIT.

(** The readings [24.9 + k/18] for [k = first, first+1, ...], each on all
    four channels of the device, each followed by a run of the logger. *)
Definition rising_trace (path : string) (first count : nat)
    : list ((BusCall -> bool) * Event) :=
  flat_map (fun k : nat =>
              [(no_failure, EvNotify path (packet (Z.of_nat k) 0x03));
               (no_failure, EvLogger (float_of_Z (Z.of_nat k)))])
           (seq first count).

(** What a teardown is about: the device map, the characteristic maps,
    the binding queues and the allocator. *)
Definition teardown_view {D} (w : World D) :=
  (inkbirds w, temperatures w, commands w, batteries w, bind w, alloc w).

(** ** Logger cycles *)

(** One cycle per tick: the register update, then the logger.  The result
    lists, cycle by cycle, the value of [stamp] between the two, which is
    whether the update set it. *)
Fixpoint cycles {D} (update : M (World D) unit)
    (logger : (BusCall -> bool) -> float -> M (World D) unit)
    (ticks : list ((BusCall -> bool) * float)) (w : World D) : list bool :=
  match ticks with
  | [] => []
  | tick :: rest =>
      let w1 := snd (update w) in
      let w2 := snd (logger (fst tick) (snd tick) w1) in
      stamp (reg w1) :: cycles update logger rest w2
  end.

(** What the redundancy filter needs of a decoded value [v]: it equals
    itself, and against a channel that was never observed ([NaN]) it is
    not a large jump. *)
Definition decoded_ok (v : float) : bool :=
  (v =? v)%float && negb (1.5 <? abs (v - nan))%float.

(** Channels 0 to 3 hold [vs] since the last logged line, the logger has
    run once since, and no update is waiting to be logged. *)
Definition settled (vs : list float) (r : Register) : Prop :=
  stamp r = false /\ thermostamp r = vs ++ replicate 20 nan /\
  thermocount r = replicate 24 1.

(** The twenty-five ticks of the scenario: no bus failure, one second
    apart. *)
Definition ticks_25 : list ((BusCall -> bool) * float) :=
  map (fun k : nat => (no_failure, float_of_Z (Z.of_nat k))) (seq 1 25).

(** The globals once [path] has taken the first offset and before any
    reading was seen. *)
Definition world_with_slot {D} (path : string) : World D :=
  set_alloc (snd (Shock.allocate path alloc_init)) (world_init 0%float).

(** The register after channel [i] has accepted [v] as a small change,
    in shock.py and in deadlock.py. *)
Definition stamped_first (i : nat) (r0 r1 : Register) : Register :=
  if stamp r0 then r1
  else set_stamp true (set_thermocount (<[i := 0]> (thermocount r1)) r1).

Definition shock_accepted (i : nat) (v vlast : float) (r : Register) : Register :=
  stamped_first i r
    (set_thermostamp (<[i := v]> (thermostamp r))
       (set_thermofilter (<[i := vlast]> (thermofilter r)) r)).

Definition deadlock_accepted (i : nat) (v : float) (r : Register) : Register :=
  stamped_first i r
    (set_thermofilter (<[i := v]> (thermofilter r))
       (set_thermostamp (<[i := v]> (thermostamp r)) r)).

(** ** Retry scenarios (deadlock.py) *)

(** The interface bundle of a thermometer as [InterfacesAdded] delivers it. *)
Definition inkbird_added : gmap string (gmap string string) :=
  {[Deadlock.DEVICE_IFACE := {["Name"%string := Deadlock.INKBIRD_NAME]}]}.

(** deadlock.py at start-up, with the two characteristic proxies of
    [path] already in place. *)
Definition deadlock_ready (path : string) : World Deadlock.InkbirdDevice :=
  set_commands {[path := (path +:+ "/char2")%string]}
    (set_temperatures {[path := (path +:+ "/char1")%string]}
       (set_inkbirds Deadlock.inkbirds_init (world_init 0%float))).

(** A bus on which [Connect] fails, and one on which every write to a
    characteristic fails. *)
Definition connect_fails (c : BusCall) : bool :=
  match c with Connect _ => true | _ => false end.
Definition write_fails (c : BusCall) : bool :=
  match c with WriteValue _ _ => true | _ => false end.

(** [InterfacesAdded], then [ServicesResolved = True] with the handshake
    failing, two retries that fail, and a third that goes through. *)
Definition pairing_scenario (path : string) : World Deadlock.InkbirdDevice :=
  let w0 := snd (Deadlock.interface_added_callback no_failure path inkbird_added
                   (deadlock_ready path)) in
  let w1 := snd (Deadlock.services_resolved_callback write_fails path (Some true) w0) in
  let w2 := snd (Deadlock.fire_retry write_fails 0 w1) in
  let w3 := snd (Deadlock.fire_retry write_fails 1 w2) in
  snd (Deadlock.fire_retry no_failure 2 w3).

(** [Connect] fails on three sightings of the device and succeeds on the
    fourth. *)
Definition connect_scenario (path : string) : World Deadlock.InkbirdDevice :=
  let w1 := snd (Deadlock.interface_added_callback connect_fails path inkbird_added
                   (deadlock_ready path)) in
  let w2 := snd (Deadlock.interface_added_callback connect_fails path inkbird_added w1) in
  let w3 := snd (Deadlock.interface_added_callback connect_fails path inkbird_added w2) in
  snd (Deadlock.interface_added_callback no_failure path inkbird_added w3).

(** The retry timers of [path] that are still to fire. *)
Definition pending_retry (path : string) (t : Timer) : bool :=
  match callback t, status t with
  | tc_retry_pseudo_pairing p, Pending => bool_decide (p = path)
  | _, _ => false
  end.

(** Every pending retry timer of [path] is the one the device record
    points to. *)
Definition single_retry (path : string) (dev : Deadlock.InkbirdDevice)
    (l : list Timer) : Prop :=
  forall i t, l !! i = Some t -> pending_retry path t = true ->
              Deadlock.retry_timer dev = Some i.

(** ** Vocabulary of the further properties *)

(** The register's three arrays all have [n] entries. *)
Definition lengths (n : nat) (r : Register) : Prop :=
  length (thermostamp r) = n /\ length (thermofilter r) = n /\
  length (thermocount r) = n.

(** What channel [j] holds: value, filter and counter. *)
Definition channel (j : nat) (r : Register) : option float * option float * option Z :=
  (thermostamp r !! j, thermofilter r !! j, thermocount r !! j).

(** The byte pairs whose reading exceeds [MAXTEMP], and those whose
    reading is not below it. *)
Definition above_maxtemp (lo hi : Z) : bool := (hi =? 0x7F) && (0xFE <=? lo).
Definition not_below_maxtemp (lo hi : Z) : bool := (hi =? 0x7F) && (0xFD <=? lo).

(** [StopNotify] on the characteristic registered for [p] in [d], if any. *)
Definition stop_call {D} (d : World D -> gmap string Proxy) (p : string)
    (w : World D) : list BusCall :=
  match d w !! p with
  | Some proxy => [StopNotify proxy]
  | None => []
  end.

(** [m] cannot raise from a state that satisfies [I], and keeps [I]. *)
Definition succeeds {S A} (I : S -> Prop) (m : M S A) : Prop :=
  forall s, I s -> (exists a, fst (m s) = inr a) /\ I (snd (m s)).

(** The timer [logger] starts for its next run. *)
Definition logger_timer : Timer := mkTimer 1%float tc_logger Pending.

(** The line [logger] prints for the register [r] at time [now]. *)
Definition log_line (now : float) (r : Register) : float * list float :=
  (now, map rendered (thermostamp r)).

(** The bus calls of a teardown of [p] in shock.py and in deadlock.py. *)
Definition stop_calls {D} (p : string) (w : World D) : list BusCall :=
  stop_call temperatures p w ++ stop_call commands p w ++ stop_call batteries p w.

(** The globals with [p] removed from the device map, the characteristic
    maps and the binding queues, its slot given back, and [calls] made on
    the bus. *)
Definition torn_down {D} (p : string) (calls : list BusCall) (ts : list Timer)
    (w : World D) : World D :=
  mkWorld (deallocate p (alloc w)) (reg w) (delete p (inkbirds w))
          (delete p (temperatures w)) (delete p (commands w)) (delete p (batteries w))
          (delete p (bind w)) (gatt_services w) ts (bus_log w ++ calls) (fout w).

(** What the globals [w'] after a teardown of [p] are to the globals [w]
    before it: [p] is gone from every per-device table, every other
    device is as before, the slot [p] held is filed in [free_offsets]
    under [p] itself, and the register, the log file and the service table
    are not touched. *)
Record released {D} (p : string) (w w' : World D) : Prop := mk_released {
  rel_gone :
    inkbirds w' !! p = None /\ temperatures w' !! p = None /\
    commands w' !! p = None /\ batteries w' !! p = None /\ bind w' !! p = None /\
    allocated_offsets (alloc w') !! p = None;
  rel_others : forall q, q <> p ->
    inkbirds w' !! q = inkbirds w !! q /\ temperatures w' !! q = temperatures w !! q /\
    commands w' !! q = commands w !! q /\ batteries w' !! q = batteries w !! q /\
    bind w' !! q = bind w !! q /\
    allocated_offsets (alloc w') !! q = allocated_offsets (alloc w) !! q;
  rel_slot : forall o, allocated_offsets (alloc w) !! p = Some o ->
    dict_get (KPath p) (free_offsets (alloc w')) = Some o;
  rel_frame :
    reg w' = reg w /\ fout w' = fout w /\ gatt_services w' = gatt_services w
}.

(** What is checked of the decoded value of a byte pair: it is a number
    between -1839 and 1803, it exceeds [MAXTEMP] exactly for the pairs of
    [above_maxtemp] and fails to be below it exactly for those of
    [not_below_maxtemp]. *)
Definition decoded_class (lo hi : Z) : bool :=
  let t := temperature lo hi in
  (t =? t)%float && (-1839 <? t)%float && (t <? 1803)%float
  && Bool.eqb (MAXTEMP <? t)%float (above_maxtemp lo hi)
  && Bool.eqb (t <? MAXTEMP)%float (negb (not_below_maxtemp lo hi)).

(** ** What the event loop of deadlock.py calls

    The signal handlers of the bus, the timers and the process signal;
    each call comes with the behaviour of the bus while it runs. *)
Inductive DeadlockCall : Type :=
| DInterfaceAdded (path : string) (obj_dict : Interfaces)
| DInterfacesRemoved (path : string) (interfaces : list string)
| DServicesResolved (path : string) (resolved : option bool)
| DTemperature (path : string) (obj_dict : gmap string (list Z))
| DRetryTimer (i : nat)
| DLogger (now : float)
| DScan (managed : option (list (string * Interfaces)))
| DSignal.

Definition deadlock_call (order : gmap string Deadlock.InkbirdDevice -> list string)
    (fc : (BusCall -> bool) * DeadlockCall) : M (World Deadlock.InkbirdDevice) unit :=
  let fails := fst fc in
  match snd fc with
  | DInterfaceAdded path obj_dict => Deadlock.interface_added_callback fails path obj_dict
  | DInterfacesRemoved path interfaces =>
      Deadlock.interfaces_removed_callback fails path interfaces
  | DServicesResolved path resolved => Deadlock.services_resolved_callback fails path resolved
  | DTemperature path obj_dict => Deadlock.temperature_callback path obj_dict
  | DRetryTimer i => Deadlock.fire_retry fails i
  | DLogger now => Deadlock.logger fails now
  | DScan managed => Deadlock.scan_dbus fails order managed
  | DSignal => let* _ := Deadlock.signal_handler fails order in ret tt
  end.

(** Calls are handled one after the other; an exception ends the call
    and the state it leaves is the state the next call finds. *)
Definition play {S E} (handle : E -> M S unit) (trace : list E) (s : S) : S :=
  fold_left (fun s e => snd (handle e s)) trace s.

(** The calls that can let an exception escape: a temperature
    notification, the logger, and a scan whose [GetManagedObjects] fails. *)
Definition may_raise (c : DeadlockCall) : bool :=
  match c with
  | DTemperature _ _ | DLogger _ | DScan None => true
  | _ => false
  end.

(** [m], run from [s], ends in a state that satisfies [Q] (with its
    result) when it returns and [E] (with its exception) when it raises. *)
Definition wp {S A} (m : M S A) (Q : A -> S -> Prop) (E : exn -> S -> Prop)
    (s : S) : Prop :=
  match m s with
  | (inr a, s') => Q a s'
  | (inl e, s') => E e s'
  end.

(** ** The device table of deadlock.py *)

(** The states a device is left in between two calls. *)
Definition settled_state (st : Deadlock.DeviceState) : bool :=
  match st with
  | Deadlock.DISCONNECTED | Deadlock.CONNECTED | Deadlock.ACTIVE => true
  | _ => false
  end.

(** The record filed under [p] is the one made for [p]. *)
Definition device_fields (p : string) (d : Deadlock.InkbirdDevice) : Prop :=
  Deadlock.obj_path d = p /\ Deadlock.proxy d = p /\ Deadlock.allocated d = false.

Definition devices_tab (m : gmap string Deadlock.InkbirdDevice) : Prop :=
  forall p d, m !! p = Some d ->
    device_fields p d /\ settled_state (Deadlock.state d) = true.

(** Every retry timer that is still to fire belongs to a known device
    and is the one its record points to. *)
Definition retries_tab (m : gmap string Deadlock.InkbirdDevice) (ts : list Timer) : Prop :=
  forall i t p, ts !! i = Some t -> pending_retry p t = true ->
    exists d, m !! p = Some d /\ Deadlock.retry_timer d = Some i.

Definition devices_ok (w : World Deadlock.InkbirdDevice) : Prop :=
  devices_tab (inkbirds w).

Definition retries_ok (w : World Deadlock.InkbirdDevice) : Prop :=
  retries_tab (inkbirds w) (timers w).

Definition table_ok (w : World Deadlock.InkbirdDevice) : Prop :=
  devices_ok w /\ retries_ok w.

(** [timer.cancel()] on the handle a record holds, if any. *)
Definition cancel_handle (h : option nat) (ts : list Timer) : list Timer :=
  match h with
  | Some t => cancel_in t ts
  | None => ts
  end.

(** The bus calls deadlock.py makes on a device object or on the
    adapter, as opposed to those on a characteristic. *)
Definition device_call (c : BusCall) : bool :=
  match c with
  | Connect _ | Disconnect _ | SetProperty _ _ | RemoveDevice _ => true
  | _ => false
  end.

Definition never_active (m : gmap string Deadlock.InkbirdDevice) : Prop :=
  forall p d, m !! p = Some d -> Deadlock.state d <> Deadlock.ACTIVE.

(** deadlock.py before any characteristic is known: the characteristic
    tables, the binding queues and the service table are empty, no device
    is [ACTIVE], the allocator, the register and the log file are as at
    start-up (at time [t0]), and only device calls went over the bus. *)
Record inert (t0 : float) (w : World Deadlock.InkbirdDevice) : Prop := mk_inert {
  inert_temperatures : temperatures w = ∅;
  inert_commands : commands w = ∅;
  inert_batteries : batteries w = ∅;
  inert_bind : bind w = ∅;
  inert_services : gatt_services w = [];
  inert_devices : never_active (inkbirds w);
  inert_alloc : alloc w = alloc_init;
  inert_reg : reg w = register_init t0;
  inert_fout : fout w = [];
  inert_bus : Forall (fun c => device_call c = true) (bus_log w)
}.

(** A device is sighted while [Connect] fails, sighted again on a
    working bus, its services resolve and, the handshake having failed,
    its retry timer fires. *)
Definition sighting_trace : list ((BusCall -> bool) * DeadlockCall) :=
  [(connect_fails, DInterfaceAdded "/d1" inkbird_added);
   (no_failure, DInterfaceAdded "/d1" inkbird_added);
   (no_failure, DServicesResolved "/d1" (Some true));
   (no_failure, DRetryTimer 0);
   (no_failure, DTemperature "/d1" {["Value"%string := packet_25]});
   (no_failure, DLogger 200%float)].

(** The keys of the device table in the order of the map. *)
Definition map_order {D} (m : gmap string D) : list string := (map_to_list m).*1.

(** [order] lists the keys of the device table it is given, as
    [list(inkbirds.keys())] does. *)
Definition covers {D} (order : gmap string D -> list string) : Prop :=
  forall m q, q ∈ order m <-> is_Some (m !! q).

(** [p] is in none of the per-device tables. *)
Definition gone {D} (p : string) (w : World D) : Prop :=
  inkbirds w !! p = None /\ temperatures w !! p = None /\
  commands w !! p = None /\ batteries w !! p = None /\ bind w !! p = None /\
  allocated_offsets (alloc w) !! p = None.

(** The per-device tables at [q] are the same in [w] and [w']. *)
Definition same_at {D} (q : string) (w w' : World D) : Prop :=
  inkbirds w' !! q = inkbirds w !! q /\ temperatures w' !! q = temperatures w !! q /\
  commands w' !! q = commands w !! q /\ batteries w' !! q = batteries w !! q /\
  bind w' !! q = bind w !! q /\
  allocated_offsets (alloc w') !! q = allocated_offsets (alloc w) !! q.

(** A teardown function: it returns normally and either releases the
    device or, finding it unknown, leaves the globals alone. *)
Definition tears_down {D} (td : string -> M (World D) unit) : Prop :=
  forall p w, fst (td p w) = inr tt /\
    (released p w (snd (td p w)) \/ (inkbirds w !! p = None /\ snd (td p w) = w)).

(** The timers [scan_dbus] starts for its next run. *)
Definition shock_scan_timer : Timer := mkTimer Shock.WATCHTIME tc_scan_dbus Pending.
Definition deadlock_scan_timer : Timer := mkTimer Deadlock.WATCHTIME tc_scan_dbus Pending.

(** The service table once [ServicesResolved] of [p] has gone through:
    every service whose path starts with [p] is marked. *)
Definition marked (p : string) (gs : list (string * bool)) : list (string * bool) :=
  map (fun kb => (fst kb, snd kb || String.prefix p (fst kb))) gs.

(** The [StartNotify] calls for a list of bindings. *)
Definition start_calls (l : list Binding) : list BusCall :=
  map (fun b : Binding => StartNotify (fst (fst b))) l.

(** ** A discovery scenario (shock.py) *)

(** A fresh proxy shows the device as not connected. *)
Definition seen_disconnected : string -> Shock.DeviceProxy :=
  fun _ => Shock.mkDeviceProxy false false.

Definition char_object (uuid : string) : Interfaces :=
  {[Shock.GATT_CHAR_IFACE := {["UUID"%string := uuid]}]}.

(** The objects of one thermometer as the bus announces them: the
    device, its temperature service and seven characteristics, of which
    [ff05] is not bound. *)
Definition discovery : list (string * Interfaces) :=
  [("/d1"%string,
    {[Shock.DEVICE_IFACE := {["Name"%string := Shock.INKBIRD_NAME]}]});
   ("/d1/service0021"%string,
    {[Shock.GATT_SERVICE_IFACE :=
        <["Device"%string := "/d1"%string]>
          {["UUID"%string := Shock.TEMPERATURE_UUID]}]});
   ("/d1/service0021/char0022"%string, char_object "0000ff01-0000-1000-8000-00805f9b34fb");
   ("/d1/service0021/char0025"%string, char_object "0000ff02-0000-1000-8000-00805f9b34fb");
   ("/d1/service0021/char0027"%string, char_object "0000ff03-0000-1000-8000-00805f9b34fb");
   ("/d1/service0021/char002a"%string, char_object "0000ff04-0000-1000-8000-00805f9b34fb");
   ("/d1/service0021/char002d"%string, char_object "0000ff05-0000-1000-8000-00805f9b34fb");
   ("/d1/service0021/char002f"%string, char_object "0000ff06-0000-1000-8000-00805f9b34fb");
   ("/d1/service0021/char0032"%string, char_object "0000ff07-0000-1000-8000-00805f9b34fb")].

(** The globals after the first [n] of these objects were announced,
    the proxy of the device being in [inkbirds] from the start. *)
Definition discovered (n : nat) : World Shock.DeviceProxy :=
  snd (for_each (take n discovery)
         (fun o => let* _ := Shock.interface_added_callback no_failure seen_disconnected
                               (fst o) (snd o) in
                   ret tt)
         (set_inkbirds {["/d1"%string := Shock.mkDeviceProxy false false]}
            (world_init 0%float))).

(** A bus on which [StartNotify] fails on the third characteristic. *)
Definition third_notify_fails (c : BusCall) : bool :=
  match c with
  | StartNotify char => String.eqb char "/d1/service0021/char0027"
  | _ => false
  end.

(** ** What the event loop of shock.py calls *)

Inductive ShockCall : Type :=
| SInterfaceAdded (path : string) (obj_dict : Interfaces)
| SInterfacesRemoved (path : string) (interfaces : list string)
| SServicesResolved (path : string) (resolved : option bool)
| STemperature (path : string) (obj_dict : gmap string (list Z))
| SLogger (now : float)
| SScan (managed : option (list (string * Interfaces)))
| SSignal.

Definition shock_call (seen : string -> Shock.DeviceProxy)
    (order : gmap string Shock.DeviceProxy -> list string)
    (fc : (BusCall -> bool) * ShockCall) : M (World Shock.DeviceProxy) unit :=
  let fails := fst fc in
  match snd fc with
  | SInterfaceAdded path obj_dict =>
      let* _ := Shock.interface_added_callback fails seen path obj_dict in ret tt
  | SInterfacesRemoved path interfaces =>
      Shock.interfaces_removed_callback fails path interfaces
  | SServicesResolved path resolved =>
      let* _ := Shock.services_resolved_callback fails path resolved in ret tt
  | STemperature path obj_dict =>
      let* _ := Shock.temperature_callback fails path obj_dict in ret tt
  | SLogger now => Shock.logger fails now
  | SScan managed => Shock.scan_dbus fails seen order managed
  | SSignal => let* _ := Shock.signal_handler fails order in ret tt
  end.

(** The tables that discovery fills. *)
Definition discovery_tables {D} (w : World D) :=
  (temperatures w, commands w, batteries w, bind w, gatt_services w).

(** The device [p] has no characteristic and no binding queue, no
    service under [p] is waiting to be bound, and the services of [K] are
    in the service table. *)
Record deaf {D} (K : list string) (p : string) (w : World D) : Prop := mk_deaf {
  deaf_temperatures : temperatures w !! p = None;
  deaf_commands : commands w !! p = None;
  deaf_batteries : batteries w !! p = None;
  deaf_bind : bind w !! p = None;
  deaf_marked : forall sv, dirname sv = p -> assoc_get sv (gatt_services w) <> Some false;
  deaf_known : forall sv, sv ∈ K -> is_Some (assoc_get sv (gatt_services w))
}.

(** An announced object that is not a temperature service under [p]
    unless it is one of [K]: a service object with [TEMPERATURE_UUID]
    whose path lies directly under [p] is in [K]. *)
Definition quiet_object (K : list string) (p : string) (o : string * Interfaces) : Prop :=
  forall props,
    snd o !! Shock.DEVICE_IFACE = None ->
    snd o !! Shock.GATT_SERVICE_IFACE = Some props ->
    props !! "UUID"%string = Some Shock.TEMPERATURE_UUID ->
    dirname (fst o) = p -> fst o ∈ K.

Definition quiet_call (K : list string) (p : string) (c : ShockCall) : Prop :=
  match c with
  | SInterfaceAdded path obj_dict => quiet_object K p (path, obj_dict)
  | SScan (Some objs) => Forall (quiet_object K p) objs
  | _ => True
  end.

(** The thermometer of [discovery] after its handshake. *)
Definition resolved : World Shock.DeviceProxy :=
  snd (Shock.services_resolved_callback no_failure "/d1" (Some true) (discovered 9)).

(** The battery service of the thermometer. *)
Definition battery_service : string * Interfaces :=
  ("/d1/service0010"%string,
   {[Shock.GATT_SERVICE_IFACE :=
       <["Device"%string := "/d1"%string]>
         {["UUID"%string := "0000180f-0000-1000-8000-00805f9b34fb"%string]}]}).

(** The same objects announced once more, the battery service with
    them, and [ServicesResolved]. *)
Definition rediscovery : list ((BusCall -> bool) * ShockCall) :=
  map (fun o => (no_failure, SInterfaceAdded (fst o) (snd o)))
      (discovery ++ [battery_service])
  ++ [(no_failure, SServicesResolved "/d1" (Some true))].

(** ** shock.py from its start-up state *)

(** The bus calls on a characteristic. *)
Definition characteristic_call (c : BusCall) : bool :=
  match c with
  | StartNotify _ | StopNotify _ | WriteValue _ _ | ReadValue _ => true
  | _ => false
  end.

(** shock.py between two calls while no device proxy has lasted: no
    device is in [inkbirds], nothing was discovered, the allocator, the
    register and the log file are as at start-up (at time [t0]), and no
    call went to a characteristic. *)
Record unaware (t0 : float) (w : World Shock.DeviceProxy) : Prop := mk_unaware {
  unaware_inkbirds : inkbirds w = ∅;
  unaware_temperatures : temperatures w = ∅;
  unaware_commands : commands w = ∅;
  unaware_batteries : batteries w = ∅;
  unaware_bind : bind w = ∅;
  unaware_services : gatt_services w = [];
  unaware_alloc : alloc w = alloc_init;
  unaware_reg : reg w = register_init t0;
  unaware_fout : fout w = [];
  unaware_bus : Forall (fun c => characteristic_call c = false) (bus_log w)
}.

(** * Properties *)

(** ** Lists and dicts *)

Lemma py_index_lt {A} (l : list A) k i :
  py_index l k = Some i -> (i < length l)%nat.
Proof.
  unfold py_index. intros H.
  destruct ((0 <=? k) && (k <? Z.of_nat (length l))) eqn:E1.
  - apply andb_true_iff in E1 as [? ?]. inversion H; subst. lia.
  - destruct ((- Z.of_nat (length l) <=? k) && (k <? 0)) eqn:E2; [|discriminate].
    apply andb_true_iff in E2 as [? ?]. inversion H; subst. lia.
Qed.

Lemma py_index_length {A B} (l : list A) (l' : list B) k :
  length l' = length l -> py_index l' k = py_index l k.
Proof. unfold py_index. intros ->. reflexivity. Qed.

Lemma getitem_inv {A} (l : list A) k x :
  getitem l k = Some x -> exists i, py_index l k = Some i /\ l !! i = Some x.
Proof.
  unfold getitem. destruct (py_index l k) as [i|]; [|discriminate].
  intros H. exists i. split; [reflexivity | exact H].
Qed.

Lemma setitem_getitem {A} (l : list A) k x a :
  getitem l k = Some x ->
  exists l', setitem l k a = Some l' /\ getitem l' k = Some a
             /\ length l' = length l.
Proof.
  intros H. apply getitem_inv in H as (i & Hi & Hx).
  exists (<[i := a]> l). unfold setitem, getitem.
  rewrite (py_index_length l (<[i := a]> l)) by apply length_insert.
  rewrite Hi. repeat split.
  - apply list_lookup_insert_eq. eapply py_index_lt; eauto.
  - apply length_insert.
Qed.

Lemma read_ok {A} (arr : Register -> list A) c r x :
  getitem (arr r) c = Some x -> read arr c r = (inr x, r).
Proof. unfold read. intros ->. reflexivity. Qed.

(** ** Decoder *)

Lemma low_byte_apart hi lo :
  0 <= lo < 256 -> Z.land (Z.shiftl hi 8) lo = 0.
Proof.
  intros Hlo. apply Z.bits_inj'. intros n Hn.
  rewrite Z.land_spec, Z.bits_0.
  destruct (Z.lt_ge_cases n 8) as [Hlt | Hge].
  - rewrite Z.shiftl_spec_low by lia. reflexivity.
  - destruct (Z.eq_dec lo 0) as [-> | Hnz].
    + rewrite Z.bits_0. apply andb_false_r.
    + rewrite (Z.bits_above_log2 lo n); [apply andb_false_r | lia |].
      assert (Z.log2 lo < 8) by (apply Z.log2_lt_pow2; lia). lia.
Qed.

Lemma shifted_lor_add hi lo :
  0 <= lo < 256 -> Z.lor (Z.shiftl hi 8) lo = Z.shiftl hi 8 + lo.
Proof.
  intros Hlo. pose proof (low_byte_apart hi lo Hlo) as Hland.
  rewrite <- (Z.lxor_lor _ _ Hland). symmetry. apply Z.add_nocarry_lxor, Hland.
Qed.

Lemma temperature_celsius lo hi :
  is_byte lo -> temperature lo hi = celsius_of_bytes lo hi.
Proof.
  intros Hlo. unfold temperature, celsius_of_bytes.
  rewrite shifted_lor_add by exact Hlo. reflexivity.
Qed.

(** C3: on a payload of bytes with at least the four value pairs, the
    decoder yields four values, the [i]-th being
    [((((hi XOR 0x80) << 8) | lo) - 0x8000 - 320) / 18] for
    [lo = data[2i]], [hi = data[2i+1]]; and the bytes [3C 81] decode to
    [(-32452 - 320)/18], which is -1820.67 to two decimals. *)
Theorem decoder_formula (S : Type) (s : S) (data : list Z) :
  Forall is_byte data -> (8 <= length data)%nat ->
  exists vec,
    t4vec data s = (inr vec, s) /\ length vec = 4%nat /\
    (forall (i : nat) lo hi, (i < 4)%nat ->
       data !! (2 * i)%nat = Some lo -> data !! (2 * i + 1)%nat = Some hi ->
       vec !! i = Some (celsius_of_bytes lo hi)) /\
    temperature 0x3C 0x81 = truediv (-32452 - 320) 18 /\
    ((-1820.671875 <? temperature 0x3C 0x81)%float
     && (temperature 0x3C 0x81 <? -1820.666015625)%float) = true.
Proof.
  intros Hb Hlen.
  do 8 (destruct data as [|? data]; [simpl in Hlen; lia|]).
  repeat match goal with
         | H : Forall _ (_ :: _) |- _ => apply Forall_cons in H as [? H]
         end.
  eexists. split; [reflexivity|]. split; [reflexivity|].
  split; [|split; reflexivity].
  intros i lo hi Hi Hl Hh.
  destruct i as [|[|[|[|i]]]]; try lia;
    simpl in Hl, Hh; inversion Hl; inversion Hh; subst;
    simpl; f_equal; apply temperature_celsius; assumption.
Qed.

Lemma decoder_formula_witness :
  exists vec,
    t4vec [0x3C; 0x81; 0x5A; 0x81; 0x78; 0x81; 0x96; 0x81; 0xFE; 0x7F; 0xFE; 0x7F] tt
      = (inr vec, tt)
    /\ vec !! 0%nat = Some (celsius_of_bytes 0x3C 0x81).
Proof.
  destruct (decoder_formula unit tt
              [0x3C; 0x81; 0x5A; 0x81; 0x78; 0x81; 0x96; 0x81; 0xFE; 0x7F; 0xFE; 0x7F])
    as (vec & Hrun & _ & Hvec & _).
  - repeat constructor; unfold is_byte; lia.
  - simpl; lia.
  - exists vec. split; [exact Hrun|].
    apply (Hvec 0%nat); [lia | reflexivity | reflexivity].
Defined.

Lemma short_slice_not_trailer (data : list Z) :
  (length data < 12)%nat -> slice data 8 12 ≠ TRAILER.
Proof.
  intros Hlen Heq. apply (f_equal length) in Heq.
  unfold slice, TRAILER in Heq. rewrite length_take, length_drop in Heq.
  cbn [length] in Heq. lia.
Qed.

(** C8: a payload shorter than 12 bytes, or whose bytes 8..11 are not
    [FE 7F FE 7F], is dropped by [update_temperatures] in both files: the
    call returns normally and every global, the register arrays and
    [stamp] among them, is as before. *)
Theorem bad_packet_dropped (path : string) (data : list Z)
    (ws : World Shock.DeviceProxy) (wd : World Deadlock.InkbirdDevice) :
  (length data < 12)%nat \/ slice data 8 12 ≠ TRAILER ->
  Shock.update_temperatures path data ws = (inr tt, ws) /\
  Deadlock.update_temperatures path data wd = (inr tt, wd).
Proof.
  intros H.
  assert (Hne : slice data 8 12 ≠ TRAILER).
  { destruct H as [H | H]; [apply short_slice_not_trailer, H | exact H]. }
  unfold Shock.update_temperatures, Deadlock.update_temperatures.
  rewrite (bool_decide_eq_true_2 _ Hne), orb_true_r. split; reflexivity.
Qed.

Lemma bad_packet_dropped_witness :
  let data := [0x3C; 0x81; 0x5A; 0x81; 0x78; 0x81; 0x96; 0x81; 0; 0; 0; 0] in
  Shock.update_temperatures "/d1" data (world_init 0%float)
    = (inr tt, world_init 0%float) /\
  Deadlock.update_temperatures "/d1" data (world_init 0%float)
    = (inr tt, world_init 0%float).
Proof.
  apply bad_packet_dropped. right. intros Heq. discriminate Heq.
Defined.

(** ** Insertion-ordered dicts *)

Lemma dict_get_None (k : key) (d : list (key * Z)) :
  dict_get k d = None <-> k ∉ d.*1.
Proof.
  induction d as [|[k' v] d IH]; simpl.
  - split; [intros _; apply not_elem_of_nil | reflexivity].
  - destruct (decide (k = k')) as [-> | Hne].
    + split; [discriminate | intros H; exfalso; apply H; left].
    + rewrite IH. rewrite not_elem_of_cons. tauto.
Qed.

Lemma dict_get_elem (k : key) (v : Z) (d : list (key * Z)) :
  dict_get k d = Some v -> (k, v) ∈ d.
Proof.
  induction d as [|[k' v'] d IH]; simpl; [discriminate|].
  destruct (decide (k = k')) as [-> | Hne].
  - intros [= ->]. left.
  - intros H. right. apply IH, H.
Qed.

Lemma elem_dict_get (k : key) (v : Z) (d : list (key * Z)) :
  NoDup d.*1 -> (k, v) ∈ d -> dict_get k d = Some v.
Proof.
  induction d as [|[k' v'] d IH]; simpl; intros Hnd Hin.
  - apply elem_of_nil in Hin as [].
  - apply NoDup_cons in Hnd as [Hk' Hnd].
    apply elem_of_cons in Hin as [[= -> ->] | Hin].
    + rewrite decide_True by reflexivity. reflexivity.
    + destruct (decide (k = k')) as [-> | Hne]; [|apply IH; assumption].
      exfalso. apply Hk'. apply list_elem_of_fmap. exists (k', v). split; [reflexivity | exact Hin].
Qed.

Lemma dict_set_fresh (k : key) (v : Z) (d : list (key * Z)) :
  dict_get k d = None -> dict_set k v d = d ++ [(k, v)].
Proof.
  induction d as [|[k' v'] d IH]; simpl; [reflexivity|].
  destruct (decide (k = k')); [discriminate|].
  intros H. rewrite IH by exact H. reflexivity.
Qed.

Lemma dict_del_perm (k : key) (v : Z) (d : list (key * Z)) :
  dict_get k d = Some v -> d ≡ₚ (k, v) :: dict_del k d.
Proof.
  induction d as [|[k' v'] d IH]; simpl; [discriminate|].
  destruct (decide (k = k')) as [-> | Hne].
  - intros [= ->]. reflexivity.
  - intros H. rewrite (IH H) at 1. apply perm_swap.
Qed.

Lemma dict_del_absent (k : key) (d : list (key * Z)) :
  dict_get k d = None -> dict_del k d = d.
Proof.
  induction d as [|[k' v'] d IH]; simpl; [reflexivity|].
  destruct (decide (k = k')); [discriminate|].
  intros H. rewrite IH by exact H. reflexivity.
Qed.

Lemma dict_del_keys (k : key) (d : list (key * Z)) :
  NoDup d.*1 -> NoDup (dict_del k d).*1 /\ dict_get k (dict_del k d) = None.
Proof.
  intros Hnd. destruct (dict_get k d) as [v|] eqn:Hget.
  - pose proof (dict_del_perm k v d Hget) as Hp.
    assert (Hk : d.*1 ≡ₚ k :: (dict_del k d).*1).
    { rewrite Hp at 1. reflexivity. }
    rewrite Hk in Hnd. apply NoDup_cons in Hnd as [Hout Hnd'].
    split; [exact Hnd' | apply dict_get_None, Hout].
  - rewrite dict_del_absent by exact Hget. split; assumption.
Qed.

Lemma dict_del_still_absent (k k' : key) (d : list (key * Z)) :
  dict_get k' d = None -> dict_get k' (dict_del k d) = None.
Proof.
  rewrite !dict_get_None. intros Hout Hin. apply Hout.
  clear Hout. induction d as [|[k0 v0] d IH]; simpl in *; [exact Hin|].
  destruct (decide (k = k0)) as [-> | Hne].
  - right. exact Hin.
  - simpl in Hin. apply elem_of_cons in Hin as [-> | Hin]; [left | right; apply IH, Hin].
Qed.

(** ** The scan for the smallest free offset *)

Lemma scan_spec (l : list (key * Z)) (acc : option key * Z) :
  (fold_left scan_step l acc = acc /\ forall kv, kv ∈ l -> snd acc <= snd kv) \/
  (exists k v, fold_left scan_step l acc = (Some k, v) /\ (k, v) ∈ l /\
               v < snd acc /\ forall kv, kv ∈ l -> v <= snd kv).
Proof.
  revert acc. induction l as [|[k v] l IH]; intros acc; simpl.
  - left. split; [reflexivity|]. intros kv H. apply elem_of_nil in H as [].
  - change (scan_step acc (k, v))
      with (if v <? snd acc then (Some k, v) else acc).
    destruct (Z.ltb_spec v (snd acc)) as [Hlt | Hge].
    + right. destruct (IH (Some k, v)) as [[Heq Hmin] | (k' & v' & Heq & Hin & Hlt' & Hmin)].
      * exists k, v. simpl in Hmin. repeat split; [exact Heq | left | exact Hlt |].
        intros kv Hkv. apply elem_of_cons in Hkv as [-> | Hkv]; [simpl; lia | apply Hmin, Hkv].
      * exists k', v'. simpl in Hlt'. repeat split; [exact Heq | right; exact Hin | lia |].
        intros kv Hkv. apply elem_of_cons in Hkv as [-> | Hkv]; [simpl; lia | apply Hmin, Hkv].
    + destruct (IH acc) as [[Heq Hmin] | (k' & v' & Heq & Hin & Hlt' & Hmin)].
      * left. split; [exact Heq|].
        intros kv Hkv. apply elem_of_cons in Hkv as [-> | Hkv]; [simpl; lia | apply Hmin, Hkv].
      * right. exists k', v'. repeat split; [exact Heq | right; exact Hin | exact Hlt' |].
        intros kv Hkv. apply elem_of_cons in Hkv as [-> | Hkv]; [simpl; lia | apply Hmin, Hkv].
Qed.

(** With a free offset below the sentinel to be had, [choose] returns an
    entry of [free]; when [obj_path] has no entry of its own, it is one
    that carries the least offset. *)
Lemma choose_spec (obj_path : string) (free : list (key * Z)) :
  NoDup free.*1 -> free ≠ [] -> (forall kv, kv ∈ free -> snd kv < SENTINEL) ->
  exists k m, choose obj_path free = (Some k, m) /\ dict_get k free = Some m /\
    (dict_get (KPath obj_path) free = None \/ k = KPath obj_path) /\
    (dict_get (KPath obj_path) free = None -> forall kv, kv ∈ free -> m <= snd kv).
Proof.
  intros Hnd Hne Hlow. unfold choose.
  destruct (dict_get (KPath obj_path) free) as [off|] eqn:Hown.
  - exists (KPath obj_path), off. repeat split; [exact Hown | right; reflexivity | discriminate].
  - destruct (scan_spec free (None, SENTINEL)) as [[_ Hmin] | (k & v & Heq & Hin & _ & Hmin)].
    + exfalso. destruct free as [|kv free]; [congruence|].
      specialize (Hmin kv ltac:(left)). specialize (Hlow kv ltac:(left)). simpl in Hmin. lia.
    + exists k, v.
      repeat split; [exact Heq | apply elem_dict_get; assumption | left; reflexivity
                    | intros _; exact Hmin].
Qed.

(** ** Slot allocator *)

Lemma alloc_inv_partition (a : Alloc) : alloc_inv a -> slots_partition a.
Proof.
  intros [Hperm _ _].
  assert (Hnd : NoDup (held a ++ spare a)).
  { rewrite Hperm. apply (bool_decide_unpack _). vm_compute. exact I. }
  repeat split.
  - intros H. rewrite <- Hperm. apply elem_of_app, H.
  - intros H. rewrite <- Hperm in H. apply elem_of_app, H.
  - intros o Ho Hs. apply NoDup_app in Hnd as (_ & Hdisj & _). exact (Hdisj o Ho Hs).
  - apply Permutation_length in Hperm. rewrite length_app in Hperm.
    unfold held in Hperm. rewrite length_fmap, length_map_to_list in Hperm.
    simpl in Hperm. lia.
Qed.

Lemma alloc_inv_init : alloc_inv alloc_init.
Proof.
  split.
  - unfold held, spare. simpl. rewrite map_to_list_empty. reflexivity.
  - apply (bool_decide_unpack _). vm_compute. exact I.
  - intros p [x Hx]. simpl in Hx. rewrite lookup_empty in Hx. discriminate.
Qed.

Lemma alloc_inv_low (a : Alloc) :
  alloc_inv a -> forall kv, kv ∈ free_offsets a -> snd kv < SENTINEL.
Proof.
  intros [Hperm _ _] kv Hin.
  assert (Ho : snd kv ∈ OFFSETS).
  { rewrite <- Hperm. apply elem_of_app. right.
    unfold spare. apply list_elem_of_fmap. exists kv. split; [reflexivity | exact Hin]. }
  unfold OFFSETS, SENTINEL in *.
  repeat (apply elem_of_cons in Ho as [-> | Ho]; [lia|]).
  apply elem_of_nil in Ho as [].
Qed.

(** [deallocate] moves the offset of [p] from the one table to the other. *)
Lemma deallocate_moves (p : string) (off : Z) (a : Alloc) :
  allocated_offsets a !! p = Some off ->
  NoDup (free_offsets a).*1 ->
  (forall q, is_Some (allocated_offsets a !! q) ->
             dict_get (KPath q) (free_offsets a) = None) ->
  let a' := mkAlloc (delete p (allocated_offsets a))
                    (free_offsets a ++ [(KPath p, off)]) in
  deallocate p a = a' /\
  held a' ++ spare a' ≡ₚ held a ++ spare a /\
  NoDup (free_offsets a').*1 /\
  (forall q, is_Some (allocated_offsets a' !! q) ->
             dict_get (KPath q) (free_offsets a') = None).
Proof.
  intros Hp Hkeys Hapart a'.
  assert (Hfresh : dict_get (KPath p) (free_offsets a) = None).
  { apply Hapart. rewrite Hp. eexists; reflexivity. }
  split; [|split; [|split]].
  - unfold deallocate. rewrite Hp. rewrite (dict_set_fresh _ _ _ Hfresh). reflexivity.
  - unfold held, spare, a'. simpl.
    rewrite fmap_app. simpl.
    rewrite <- (map_to_list_delete _ _ _ Hp). simpl.
    rewrite app_assoc. rewrite <- Permutation_cons_append. reflexivity.
  - unfold a'. simpl. rewrite fmap_app. simpl. apply NoDup_app. repeat split.
    + exact Hkeys.
    + intros k Hk Hk'. apply list_elem_of_singleton in Hk' as ->.
      apply dict_get_None in Hfresh. exact (Hfresh Hk).
    + apply NoDup_singleton.
  - unfold a'. simpl. intros q [x Hq].
    destruct (decide (q = p)) as [-> | Hne].
    { rewrite lookup_delete_eq in Hq. discriminate. }
    rewrite lookup_delete_ne in Hq by congruence.
    apply dict_get_None. rewrite fmap_app. simpl.
    intros Hin. apply elem_of_app in Hin as [Hin | Hin].
    + assert (Hnone : dict_get (KPath q) (free_offsets a) = None).
      { apply Hapart. rewrite Hq. eexists; reflexivity. }
      apply dict_get_None in Hnone. exact (Hnone Hin).
    + apply list_elem_of_singleton in Hin. congruence.
Qed.

Lemma deallocate_inv (p : string) (a : Alloc) :
  alloc_inv a -> alloc_inv (deallocate p a).
Proof.
  intros Hinv.
  destruct (allocated_offsets a !! p) as [off|] eqn:Hp;
    [|unfold deallocate; rewrite Hp; exact Hinv].
  destruct Hinv as [Hperm Hkeys Hapart].
  destruct (deallocate_moves p off a Hp Hkeys Hapart) as (-> & Hmove & Hk & Ha).
  split; [rewrite Hmove; exact Hperm | exact Hk | exact Ha].
Qed.

(** On a well-formed free dict with an offset to give, both variants of
    [allocate] return normally with the same state. *)
Lemma allocate_ok (p : string) (a : Alloc) :
  NoDup (free_offsets a).*1 -> free_offsets a ≠ [] ->
  (forall kv, kv ∈ free_offsets a -> snd kv < SENTINEL) ->
  exists k m,
    dict_get k (free_offsets a) = Some m /\
    (dict_get (KPath p) (free_offsets a) = None \/ k = KPath p) /\
    (dict_get (KPath p) (free_offsets a) = None ->
     forall kv, kv ∈ free_offsets a -> m <= snd kv) /\
    Shock.allocate p a
      = (inr tt, mkAlloc (<[p := m]> (allocated_offsets a)) (dict_del k (free_offsets a))) /\
    Deadlock.allocate p a
      = (inr tt, mkAlloc (<[p := m]> (allocated_offsets a)) (dict_del k (free_offsets a))).
Proof.
  intros Hnd Hne Hlow.
  destruct (choose_spec p (free_offsets a) Hnd Hne Hlow) as (k & m & Hch & Hget & Hown & Hmin).
  exists k, m. repeat split; try assumption.
  - unfold Shock.allocate. rewrite Hch. simpl.
    rewrite Hget. rewrite bool_decide_eq_true_2 by (eexists; reflexivity). reflexivity.
  - unfold Deadlock.allocate. rewrite Hch. simpl.
    rewrite Hget. rewrite bool_decide_eq_true_2 by (eexists; reflexivity). reflexivity.
Qed.

(** Taking the entry [k] out of [free_offsets] for [p] moves its offset
    from the one table to the other. *)
Lemma allocate_moves (p : string) (k : key) (m : Z) (a : Alloc) :
  allocated_offsets a !! p = None ->
  dict_get k (free_offsets a) = Some m ->
  (dict_get (KPath p) (free_offsets a) = None \/ k = KPath p) ->
  NoDup (free_offsets a).*1 ->
  (forall q, is_Some (allocated_offsets a !! q) ->
             dict_get (KPath q) (free_offsets a) = None) ->
  let a' := mkAlloc (<[p := m]> (allocated_offsets a)) (dict_del k (free_offsets a)) in
  held a' ++ spare a' ≡ₚ held a ++ spare a /\
  NoDup (free_offsets a').*1 /\
  (forall q, is_Some (allocated_offsets a' !! q) ->
             dict_get (KPath q) (free_offsets a') = None).
Proof.
  intros Hp Hget Hown Hkeys Hapart a'. split; [|split]; unfold a'; simpl.
  - unfold held, spare. simpl.
    rewrite (map_to_list_insert _ _ _ Hp). simpl.
    rewrite (fmap_Permutation snd _ _ (dict_del_perm k m _ Hget)). simpl.
    rewrite <- Permutation_middle. reflexivity.
  - apply dict_del_keys, Hkeys.
  - intros q [x Hq].
    destruct (decide (q = p)) as [-> | Hqp].
    + destruct Hown as [Hnone | ->].
      * apply dict_del_still_absent, Hnone.
      * apply dict_del_keys, Hkeys.
    + rewrite lookup_insert_ne in Hq by congruence.
      apply dict_del_still_absent, Hapart. rewrite Hq. eexists; reflexivity.
Qed.

Lemma allocate_inv (p : string) (a : Alloc) :
  alloc_inv a -> allocated_offsets a !! p = None -> free_offsets a ≠ [] ->
  alloc_inv (snd (Shock.allocate p a)) /\ alloc_inv (snd (Deadlock.allocate p a)).
Proof.
  intros Hinv Hp Hne.
  destruct (allocate_ok p a (inv_keys a Hinv) Hne (alloc_inv_low a Hinv))
    as (k & m & Hget & Hown & _ & -> & ->).
  simpl. destruct Hinv as [Hperm Hkeys Hapart].
  destruct (allocate_moves p k m a Hp Hget Hown Hkeys Hapart) as (Hmove & Hk & Ha).
  assert (Hnew : alloc_inv (mkAlloc (<[p := m]> (allocated_offsets a))
                                    (dict_del k (free_offsets a)))).
  { split; [rewrite Hmove; exact Hperm | exact Hk | exact Ha]. }
  split; exact Hnew.
Qed.

(** Whatever [free_offsets] holds, [allocate] either takes an entry out
    of it, and then both files do the same, or finds none to take: then
    the scan's start value is recorded as the offset, and shock.py raises
    at its [del] where deadlock.py returns. *)
Lemma allocate_cases (p : string) (a : Alloc) :
  NoDup (free_offsets a).*1 ->
  (exists k m,
     dict_get k (free_offsets a) = Some m /\
     (dict_get (KPath p) (free_offsets a) = None \/ k = KPath p) /\
     Shock.allocate p a
       = (inr tt, mkAlloc (<[p := m]> (allocated_offsets a)) (dict_del k (free_offsets a))) /\
     Deadlock.allocate p a
       = (inr tt, mkAlloc (<[p := m]> (allocated_offsets a)) (dict_del k (free_offsets a)))) \/
  (dict_get (KPath p) (free_offsets a) = None /\
   (forall kv, kv ∈ free_offsets a -> SENTINEL <= snd kv) /\
   Shock.allocate p a
     = (inl KeyError, mkAlloc (<[p := SENTINEL]> (allocated_offsets a)) (free_offsets a)) /\
   Deadlock.allocate p a
     = (inr tt, mkAlloc (<[p := SENTINEL]> (allocated_offsets a)) (free_offsets a))).
Proof.
  intros Hnd. unfold Shock.allocate, Deadlock.allocate, choose.
  destruct (dict_get (KPath p) (free_offsets a)) as [off|] eqn:Hown.
  - left. exists (KPath p), off. simpl. rewrite Hown.
    rewrite bool_decide_eq_true_2 by (eexists; reflexivity).
    repeat split; [right; reflexivity].
  - destruct (scan_spec (free_offsets a) (None, SENTINEL))
      as [[Heq Hmin] | (k & v & Heq & Hin & _ & _)].
    + right. rewrite Heq. simpl. repeat split. exact Hmin.
    + left. exists k, v. rewrite Heq. simpl.
      rewrite (elem_dict_get k v _ Hnd Hin).
      rewrite bool_decide_eq_true_2 by (eexists; reflexivity).
      repeat split; [left; reflexivity].
Qed.

(** The allocator of the two files keeps the six offsets. *)
Lemma slots_kept_init : slots_kept alloc_init.
Proof.
  split.
  - unfold held, spare. simpl. rewrite map_to_list_empty. vm_compute. reflexivity.
  - apply (bool_decide_unpack _). vm_compute. exact I.
  - intros p [x Hx]. simpl in Hx. rewrite lookup_empty in Hx. discriminate.
Qed.

Lemma deallocate_kept (p : string) (a : Alloc) :
  slots_kept a -> slots_kept (deallocate p a).
Proof.
  intros Hk.
  destruct (allocated_offsets a !! p) as [off|] eqn:Hp;
    [|unfold deallocate; rewrite Hp; exact Hk].
  destruct Hk as [Hperm Hkeys Hapart].
  destruct (deallocate_moves p off a Hp Hkeys Hapart) as (-> & Hmove & Hk & Ha).
  split; [rewrite Hmove; exact Hperm | exact Hk | exact Ha].
Qed.

Lemma allocate_kept (p : string) (a : Alloc) :
  slots_kept a -> allocated_offsets a !! p = None ->
  slots_kept (snd (Shock.allocate p a)) /\ slots_kept (snd (Deadlock.allocate p a)).
Proof.
  intros [Hperm Hkeys Hapart] Hp.
  destruct (allocate_cases p a Hkeys)
    as [(k & m & Hget & Hown & -> & ->) | (Hown & _ & -> & ->)]; simpl.
  - destruct (allocate_moves p k m a Hp Hget Hown Hkeys Hapart) as (Hmove & Hk & Ha).
    assert (Hnew : slots_kept (mkAlloc (<[p := m]> (allocated_offsets a))
                                       (dict_del k (free_offsets a)))).
    { split; [rewrite Hmove; exact Hperm | exact Hk | exact Ha]. }
    split; exact Hnew.
  - assert (Hnew : slots_kept (mkAlloc (<[p := SENTINEL]> (allocated_offsets a))
                                       (free_offsets a))).
    { split; simpl.
      - unfold held, spare in *. simpl.
        rewrite (map_to_list_insert _ _ _ Hp). simpl.
        rewrite filter_cons_False by (intros H; apply H; reflexivity).
        exact Hperm.
      - exact Hkeys.
      - intros q [x Hq].
        destruct (decide (q = p)) as [-> | Hqp]; [exact Hown|].
        rewrite lookup_insert_ne in Hq by congruence.
        apply Hapart. rewrite Hq. eexists; reflexivity. }
    split; exact Hnew.
Qed.

Lemma caller_reach_kept (a : Alloc) :
  caller_reach Shock.allocate a \/ caller_reach Deadlock.allocate a -> slots_kept a.
Proof.
  intros [H | H]; induction H as [| a p _ IH | a p _ IH Hp].
  - apply slots_kept_init.
  - apply deallocate_kept, IH.
  - apply allocate_kept; assumption.
  - apply slots_kept_init.
  - apply deallocate_kept, IH.
  - apply allocate_kept; assumption.
Qed.

(** The six devices of [six_paths] take their slots one after the other,
    in shock.py as in deadlock.py. *)
Lemma alloc_full_reached :
  caller_reach Shock.allocate alloc_full /\ caller_reach Deadlock.allocate alloc_full.
Proof.
  split.
  - change alloc_full with
      (snd (Shock.allocate "/d6" (snd (Shock.allocate "/d5" (snd (Shock.allocate "/d4"
        (snd (Shock.allocate "/d3" (snd (Shock.allocate "/d2"
          (snd (Shock.allocate "/d1" alloc_init)))))))))))).
    repeat (apply reach_allocate; [|reflexivity]). apply reach_init.
  - change alloc_full with
      (snd (Deadlock.allocate "/d6" (snd (Deadlock.allocate "/d5" (snd (Deadlock.allocate "/d4"
        (snd (Deadlock.allocate "/d3" (snd (Deadlock.allocate "/d2"
          (snd (Deadlock.allocate "/d1" alloc_init)))))))))))).
    repeat (apply reach_allocate; [|reflexivity]). apply reach_init.
Qed.

(** C4: six devices take the six slots and the invariant holds; the first
    notification of a seventh device then has [temperature_callback] call
    [allocate] for ["/d7"], which holds no slot.  [free_offsets] is empty,
    the scan chooses no entry, and its start value [1e9] is recorded as the
    offset of ["/d7"]: seven paths hold an offset, one of them an offset
    that is not among the six, and the invariant is broken.  shock.py
    raises [KeyError] after the write, deadlock.py returns. *)
Theorem seventh_device_breaks_partition :
  (caller_reach Shock.allocate alloc_full /\ caller_reach Deadlock.allocate alloc_full) /\
  slots_partition alloc_full /\
  allocated_offsets alloc_full !! "/d7" = None /\
  free_offsets alloc_full = [] /\
  (fst (Shock.allocate "/d7" alloc_full) = inl KeyError /\
   allocated_offsets (snd (Shock.allocate "/d7" alloc_full)) !! "/d7" = Some SENTINEL /\
   size (allocated_offsets (snd (Shock.allocate "/d7" alloc_full))) = 7%nat /\
   ~ slots_partition (snd (Shock.allocate "/d7" alloc_full))) /\
  (fst (Deadlock.allocate "/d7" alloc_full) = inr tt /\
   allocated_offsets (snd (Deadlock.allocate "/d7" alloc_full)) !! "/d7" = Some SENTINEL /\
   size (allocated_offsets (snd (Deadlock.allocate "/d7" alloc_full))) = 7%nat /\
   ~ slots_partition (snd (Deadlock.allocate "/d7" alloc_full))).
Proof.
  assert (H7 : forall a, size (allocated_offsets a) = 7%nat -> ~ slots_partition a).
  { intros a Hsz (_ & _ & Hle). lia. }
  split; [exact alloc_full_reached|].
  split.
  { apply alloc_inv_partition. split.
    - vm_compute. apply NoDup_Permutation.
      + apply (bool_decide_unpack _). vm_compute. exact I.
      + apply (bool_decide_unpack _). vm_compute. exact I.
      + intros x. rewrite !elem_of_cons, !elem_of_nil. tauto.
    - apply (bool_decide_unpack _). vm_compute. exact I.
    - intros p _. reflexivity. }
  split; [reflexivity|]. split; [reflexivity|].
  split.
  - split; [reflexivity|]. split; [reflexivity|].
    split; [vm_compute; reflexivity | apply H7; vm_compute; reflexivity].
  - split; [reflexivity|]. split; [reflexivity|].
    split; [vm_compute; reflexivity | apply H7; vm_compute; reflexivity].
Qed.

(** C5: with [free_offsets] empty, as it is once six devices hold their
    slots, [allocate("/d7")] has no "no capacity" result and does not
    leave the allocator alone: shock.py raises [KeyError] at
    [del free_offsets[best]] only after it has recorded [1e9] as the
    offset of the path, and deadlock.py returns normally having done the
    same. *)
Theorem allocate_without_capacity :
  free_offsets alloc_full = [] /\
  allocated_offsets alloc_full !! "/d7" = None /\
  (exists a', Shock.allocate "/d7" alloc_full = (inl KeyError, a') /\
              allocated_offsets a' !! "/d7" = Some SENTINEL) /\
  (exists a', Deadlock.allocate "/d7" alloc_full = (inr tt, a') /\
              allocated_offsets a' !! "/d7" = Some SENTINEL) /\
  ~ (exists e, Shock.allocate "/d7" alloc_full = (inl e, alloc_full)) /\
  ~ (exists e, Deadlock.allocate "/d7" alloc_full = (inl e, alloc_full)).
Proof.
  split; [reflexivity|]. split; [reflexivity|].
  split; [eexists; split; reflexivity|].
  split; [eexists; split; reflexivity|].
  split.
  - intros [e He]. apply (f_equal (fun r => allocated_offsets (snd r) !! "/d7")) in He.
    vm_compute in He. discriminate He.
  - intros [e He]. apply (f_equal fst) in He. vm_compute in He. discriminate He.
Qed.

(** ** Float comparisons *)

Lemma SFcompare_antisym (a b : spec_float) :
  SFcompare b a = option_map CompOpp (SFcompare a b).
Proof.
  destruct a as [[]|[]| |[] m1 e1], b as [[]|[]| |[] m2 e2]; simpl; try reflexivity;
    rewrite (Z.compare_antisym e1 e2); destruct (e1 ?= e2); simpl; try reflexivity;
    change (Pos.compare_cont Eq m2 m1) with (Pos.compare m2 m1);
    change (Pos.compare_cont Eq m1 m2) with (Pos.compare m1 m2);
    rewrite (Pos.compare_antisym m1 m2); destruct (Pos.compare m1 m2); reflexivity.
Qed.

(** [x < y] excludes [y < x]. *)
Lemma ltb_asym (x y : float) : (x <? y)%float = true -> (y <? x)%float = false.
Proof.
  rewrite !FloatAxioms.ltb_spec. unfold SFltb. rewrite (SFcompare_antisym (Prim2SF x) (Prim2SF y)).
  destruct (SFcompare (Prim2SF x) (Prim2SF y)) as [[]|]; simpl; congruence.
Qed.

(** ** Sample register: one channel *)

Lemma is_redundant_eval (c n : Z) (v vlast vfilt : float) (r : Register) :
  getitem (thermofilter r) c = Some vfilt ->
  is_redundant c v vlast n r = (inr (suppressed n v vlast vfilt), r).
Proof.
  intros Hf. unfold is_redundant, suppressed.
  destruct (negb (n =? 0) && (n <? MAXWAIT)); [|reflexivity].
  destruct (v =? vlast)%float; [reflexivity|].
  unfold and_then. rewrite (read_ok _ _ _ _ Hf). reflexivity.
Qed.

Lemma write_ok {A} (arr : Register -> list A) set c (x a : A) (r : Register) :
  getitem (arr r) c = Some x ->
  exists l, write arr set c a r = (inr tt, set l r) /\ getitem l c = Some a
            /\ length l = length (arr r).
Proof.
  intros H. destruct (setitem_getitem _ _ _ a H) as (l & Hset & Hget & Hlen).
  exists l. unfold write. rewrite Hset. auto.
Qed.

Lemma jump_deadlock (c n : Z) (v vlast vfilt : float) (r : Register) :
  getitem (thermostamp r) c = Some vlast ->
  getitem (thermofilter r) c = Some vfilt ->
  getitem (thermocount r) c = Some n ->
  suppressed n v vlast vfilt = false ->
  (1.5 <? abs (v - vlast))%float = true ->
  stamp r = false ->
  exists r', Deadlock.update_channel c v r = (inr tt, r') /\
    getitem (thermostamp r') c = Some ((v + vlast) / 2)%float /\
    getitem (thermofilter r') c = Some ((v + vlast) / 2)%float /\
    getitem (thermocount r') c = Some 0 /\
    stamp r' = true.
Proof.
  intros Hs Hf Hc Hred Hjump Hst.
  unfold Deadlock.update_channel, and_then.
  rewrite (read_ok _ _ _ _ Hs), (read_ok _ _ _ _ Hc), (is_redundant_eval _ _ _ _ _ _ Hf).
  rewrite Hred, Hjump. rewrite (read_ok _ _ _ _ Hs).
  destruct (write_ok thermostamp set_thermostamp c vlast ((v + vlast) / 2)%float r Hs)
    as (l1 & -> & Hl1 & _).
  rewrite (read_ok thermostamp c (set_thermostamp l1 r) _ Hl1).
  destruct (write_ok thermofilter set_thermofilter c vfilt ((v + vlast) / 2)%float
              (set_thermostamp l1 r) Hf) as (l2 & -> & Hl2 & _).
  unfold first_stamp, and_then, gets. simpl. rewrite Hst. simpl.
  destruct (write_ok thermocount set_thermocount c n 0
              (set_thermofilter l2 (set_thermostamp l1 r)) Hc) as (l3 & -> & Hl3 & _).
  eexists. split; [reflexivity|]. simpl. auto.
Qed.

Lemma jump_shock (c n : Z) (v vlast vfilt : float) (r : Register) :
  getitem (thermostamp r) c = Some vlast ->
  getitem (thermofilter r) c = Some vfilt ->
  getitem (thermocount r) c = Some n ->
  suppressed n v vlast vfilt = false ->
  (1.5 <? abs (v - vlast))%float = true ->
  (v <? MAXTEMP)%float = true -> (vlast <? MAXTEMP)%float = true ->
  exists r', Shock.update_channel c v r = (inr tt, r') /\
    getitem (thermostamp r') c = Some ((v + vlast) / 2)%float /\
    getitem (thermofilter r') c = Some ((v + vlast) / 2)%float /\
    thermocount r' = thermocount r /\
    stamp r' = stamp r.
Proof.
  intros Hs Hf Hc Hred Hjump Hv Hvl.
  unfold Shock.update_channel, and_then.
  rewrite (read_ok _ _ _ _ Hs), (read_ok _ _ _ _ Hc), (is_redundant_eval _ _ _ _ _ _ Hf).
  rewrite Hred, Hjump. rewrite (read_ok _ _ _ _ Hs).
  rewrite (ltb_asym _ _ Hv), (ltb_asym _ _ Hvl). simpl.
  destruct (write_ok thermostamp set_thermostamp c vlast ((v + vlast) / 2)%float r Hs)
    as (l1 & -> & Hl1 & _).
  rewrite (read_ok thermostamp c (set_thermostamp l1 r) _ Hl1).
  destruct (write_ok thermofilter set_thermofilter c vfilt ((v + vlast) / 2)%float
              (set_thermostamp l1 r) Hf) as (l2 & -> & Hl2 & _).
  eexists. split; [reflexivity|]. simpl. auto.
Qed.

(** C1, amended: let a channel update be accepted (not suppressed as
    redundant) with [|v - vlast| > 1.5], both below [MAXTEMP], while
    [stamp] is false.  In both files it sets [value[c]] and [filter[c]]
    to [(v + vlast)/2].  deadlock.py then sets [count[c] = 0] and
    [stamp = true]; shock.py's large-jump branch ends the iteration there
    and leaves [count] and [stamp] as they were. *)
Theorem large_jump_update (c n : Z) (v vlast vfilt : float) (r : Register) :
  getitem (thermostamp r) c = Some vlast ->
  getitem (thermofilter r) c = Some vfilt ->
  getitem (thermocount r) c = Some n ->
  suppressed n v vlast vfilt = false ->
  (1.5 <? abs (v - vlast))%float = true ->
  (v <? MAXTEMP)%float = true -> (vlast <? MAXTEMP)%float = true ->
  stamp r = false ->
  (exists r', Deadlock.update_channel c v r = (inr tt, r') /\
     getitem (thermostamp r') c = Some ((v + vlast) / 2)%float /\
     getitem (thermofilter r') c = Some ((v + vlast) / 2)%float /\
     getitem (thermocount r') c = Some 0 /\
     stamp r' = true) /\
  (exists r', Shock.update_channel c v r = (inr tt, r') /\
     getitem (thermostamp r') c = Some ((v + vlast) / 2)%float /\
     getitem (thermofilter r') c = Some ((v + vlast) / 2)%float /\
     thermocount r' = thermocount r /\
     stamp r' = false).
Proof.
  intros Hs Hf Hc Hred Hjump Hv Hvl Hst. split.
  - eapply jump_deadlock; eassumption.
  - destruct (jump_shock c n v vlast vfilt r) as (r' & ? & ? & ? & ? & Hst'); try assumption.
    exists r'. rewrite Hst' , Hst. auto.
Qed.

Lemma large_jump_update_witness :
  (exists r', Deadlock.update_channel 0 30%float register_at_25 = (inr tt, r') /\
     getitem (thermostamp r') 0 = Some ((30 + 25) / 2)%float /\
     getitem (thermofilter r') 0 = Some ((30 + 25) / 2)%float /\
     getitem (thermocount r') 0 = Some 0 /\
     stamp r' = true) /\
  (exists r', Shock.update_channel 0 30%float register_at_25 = (inr tt, r') /\
     getitem (thermostamp r') 0 = Some ((30 + 25) / 2)%float /\
     getitem (thermofilter r') 0 = Some ((30 + 25) / 2)%float /\
     thermocount r' = thermocount register_at_25 /\
     stamp r' = false).
Proof.
  apply (large_jump_update 0 1 30%float 25%float 25%float register_at_25);
    reflexivity.
Defined.

(** C1 as stated fails on shock.py: a device's first reading of 25.0 is
    stamped and logged; the next reading, 30.0, is a large jump, and after
    it channel 0 holds 27.5 while [count] is still 1 and [stamp] is still
    false. *)
Lemma large_jump_update_counterexample :
  let w := run shock_event
             [(no_failure, EvNotify "/d1" packet_25);
              (no_failure, EvNotify "/d1" packet_25);
              (no_failure, EvLogger 1%float)] (shock_known "/d1") in
  let w' := run shock_event [(no_failure, EvNotify "/d1" packet_30)] w in
  getitem (thermostamp (reg w)) 0 = Some 25%float /\
  getitem (thermocount (reg w)) 0 = Some 1 /\
  stamp (reg w) = false /\
  getitem (thermostamp (reg w')) 0 = Some 27.5%float /\
  getitem (thermofilter (reg w')) 0 = Some 27.5%float /\
  getitem (thermocount (reg w')) 0 = Some 1 /\
  stamp (reg w') = false.
Proof. vm_compute. repeat split; reflexivity. Qed.

(** ** A small logic of invariants *)

Section Preserves.
Context {S : Type} (I : S -> Prop).

Lemma preserves_ret {A} (a : A) : preserves I (ret a).
Proof. intros s H. exact H. Qed.

Lemma preserves_raise {A} (e : exn) : preserves I (@raise S A e).
Proof. intros s H. exact H. Qed.

Lemma preserves_gets {A} (f : S -> A) : preserves I (gets f).
Proof. intros s H. exact H. Qed.

Lemma preserves_lookup_or {A} (e : exn) (o : option A) : preserves I (lookup_or e o).
Proof. destruct o; intros s H; exact H. Qed.

Lemma preserves_modify (f : S -> S) :
  (forall s, I s -> I (f s)) -> preserves I (modify f).
Proof. intros Hf s H. apply Hf, H. Qed.

Lemma preserves_bind {A B} (m : M S A) (k : A -> M S B) :
  preserves I m -> (forall a, preserves I (k a)) -> preserves I (and_then m k).
Proof.
  intros Hm Hk s H. unfold and_then. specialize (Hm s H).
  destruct (m s) as [[e | a] s']; simpl in *; [exact Hm | apply Hk, Hm].
Qed.

Lemma preserves_try {A} (m : M S A) (h : exn -> M S A) :
  preserves I m -> (forall e, preserves I (h e)) -> preserves I (try_except m h).
Proof.
  intros Hm Hh s H. unfold try_except. specialize (Hm s H).
  destruct (m s) as [[e | a] s']; simpl in *; [apply Hh, Hm | exact Hm].
Qed.

Lemma preserves_scoped {A} (m : M S A) (release : S -> S) :
  preserves I m -> (forall s, I s -> I (release s)) -> preserves I (scoped m release).
Proof.
  intros Hm Hr s H. unfold scoped. specialize (Hm s H).
  destruct (m s) as [r s']. simpl in *. apply Hr, Hm.
Qed.

Lemma preserves_lose_on_raise {A} (m : M S A) (release : S -> S) :
  preserves I m -> (forall s, I s -> I (release s)) ->
  preserves I (lose_on_raise m release).
Proof.
  intros Hm Hr s H. unfold lose_on_raise. specialize (Hm s H).
  destruct (m s) as [[e | a] s']; simpl in *; [apply Hr, Hm | exact Hm].
Qed.

Lemma preserves_for_each {A} (l : list A) (body : A -> M S unit) :
  (forall a, preserves I (body a)) -> preserves I (for_each l body).
Proof.
  intros Hb. induction l as [|a l IH]; simpl.
  - apply preserves_ret.
  - apply preserves_bind; [apply Hb | intros _; exact IH].
Qed.

Lemma preserves_map_m {A B} (f : A -> M S B) (l : list A) :
  (forall a, preserves I (f a)) -> preserves I (map_m f l).
Proof.
  intros Hf. induction l as [|a l IH]; simpl.
  - apply preserves_ret.
  - apply preserves_bind; [apply Hf | intros b].
    apply preserves_bind; [exact IH | intros bs; apply preserves_ret].
Qed.

Lemma preserves_t4vec (data : list Z) : preserves I (t4vec data).
Proof.
  apply preserves_map_m. intros i. unfold temperature_star.
  destruct (slice data (2 * i) (2 * i + 2)) as [|a [|b [|c l]]];
    (apply preserves_ret || apply preserves_raise).
Qed.
End Preserves.


(** Structural steps; what is left are the primitive operations. *)
Ltac preserves_structure :=
  repeat first
    [ apply preserves_ret | apply preserves_raise | apply preserves_gets
    | apply preserves_lookup_or | apply preserves_t4vec
    | apply preserves_bind; [|intros ?]
    | apply preserves_try; [|intros ?]
    | apply preserves_scoped
    | apply preserves_lose_on_raise
    | apply preserves_for_each; intros ?
    | match goal with
      | |- preserves _ (match ?x with _ => _ end) => destruct x
      end ].

(** *** Register level *)

Lemma preserves_read {A} (J : Register -> Prop) (arr : Register -> list A) c :
  preserves J (read arr c).
Proof. intros r H. unfold read. destruct (getitem (arr r) c); exact H. Qed.

Lemma preserves_write {A} (J : Register -> Prop) (arr : Register -> list A) set c x :
  (forall l r, J r -> setitem (arr r) c x = Some l -> J (set l r)) ->
  preserves J (write arr set c x).
Proof.
  intros Hset r H. unfold write.
  destruct (setitem (arr r) c x) as [l|] eqn:E; simpl; [apply Hset; assumption | exact H].
Qed.

Lemma preserves_is_redundant (J : Register -> Prop) c v vlast n :
  preserves J (is_redundant c v vlast n).
Proof.
  unfold is_redundant.
  destruct (negb (n =? 0) && (n <? MAXWAIT)); [|apply preserves_ret].
  destruct (v =? vlast)%float; [apply preserves_ret|].
  apply preserves_bind; [apply preserves_read | intros ?; apply preserves_ret].
Qed.

Lemma bounded_write_stamp c x : preserves counts_bounded (write thermostamp set_thermostamp c x).
Proof. apply preserves_write. intros l r H _. exact H. Qed.

Lemma bounded_write_filter c x : preserves counts_bounded (write thermofilter set_thermofilter c x).
Proof. apply preserves_write. intros l r H _. exact H. Qed.

Lemma bounded_write_count c :
  preserves counts_bounded (write thermocount set_thermocount c 0).
Proof.
  apply preserves_write. intros l r H Hset. unfold counts_bounded in *. simpl.
  unfold setitem in Hset. destruct (py_index (thermocount r) c) as [i|]; [|discriminate].
  inversion Hset; subst. apply Forall_insert; [exact H | unfold MAXWAIT; lia].
Qed.

Lemma bounded_first_stamp c : preserves counts_bounded (first_stamp c).
Proof.
  unfold first_stamp. preserves_structure.
  - apply bounded_write_count.
  - apply preserves_modify. intros r H. exact H.
Qed.

Lemma bounded_update_channel c v :
  preserves counts_bounded (Shock.update_channel c v) /\
  preserves counts_bounded (Deadlock.update_channel c v).
Proof.
  split.
  - unfold Shock.update_channel.
    preserves_structure;
      first [ apply preserves_read | apply preserves_is_redundant
            | apply bounded_write_stamp | apply bounded_write_filter
            | apply bounded_write_count
            | apply preserves_modify; intros r H; exact H ].
  - unfold Deadlock.update_channel.
    preserves_structure;
      first [ apply preserves_read | apply preserves_is_redundant
            | apply bounded_write_stamp | apply bounded_write_filter
            | apply bounded_write_count
            | apply preserves_modify; intros r H; exact H ].
Qed.

Lemma bounded_tick_counts (f : Z -> Z) :
  (forall n, 0 <= n <= MAXWAIT -> 0 <= f n <= MAXWAIT) ->
  preserves counts_bounded (tick_counts f).
Proof.
  intros Hf. apply preserves_modify. intros r H. unfold counts_bounded in *. simpl.
  apply Forall_fmap. eapply Forall_impl; [exact H | exact Hf].
Qed.

Lemma next_count_bounded n :
  0 <= n <= MAXWAIT ->
  0 <= Shock.next_count n <= MAXWAIT /\ 0 <= Deadlock.next_count n <= MAXWAIT.
Proof.
  unfold Shock.next_count, Deadlock.next_count, MAXWAIT. intros H.
  destruct (Z.ltb_spec n 20), (Z.ltb_spec 20 (n + 1)); lia.
Qed.

(** *** World level *)

Section WorldFrame.
Context {D : Type} (J : Register -> Prop).
Implicit Type w : World D.

Lemma preserves_reg_frame {A} (m : M (World D) A) :
  (forall w, reg (snd (m w)) = reg w) -> preserves (on_register J) m.
Proof. intros Hm w H. unfold on_register in *. rewrite Hm. exact H. Qed.

Lemma preserves_on_reg {A} (m : M Register A) :
  preserves J m -> preserves (on_register (D:=D) J) (on_reg m).
Proof.
  intros Hm w H. unfold on_register, on_reg, zoom in *.
  specialize (Hm (reg w) H). destruct (m (reg w)) as [res t]. exact Hm.
Qed.

Lemma on_alloc_reg {A} (m : M Alloc A) w : reg (snd (on_alloc m w)) = reg w.
Proof. unfold on_alloc, zoom. destruct (m (alloc w)). reflexivity. Qed.

Lemma item_reg {V} (d : World D -> gmap string V) k w : reg (snd (item d k w)) = reg w.
Proof. unfold item. destruct (d w !! k); reflexivity. Qed.

Lemma bus_call_reg fails c w : reg (snd (bus_call fails c w)) = reg w.
Proof. unfold bus_call. destruct (fails c); reflexivity. Qed.

Lemma start_timer_reg t cb w : reg (snd (start_timer t cb w)) = reg w.
Proof. reflexivity. Qed.

Lemma cancel_timer_reg i w : reg (snd (cancel_timer i w)) = reg w.
Proof. reflexivity. Qed.
End WorldFrame.

Ltac bounded_reg :=
  first [ apply bounded_update_channel
        | apply preserves_modify; intros ? ?; assumption
        | apply bounded_tick_counts; intros ? ?; apply next_count_bounded; assumption ].

(** A handler keeps the counters bounded: its steps either leave the
    register alone or are one of the register updates above. *)
Ltac bounded_world :=
  preserves_structure;
  first
    [ apply preserves_reg_frame; intros ?;
      first [ apply on_alloc_reg | apply item_reg | apply bus_call_reg
            | apply start_timer_reg | apply cancel_timer_reg ]
    | apply preserves_modify; intros ? ?; assumption
    | apply preserves_on_reg; bounded_reg ].

Lemma bounded_shock_event fails e :
  preserves (on_register counts_bounded) (shock_event fails e).
Proof.
  destruct e as [path value | now | path]; simpl.
  - unfold Shock.temperature_callback, Shock.update_temperatures, update_all.
    rewrite lookup_singleton_eq.
    bounded_world.
  - unfold Shock.logger, logger_with, unstall. bounded_world.
  - unfold Shock.teardown_device, stop_notifications, bus_call_swallowed,
      drop_characteristics, drop_bind, free_slot.
    bounded_world.
Qed.

Lemma bounded_deadlock_event fails e :
  preserves (on_register counts_bounded) (deadlock_event fails e).
Proof.
  destruct e as [path value | now | path]; simpl.
  - unfold Deadlock.temperature_callback, Deadlock.update_temperatures, update_all.
    rewrite lookup_singleton_eq.
    bounded_world.
  - unfold Deadlock.logger, logger_with, unstall. bounded_world.
  - unfold Deadlock.teardown_device, Deadlock.transition, Deadlock.cancel_retry,
      Deadlock.on_device, stop_notifications, bus_call_swallowed,
      drop_characteristics, drop_bind, free_slot.
    bounded_world.
Qed.

Lemma run_invariant {D} (I : World D -> Prop) handle :
  (forall fails e, preserves I (handle fails e)) ->
  forall trace w, I w -> I (run handle trace w).
Proof.
  intros Hh trace. induction trace as [|[fails e] trace IH]; intros w H; simpl.
  - exact H.
  - apply IH, Hh, H.
Qed.

(** ** Logger *)

Lemma deadlock_next_count_clamped n : Deadlock.next_count n = clamped n.
Proof.
  unfold Deadlock.next_count, clamped.
  destruct (Z.ltb_spec MAXWAIT (n + 1)); lia.
Qed.

(** A run of the logger that finds [stamp] set. *)
Lemma logger_emits {D} fails threshold next now (w : World D) :
  stamp (reg w) = true ->
  exists w', logger_with fails threshold next now w = (inr tt, w') /\
    reg w' = set_thermocount (map next (thermocount (reg w)))
               (set_laststamp now (set_stamp false (reg w))) /\
    alloc w' = alloc w /\
    fout w' = fout w ++ [(now, map rendered (thermostamp (reg w)))].
Proof.
  intros Hst. unfold logger_with, and_then, gets. rewrite Hst. simpl.
  rewrite Hst. simpl. eexists. split; [reflexivity|]. auto.
Qed.

Lemma counts_bounded_init t0 : counts_bounded (register_init t0).
Proof.
  unfold counts_bounded, register_init. cbn [thermocount].
  apply Forall_replicate. unfold MAXWAIT. lia.
Qed.

(** C6, amended: on a logger run that emits a line ([stamp] was true),
    deadlock.py sets every [count[c]] to [min(count[c] + 1, MAXWAIT)],
    while shock.py sets it to [count[c] + 1] below [MAXWAIT] and back to 0
    once it has reached [MAXWAIT]; in both files [0 <= count[c] <= MAXWAIT]
    holds initially and after any sequence of notifications, logger runs
    and teardowns. *)
Theorem logger_counts :
  (forall fails now (w : World Deadlock.InkbirdDevice),
     stamp (reg w) = true ->
     thermocount (reg (snd (Deadlock.logger fails now w)))
       = map clamped (thermocount (reg w))) /\
  (forall fails now (w : World Shock.DeviceProxy),
     stamp (reg w) = true ->
     thermocount (reg (snd (Shock.logger fails now w)))
       = map (fun n => if n <? MAXWAIT then n + 1 else 0) (thermocount (reg w))) /\
  (forall t0, counts_bounded (register_init t0)) /\
  (forall trace (w : World Deadlock.InkbirdDevice),
     counts_bounded (reg w) -> counts_bounded (reg (run deadlock_event trace w))) /\
  (forall trace (w : World Shock.DeviceProxy),
     counts_bounded (reg w) -> counts_bounded (reg (run shock_event trace w))).
Proof.
  repeat split.
  - intros fails now w Hst. unfold Deadlock.logger.
    destruct (logger_emits fails 120%float Deadlock.next_count now w Hst)
      as (w' & -> & Hreg & _).
    simpl. rewrite Hreg. simpl.
    apply map_ext. intros n. apply deadlock_next_count_clamped.
  - intros fails now w Hst. unfold Shock.logger.
    destruct (logger_emits fails 30%float Shock.next_count now w Hst)
      as (w' & -> & Hreg & _).
    simpl. rewrite Hreg. reflexivity.
  - apply counts_bounded_init.
  - intros trace w H.
    apply (run_invariant (on_register counts_bounded) deadlock_event
             bounded_deadlock_event trace w H).
  - intros trace w H.
    apply (run_invariant (on_register counts_bounded) shock_event
             bounded_shock_event trace w H).
Qed.

Lemma logger_counts_witness :
  thermocount (reg (snd (Deadlock.logger no_failure 1%float
                           (set_reg (set_stamp true (register_init 0%float))
                                    (world_init 0%float)))))
    = replicate 24 1 /\
  counts_bounded (reg (run shock_event (rising_trace "/d1" 1 2) (shock_known "/d1"))).
Proof.
  destruct logger_counts as (Hd & _ & Hi & _ & Hs). split.
  - rewrite Hd; reflexivity.
  - apply Hs. apply Hi.
Defined.

(** C6 as stated fails on shock.py: after twenty logged lines the
    counter of an idle channel (here channel 4) stands at [MAXWAIT]; the
    next line sets it to 0, not to [min(20 + 1, MAXWAIT) = 20]. *)
Lemma logger_counts_counterexample :
  let w := run shock_event
             ((no_failure, EvNotify "/d1" packet_25) :: rising_trace "/d1" 1 20
              ++ [(no_failure, EvNotify "/d1" (packet 21 0x03))])
             (shock_known "/d1") in
  stamp (reg w) = true /\
  getitem (thermocount (reg w)) 4 = Some 20 /\
  getitem (thermocount (reg (snd (Shock.logger no_failure 21%float w)))) 4 = Some 0 /\
  clamped 20 = 20.
Proof. vm_compute. repeat split; reflexivity. Qed.

(** ** The first notification of a device *)

Lemma shock_allocate_records (p : string) (a : Alloc) :
  allocated_offsets (snd (Shock.allocate p a)) !! p
    = Some (snd (choose p (free_offsets a))).
Proof.
  unfold Shock.allocate. destruct (choose p (free_offsets a)) as [best offset].
  simpl. destruct (best_in best (free_offsets a)); simpl; apply lookup_insert_eq.
Qed.

(** C10: in shock.py, when a notification with a [Value] arrives for a
    known device that holds no slot and reports [Connected], the handler
    calls [allocate] and does not decode the value: the sample register is
    as before, the path has an entry in [allocated_offsets], and, when the
    allocator has an offset to give and the write of [Trusted] goes
    through, the handler returns [False]. *)
Theorem first_notification_not_decoded (fails : BusCall -> bool) (path : string)
    (obj_dict : gmap string (list Z)) (value : list Z) (dev : Shock.DeviceProxy)
    (w : World Shock.DeviceProxy) :
  obj_dict !! "Value"%string = Some value ->
  inkbirds w !! path = Some dev ->
  allocated_offsets (alloc w) !! path = None ->
  Shock.Connected dev = true ->
  fails (GetProperty path "Connected") = false ->
  let res := Shock.temperature_callback fails path obj_dict w in
  reg (snd res) = reg w /\
  fout (snd res) = fout w /\
  allocated_offsets (alloc (snd res)) !! path
    = Some (snd (choose path (free_offsets (alloc w)))) /\
  (alloc_inv (alloc w) -> free_offsets (alloc w) ≠ [] ->
   fails (SetProperty path "Trusted") = false ->
   fst res = inr false /\
   snd (choose path (free_offsets (alloc w))) ∈ OFFSETS).
Proof.
  intros Hval Hdev Hslot Hconn Hget res. subst res.
  pose proof (shock_allocate_records path (alloc w)) as Hrec.
  unfold Shock.temperature_callback, and_then, gets, item, bus_call, on_alloc,
    zoom, modify, ret.
  rewrite Hval, Hslot, Hdev. simpl. rewrite Hget, Hconn. simpl.
  destruct (Shock.allocate path (alloc w)) as [[e | []] a'] eqn:Ha; simpl in *.
  - split; [reflexivity|]. split; [reflexivity|]. split; [exact Hrec|].
    intros Hinv Hne _. exfalso.
    destruct (allocate_ok path (alloc w) (inv_keys _ Hinv) Hne (alloc_inv_low _ Hinv))
      as (k & m & _ & _ & _ & Hs & _).
    congruence.
  - assert (Hoff : alloc_inv (alloc w) -> free_offsets (alloc w) ≠ [] ->
                   snd (choose path (free_offsets (alloc w))) ∈ OFFSETS).
    { intros Hinv Hne.
      destruct (choose_spec path (free_offsets (alloc w)) (inv_keys _ Hinv) Hne
                  (alloc_inv_low _ Hinv)) as (k & m & -> & Hk & _).
      simpl. rewrite <- (inv_perm _ Hinv). apply elem_of_app. right.
      unfold spare. apply list_elem_of_fmap. exists (k, m).
      split; [reflexivity | apply dict_get_elem, Hk]. }
    destruct (fails (SetProperty path "Trusted")) eqn:Hset; simpl.
    + split; [reflexivity|]. split; [reflexivity|]. split; [exact Hrec|].
      intros _ _ Hok. discriminate Hok.
    + split; [reflexivity|]. split; [reflexivity|]. split; [exact Hrec|].
      intros Hinv Hne _. split; [reflexivity | apply Hoff; assumption].
Qed.

Lemma first_notification_not_decoded_witness :
  let res := Shock.temperature_callback no_failure "/d1"
               {["Value"%string := packet_25]} (shock_known "/d1") in
  reg (snd res) = reg (shock_known "/d1") /\
  fout (snd res) = fout (shock_known "/d1") /\
  allocated_offsets (alloc (snd res)) !! "/d1"
    = Some (snd (choose "/d1" (free_offsets (alloc (shock_known "/d1"))))) /\
  (alloc_inv (alloc (shock_known "/d1")) ->
   free_offsets (alloc (shock_known "/d1")) ≠ [] ->
   no_failure (SetProperty "/d1" "Trusted") = false ->
   fst res = inr false /\
   snd (choose "/d1" (free_offsets (alloc (shock_known "/d1")))) ∈ OFFSETS).
Proof.
  apply (first_notification_not_decoded no_failure "/d1"
           {["Value"%string := packet_25]} packet_25
           (Shock.mkDeviceProxy true false) (shock_known "/d1"));
    reflexivity.
Defined.

(** ** Teardown *)

Lemma deallocate_idemp (p : string) (a : Alloc) :
  deallocate p (deallocate p a) = deallocate p a.
Proof.
  unfold deallocate at 2 3.
  destruct (allocated_offsets a !! p) as [off|] eqn:Hp.
  - unfold deallocate. simpl. rewrite lookup_delete_eq. reflexivity.
  - unfold deallocate. rewrite Hp. reflexivity.
Qed.

Lemma swallowed_spec {D} fails c (w : World D) :
  bus_call_swallowed fails c w = (inr tt, set_bus_log (bus_log w ++ [c]) w).
Proof.
  unfold bus_call_swallowed, try_except, bus_call. destruct (fails c); reflexivity.
Qed.

Lemma stop_notifications_spec {D} fails p (w : World D) :
  exists l, stop_notifications fails p w = (inr tt, set_bus_log l w).
Proof.
  destruct w as [a r ink tmp cmd bat bnd gs ts lg fo].
  unfold stop_notifications. simpl. unfold and_then, gets. simpl.
  destruct (tmp !! p) as [pt|]; [rewrite swallowed_spec|]; simpl;
    (destruct (cmd !! p) as [pc|]; [rewrite swallowed_spec|]; simpl;
     (destruct (bat !! p) as [pb|]; [rewrite swallowed_spec|]; simpl;
      eexists; reflexivity)).
Qed.

Lemma shock_teardown_spec fails p (w : World Shock.DeviceProxy) :
  exists w', Shock.teardown_device fails p w = (inr tt, w') /\
    teardown_view w'
      = (delete p (inkbirds w), delete p (temperatures w), delete p (commands w),
         delete p (batteries w), delete p (bind w), deallocate p (alloc w)).
Proof.
  unfold Shock.teardown_device. unfold and_then at 1.
  destruct (stop_notifications_spec fails p w) as (l & ->).
  unfold and_then, gets. simpl.
  destruct (inkbirds w !! p); [rewrite swallowed_spec|]; simpl;
    rewrite swallowed_spec; eexists; (split; [reflexivity|]); reflexivity.
Qed.

Lemma deadlock_teardown_absent fails p (w : World Deadlock.InkbirdDevice) :
  inkbirds w !! p = None -> Deadlock.teardown_device fails p w = (inr tt, w).
Proof.
  intros H. unfold Deadlock.teardown_device, and_then, gets. rewrite H. reflexivity.
Qed.

Lemma deadlock_teardown_spec fails p (w : World Deadlock.InkbirdDevice) :
  is_Some (inkbirds w !! p) ->
  exists w', Deadlock.teardown_device fails p w = (inr tt, w') /\
    teardown_view w'
      = (delete p (inkbirds w), delete p (temperatures w), delete p (commands w),
         delete p (batteries w), delete p (bind w), deallocate p (alloc w)).
Proof.
  intros [dev Hdev].
  unfold Deadlock.teardown_device. unfold and_then at 1, gets at 1. rewrite Hdev.
  unfold Deadlock.transition, Deadlock.cancel_retry, Deadlock.on_device.
  unfold and_then at 1, modify at 1.
  unfold and_then at 1. unfold and_then at 1, item at 1. simpl inkbirds.
  rewrite lookup_alter_eq, Hdev. simpl.
  destruct (Deadlock.retry_timer dev) as [t|];
    unfold and_then, cancel_timer, modify, ret; simpl;
    match goal with
    | |- context [stop_notifications fails p ?W] =>
        destruct (stop_notifications_spec fails p W) as (l & ->)
    end;
    rewrite swallowed_spec; unfold drop_characteristics, drop_bind, free_slot,
      and_then, modify; simpl; rewrite swallowed_spec;
    eexists; (split; [reflexivity|]); unfold teardown_view; simpl;
    rewrite !delete_alter_eq; reflexivity.
Qed.

(** C7: a second [teardown_device(p)] right after the first changes
    nothing in the device map, the characteristic maps, the binding queues
    and the allocator, whatever the bus does during either call; neither
    call raises.  In deadlock.py the second call returns at once; in
    shock.py it repeats [RemoveDevice], which touches none of these. *)
Theorem teardown_idempotent :
  (forall fails1 fails2 p (w : World Shock.DeviceProxy),
     let once := Shock.teardown_device fails1 p w in
     let twice := Shock.teardown_device fails2 p (snd once) in
     fst once = inr tt /\ fst twice = inr tt /\
     teardown_view (snd twice) = teardown_view (snd once)) /\
  (forall fails1 fails2 p (w : World Deadlock.InkbirdDevice),
     let once := Deadlock.teardown_device fails1 p w in
     let twice := Deadlock.teardown_device fails2 p (snd once) in
     fst once = inr tt /\ fst twice = inr tt /\
     teardown_view (snd twice) = teardown_view (snd once)).
Proof.
  split; intros fails1 fails2 p w once twice; subst once twice.
  - destruct (shock_teardown_spec fails1 p w) as (w1 & -> & Hv1). simpl.
    destruct (shock_teardown_spec fails2 p w1) as (w2 & -> & Hv2). simpl.
    split; [reflexivity|]. split; [reflexivity|].
    rewrite Hv2, Hv1. unfold teardown_view in Hv1.
    injection Hv1 as -> -> -> -> -> ->.
    rewrite !delete_delete_eq, deallocate_idemp. reflexivity.
  - assert (Hgone : fst (Deadlock.teardown_device fails1 p w) = inr tt /\
                    inkbirds (snd (Deadlock.teardown_device fails1 p w)) !! p = None).
    { destruct (inkbirds w !! p) as [dev|] eqn:Hdev.
      - destruct (deadlock_teardown_spec fails1 p w) as (w1 & -> & Hv1);
          [rewrite Hdev; eexists; reflexivity|].
        simpl. split; [reflexivity|].
        unfold teardown_view in Hv1. injection Hv1 as -> _ _ _ _ _.
        apply lookup_delete_eq.
      - rewrite (deadlock_teardown_absent fails1 p w Hdev). simpl. auto. }
    destruct Hgone as [Hok Hgone].
    rewrite (deadlock_teardown_absent fails2 p _ Hgone). simpl. auto.
Qed.

(** ** Redundancy filter over logger cycles *)

Lemma all_decoded_ok :
  forallb (fun lo => forallb (fun hi => decoded_ok (temperature lo hi)) (seqZ 0 256))
          (seqZ 0 256) = true.
Proof. vm_compute. reflexivity. Qed.

Lemma temperature_decoded_ok lo hi :
  is_byte lo -> is_byte hi -> decoded_ok (temperature lo hi) = true.
Proof.
  intros Hlo Hhi. pose proof all_decoded_ok as H.
  rewrite forallb_forall in H.
  assert (Hin : forall z, is_byte z -> In z (seqZ 0 256)).
  { intros z Hz. apply list_elem_of_In, elem_of_seqZ. unfold is_byte in Hz. lia. }
  specialize (H lo (Hin lo Hlo)). rewrite forallb_forall in H.
  apply (H hi (Hin hi Hhi)).
Qed.

Lemma py_index_nat {A} (l : list A) (i : nat) :
  (i < length l)%nat -> py_index l (Z.of_nat i) = Some i.
Proof.
  intros H. unfold py_index.
  destruct (Z.leb_spec 0 (Z.of_nat i)); [|lia].
  destruct (Z.ltb_spec (Z.of_nat i) (Z.of_nat (length l))); [|lia].
  simpl. rewrite Nat2Z.id. reflexivity.
Qed.

Lemma read_nat {A} (arr : Register -> list A) (i : nat) (x : A) (r : Register) :
  arr r !! i = Some x -> read arr (Z.of_nat i) r = (inr x, r).
Proof.
  intros H. apply read_ok. unfold getitem.
  rewrite py_index_nat by (eapply lookup_lt_Some; eassumption). exact H.
Qed.

Lemma write_nat {A} (arr : Register -> list A) set (i : nat) (x a : A) (r : Register) :
  arr r !! i = Some x ->
  write arr set (Z.of_nat i) a r = (inr tt, set (<[i := a]> (arr r)) r).
Proof.
  intros H. unfold write, setitem.
  rewrite py_index_nat by (eapply lookup_lt_Some; eassumption). reflexivity.
Qed.

Lemma first_stamp_nat (i : nat) (n : Z) (r0 r : Register) :
  thermocount r !! i = Some n -> stamp r = stamp r0 ->
  first_stamp (Z.of_nat i) r = (inr tt, stamped_first i r0 r).
Proof.
  intros Hc Hst. unfold first_stamp, stamped_first, and_then, gets.
  rewrite <- Hst. destruct (stamp r); simpl; [reflexivity|].
  rewrite (write_nat thermocount set_thermocount i n 0 r Hc). reflexivity.
Qed.

(** A channel whose counter is 0 and whose reading is no large jump takes
    the reading. *)
Lemma fresh_channel_accepts (i : nat) (v vlast vfilt : float) (r : Register) :
  thermostamp r !! i = Some vlast -> thermofilter r !! i = Some vfilt ->
  thermocount r !! i = Some 0 ->
  (1.5 <? abs (v - vlast))%float = false ->
  Shock.update_channel (Z.of_nat i) v r = (inr tt, shock_accepted i v vlast r) /\
  Deadlock.update_channel (Z.of_nat i) v r = (inr tt, deadlock_accepted i v r).
Proof.
  intros Hs Hf Hc Hj. split.
  - unfold Shock.update_channel, and_then.
    rewrite (read_nat _ _ _ _ Hs), (read_nat _ _ _ _ Hc).
    unfold is_redundant. simpl. rewrite Hj.
    rewrite (read_nat _ _ _ _ Hs).
    rewrite (write_nat thermofilter set_thermofilter i vfilt vlast r Hf).
    rewrite (write_nat thermostamp set_thermostamp i vlast v
               (set_thermofilter (<[i := vlast]> (thermofilter r)) r) Hs).
    apply (first_stamp_nat i 0); [exact Hc | reflexivity].
  - unfold Deadlock.update_channel, and_then.
    rewrite (read_nat _ _ _ _ Hs), (read_nat _ _ _ _ Hc).
    unfold is_redundant. simpl. rewrite Hj. cbv beta iota.
    rewrite (write_nat thermostamp set_thermostamp i vlast v r Hs).
    assert (Hs' : thermostamp (set_thermostamp (<[i := v]> (thermostamp r)) r) !! i = Some v).
    { simpl. apply list_lookup_insert_eq. eapply lookup_lt_Some; eassumption. }
    rewrite (read_nat _ _ _ _ Hs').
    rewrite (write_nat thermofilter set_thermofilter i vfilt v
               (set_thermostamp (<[i := v]> (thermostamp r)) r) Hf).
    apply (first_stamp_nat i 0); [exact Hc | reflexivity].
Qed.

(** A channel that holds [v], was logged since and has not waited
    [MAXWAIT] lines, ignores a further [v]. *)
Lemma same_reading_suppressed (i : nat) (v : float) (n : Z) (r : Register) :
  thermostamp r !! i = Some v -> thermocount r !! i = Some n ->
  0 < n < MAXWAIT -> (v =? v)%float = true ->
  Shock.update_channel (Z.of_nat i) v r = (inr tt, r) /\
  Deadlock.update_channel (Z.of_nat i) v r = (inr tt, r).
Proof.
  intros Hs Hc Hn Hv.
  assert (Hred : is_redundant (Z.of_nat i) v v n r = (inr true, r)).
  { unfold is_redundant.
    destruct (Z.eqb_spec n 0); [lia|]. destruct (Z.ltb_spec n MAXWAIT); [|lia].
    simpl. rewrite Hv. reflexivity. }
  split.
  - unfold Shock.update_channel, and_then.
    rewrite (read_nat _ _ _ _ Hs), (read_nat _ _ _ _ Hc), Hred. reflexivity.
  - unfold Deadlock.update_channel, and_then.
    rewrite (read_nat _ _ _ _ Hs), (read_nat _ _ _ _ Hc), Hred. reflexivity.
Qed.

Lemma and_then_run {S A B} (m : M S A) (k : A -> M S B) s a s' :
  m s = (inr a, s') -> and_then m k s = k a s'.
Proof. intros H. unfold and_then. rewrite H. reflexivity. Qed.

Lemma on_reg_run {D A} (m : M Register A) (w : World D) res r' :
  m (reg w) = (res, r') -> on_reg m w = (res, set_reg r' w).
Proof. intros H. unfold on_reg, zoom. rewrite H. reflexivity. Qed.

Lemma set_reg_same {D} (w : World D) : set_reg (reg w) w = w.
Proof. destruct w. reflexivity. Qed.

Lemma t4vec_packet {S} (s : S) d0 d1 d2 d3 d4 d5 d6 d7 rest :
  t4vec (d0 :: d1 :: d2 :: d3 :: d4 :: d5 :: d6 :: d7 :: rest) s
  = (inr [temperature d0 d1; temperature d2 d3; temperature d4 d5; temperature d6 d7], s).
Proof. reflexivity. Qed.

(** A run of the logger that finds [stamp] clear leaves the samples, the
    counters, [stamp] and the allocator alone, whether or not it tries to
    unstall the devices and whether or not that raises. *)
Lemma logger_quiet {D} fails threshold next now (w : World D) :
  stamp (reg w) = false ->
  let w' := snd (logger_with fails threshold next now w) in
  alloc w' = alloc w /\ thermostamp (reg w') = thermostamp (reg w) /\
  thermocount (reg w') = thermocount (reg w) /\ stamp (reg w') = false.
Proof.
  intros Hst.
  set (I := fun w' : World D =>
              alloc w' = alloc w /\ thermostamp (reg w') = thermostamp (reg w) /\
              thermocount (reg w') = thermocount (reg w) /\ stamp (reg w') = false).
  assert (HI : I w) by (unfold I; auto).
  assert (Hun : preserves I (unstall fails now)).
  { unfold unstall. preserves_structure.
    - intros s H. unfold item. destruct (temperatures s !! _); exact H.
    - intros s H. unfold bus_call. destruct (fails _); exact H.
    - intros s H. exact H. }
  change (I (snd (logger_with fails threshold next now w))).
  unfold logger_with. unfold and_then at 1, gets at 1. rewrite Hst.
  assert (Hrest : forall w1, I w1 ->
            I (snd ((let* r := gets reg in
                     let* _ :=
                       if stamp r then
                         let sample := thermostamp r in
                         let* _ := on_reg (modify (fun r => set_laststamp now (set_stamp false r))) in
                         let* _ := on_reg (tick_counts next) in
                         modify (fun w => set_fout (fout w ++ [(now, map rendered sample)]) w)
                       else ret tt in
                     let* _ := start_timer 1%float tc_logger in
                     ret tt) w1))).
  { intros w1 H1. unfold and_then at 1, gets at 1.
    destruct H1 as (Ha & Hs & Hc & Hf). rewrite Hf. simpl. unfold I. auto. }
  destruct (negb false && (threshold <? now - laststamp (reg w))%float).
  - specialize (Hun w HI). unfold and_then at 1.
    destruct (unstall fails now w) as [[e | []] w1]; simpl in Hun.
    + exact Hun.
    + apply Hrest, Hun.
  - unfold and_then at 1. simpl. apply Hrest, HI.
Qed.

Lemma shock_fresh (i : nat) (v vlast vfilt : float) (r : Register) :
  thermostamp r !! i = Some vlast -> thermofilter r !! i = Some vfilt ->
  thermocount r !! i = Some 0 ->
  (1.5 <? abs (v - vlast))%float = false ->
  Shock.update_channel (Z.of_nat i) v r = (inr tt, shock_accepted i v vlast r).
Proof. intros. apply fresh_channel_accepts with (vfilt := vfilt); assumption. Qed.

Lemma deadlock_fresh (i : nat) (v vlast vfilt : float) (r : Register) :
  thermostamp r !! i = Some vlast -> thermofilter r !! i = Some vfilt ->
  thermocount r !! i = Some 0 ->
  (1.5 <? abs (v - vlast))%float = false ->
  Deadlock.update_channel (Z.of_nat i) v r = (inr tt, deadlock_accepted i v r).
Proof. intros. eapply fresh_channel_accepts; eassumption. Qed.

Lemma decoded_ok_inv v :
  decoded_ok v = true -> (v =? v)%float = true /\ (1.5 <? abs (v - nan))%float = false.
Proof.
  unfold decoded_ok. intros H. apply andb_true_iff in H as [H1 H2].
  apply negb_true_iff in H2. auto.
Qed.

(** The loop over the four channels, from the initial register with the
    device at offset 0: every channel takes its reading and the first one
    sets [stamp]. *)
Lemma first_update_all {D} (v0 v1 v2 v3 t0 : float) (w : World D) :
  reg w = register_init t0 ->
  decoded_ok v0 = true -> decoded_ok v1 = true ->
  decoded_ok v2 = true -> decoded_ok v3 = true ->
  (exists filt,
     update_all Shock.update_channel 0 [v0; v1; v2; v3] w
     = (inr tt, set_reg {| thermostamp := [v0; v1; v2; v3] ++ replicate 20 nan;
                           thermofilter := filt;
                           thermocount := replicate 24 0;
                           stamp := true;
                           laststamp := t0 |} w)) /\
  (exists filt,
     update_all Deadlock.update_channel 0 [v0; v1; v2; v3] w
     = (inr tt, set_reg {| thermostamp := [v0; v1; v2; v3] ++ replicate 20 nan;
                           thermofilter := filt;
                           thermocount := replicate 24 0;
                           stamp := true;
                           laststamp := t0 |} w)).
Proof.
  intros Hreg H0 H1 H2 H3.
  apply decoded_ok_inv in H0 as [_ H0]. apply decoded_ok_inv in H1 as [_ H1].
  apply decoded_ok_inv in H2 as [_ H2]. apply decoded_ok_inv in H3 as [_ H3].
  destruct w as [a r ink tmp cmd bat bnd gs ts lg fo]. simpl in Hreg. subst r.
  unfold update_all. cbn [for_each imap fst snd].
  split; eexists.
  - do 4 (erewrite and_then_run;
            [| apply on_reg_run; eapply shock_fresh;
               [reflexivity | reflexivity | reflexivity | eassumption]]).
    reflexivity.
  - do 4 (erewrite and_then_run;
            [| apply on_reg_run; eapply deadlock_fresh;
               [reflexivity | reflexivity | reflexivity | eassumption]]).
    reflexivity.
Qed.

(** Once settled at the readings of a packet, the loop over the four
    channels changes nothing when the same readings come again. *)
Lemma settled_update_all {D} (v0 v1 v2 v3 : float) (w : World D) :
  settled [v0; v1; v2; v3] (reg w) ->
  (v0 =? v0)%float = true -> (v1 =? v1)%float = true ->
  (v2 =? v2)%float = true -> (v3 =? v3)%float = true ->
  update_all Shock.update_channel 0 [v0; v1; v2; v3] w = (inr tt, w) /\
  update_all Deadlock.update_channel 0 [v0; v1; v2; v3] w = (inr tt, w).
Proof.
  intros (Hst & Hs & Hc) H0 H1 H2 H3.
  assert (Hn : 0 < 1 < MAXWAIT) by (unfold MAXWAIT; lia).
  assert (Hstep : forall (i : nat) v,
            ([v0; v1; v2; v3] ++ replicate 20 nan) !! i = Some v ->
            replicate 24 1 !! i = Some 1 -> (v =? v)%float = true ->
            on_reg (Shock.update_channel (Z.of_nat i) v) w = (inr tt, w) /\
            on_reg (Deadlock.update_channel (Z.of_nat i) v) w = (inr tt, w)).
  { intros i v Hv Hi Hvv. rewrite <- Hs in Hv. rewrite <- Hc in Hi.
    destruct (same_reading_suppressed i v 1 (reg w) Hv Hi Hn Hvv) as [Hsh Hde].
    split; rewrite <- (set_reg_same w) at 2; apply on_reg_run; assumption. }
  unfold update_all. cbn [for_each imap fst snd].
  split.
  - rewrite (and_then_run _ _ _ _ _ (proj1 (Hstep 0%nat v0 eq_refl eq_refl H0))).
    rewrite (and_then_run _ _ _ _ _ (proj1 (Hstep 1%nat v1 eq_refl eq_refl H1))).
    rewrite (and_then_run _ _ _ _ _ (proj1 (Hstep 2%nat v2 eq_refl eq_refl H2))).
    rewrite (and_then_run _ _ _ _ _ (proj1 (Hstep 3%nat v3 eq_refl eq_refl H3))).
    reflexivity.
  - rewrite (and_then_run _ _ _ _ _ (proj2 (Hstep 0%nat v0 eq_refl eq_refl H0))).
    rewrite (and_then_run _ _ _ _ _ (proj2 (Hstep 1%nat v1 eq_refl eq_refl H1))).
    rewrite (and_then_run _ _ _ _ _ (proj2 (Hstep 2%nat v2 eq_refl eq_refl H2))).
    rewrite (and_then_run _ _ _ _ _ (proj2 (Hstep 3%nat v3 eq_refl eq_refl H3))).
    reflexivity.
Qed.

(** From a settled register nothing is stamped, however many cycles
    follow. *)
Lemma cycles_quiet {D} (upd : M (World D) unit) logger threshold next
    (path : string) (vs : list float) :
  (forall fails now w, logger fails now w = logger_with fails threshold next now w) ->
  (forall w, settled vs (reg w) -> allocated_offsets (alloc w) !! path = Some 0 ->
             upd w = (inr tt, w)) ->
  forall ticks w,
    settled vs (reg w) -> allocated_offsets (alloc w) !! path = Some 0 ->
    cycles upd logger ticks w = replicate (length ticks) false.
Proof.
  intros Hlog Hupd ticks. induction ticks as [|[fails now] ticks IH]; intros w Hset Hslot.
  - reflexivity.
  - cbn [cycles length replicate fst snd]. rewrite (Hupd w Hset Hslot). cbn [snd].
    destruct Hset as (Hst & Hs & Hc). rewrite Hst. f_equal.
    rewrite Hlog.
    destruct (logger_quiet fails threshold next now w Hst) as (Ha & Hs' & Hc' & Hst').
    apply IH.
    + repeat split; congruence.
    + rewrite Ha. exact Hslot.
Qed.

(** The first cycle stamps and leaves the register settled. *)
Lemma first_cycle {D} (upd : M (World D) unit) threshold next
    (path : string) (vs filt : list float) (t0 : float) fails now (w : World D) :
  next 0 = 1 ->
  upd w = (inr tt, set_reg {| thermostamp := vs ++ replicate 20 nan;
                              thermofilter := filt;
                              thermocount := replicate 24 0;
                              stamp := true;
                              laststamp := t0 |} w) ->
  allocated_offsets (alloc w) !! path = Some 0 ->
  let w1 := snd (upd w) in
  let w2 := snd (logger_with fails threshold next now w1) in
  stamp (reg w1) = true /\ settled vs (reg w2) /\
  allocated_offsets (alloc w2) !! path = Some 0.
Proof.
  intros Hnext Hupd Hslot w1 w2. subst w1 w2. rewrite Hupd. cbn [snd].
  destruct w as [a r ink tmp cmd bat bnd gs ts lg fo]. cbn [set_reg reg stamp].
  split; [reflexivity|].
  match goal with
  | |- context [logger_with fails threshold next now ?W] =>
      destruct (logger_emits fails threshold next now W eq_refl)
        as (w' & -> & Hreg & Ha & _)
  end.
  cbn [snd]. simpl in Hreg, Ha, Hslot. rewrite Hreg, Ha.
  split; [|exact Hslot].
  unfold settled. simpl. rewrite Hnext. auto.
Qed.

(** C2, amended: when the same payload is fed to the device at offset 0
    once per logger cycle, starting from the never-observed register,
    [stamp] is set by the update of cycle 1 and by no later one, for any
    number of cycles: the logger only advances [count] on cycles that
    emit a line, so after cycle 1 the counters stay at 1 and every later
    identical reading is suppressed.  This holds in both files, whatever
    the clock readings and the bus do. *)
Theorem redundancy_cap (path : string) (data : list Z) (t0 : float)
    (tick : (BusCall -> bool) * float) (ticks : list ((BusCall -> bool) * float))
    (ws : World Shock.DeviceProxy) (wd : World Deadlock.InkbirdDevice) :
  length data = 12%nat -> Forall is_byte data -> slice data 8 12 = TRAILER ->
  reg ws = register_init t0 -> allocated_offsets (alloc ws) !! path = Some 0 ->
  reg wd = register_init t0 -> allocated_offsets (alloc wd) !! path = Some 0 ->
  cycles (Shock.update_temperatures path data) Shock.logger (tick :: ticks) ws
    = true :: replicate (length ticks) false /\
  cycles (Deadlock.update_temperatures path data) Deadlock.logger (tick :: ticks) wd
    = true :: replicate (length ticks) false.
Proof.
  intros Hlen Hb Htr Hrs Hss Hrd Hsd.
  do 12 (destruct data as [|? data]; [discriminate Hlen|]).
  destruct data; [|discriminate Hlen].
  repeat match goal with
         | H : Forall _ (_ :: _) |- _ => apply Forall_cons in H as [? H]
         end.
  set (v0 := temperature z z0). set (v1 := temperature z1 z2).
  set (v2 := temperature z3 z4). set (v3 := temperature z5 z6).
  assert (Hd0 : decoded_ok v0 = true) by (apply temperature_decoded_ok; assumption).
  assert (Hd1 : decoded_ok v1 = true) by (apply temperature_decoded_ok; assumption).
  assert (Hd2 : decoded_ok v2 = true) by (apply temperature_decoded_ok; assumption).
  assert (Hd3 : decoded_ok v3 = true) by (apply temperature_decoded_ok; assumption).
  assert (Hshock : forall w : World Shock.DeviceProxy,
            allocated_offsets (alloc w) !! path = Some 0 ->
            Shock.update_temperatures path [z; z0; z1; z2; z3; z4; z5; z6; z7; z8; z9; z10] w
            = update_all Shock.update_channel 0 [v0; v1; v2; v3] w).
  { intros w Hslot. unfold Shock.update_temperatures.
    rewrite bool_decide_eq_false_2 by (intros Hne; exact (Hne Htr)).
    unfold and_then at 1. rewrite t4vec_packet.
    unfold and_then at 1, item at 1. rewrite Hslot. reflexivity. }
  assert (Hdead : forall w : World Deadlock.InkbirdDevice,
            allocated_offsets (alloc w) !! path = Some 0 ->
            Deadlock.update_temperatures path [z; z0; z1; z2; z3; z4; z5; z6; z7; z8; z9; z10] w
            = update_all Deadlock.update_channel 0 [v0; v1; v2; v3] w).
  { intros w Hslot. unfold Deadlock.update_temperatures.
    rewrite bool_decide_eq_false_2 by (intros Hne; exact (Hne Htr)).
    change (Z.of_nat (length [z; z0; z1; z2; z3; z4; z5; z6; z7; z8; z9; z10]) <? 12)
      with false.
    cbn [orb].
    unfold and_then at 1. rewrite t4vec_packet.
    unfold and_then at 1, item at 1. rewrite Hslot. reflexivity. }
  destruct (decoded_ok_inv _ Hd0) as [E0 _]. destruct (decoded_ok_inv _ Hd1) as [E1 _].
  destruct (decoded_ok_inv _ Hd2) as [E2 _]. destruct (decoded_ok_inv _ Hd3) as [E3 _].
  destruct tick as [fails now]. cbn [cycles fst snd]. split.
  - destruct (proj1 (first_update_all v0 v1 v2 v3 t0 ws Hrs Hd0 Hd1 Hd2 Hd3)) as (filt & Hup).
    rewrite <- (Hshock ws Hss) in Hup.
    destruct (first_cycle _ 30%float Shock.next_count path _ filt t0 fails now ws
                eq_refl Hup Hss) as (Hst & Hset & Hslot).
    rewrite Hst. f_equal.
    apply (cycles_quiet _ Shock.logger 30%float Shock.next_count path [v0; v1; v2; v3]).
    + reflexivity.
    + intros w Hw Hs. rewrite (Hshock w Hs).
      apply (settled_update_all v0 v1 v2 v3 w Hw E0 E1 E2 E3).
    + exact Hset.
    + exact Hslot.
  - destruct (proj2 (first_update_all v0 v1 v2 v3 t0 wd Hrd Hd0 Hd1 Hd2 Hd3)) as (filt & Hup).
    rewrite <- (Hdead wd Hsd) in Hup.
    destruct (first_cycle _ 120%float Deadlock.next_count path _ filt t0 fails now wd
                eq_refl Hup Hsd) as (Hst & Hset & Hslot).
    rewrite Hst. f_equal.
    apply (cycles_quiet _ Deadlock.logger 120%float Deadlock.next_count path [v0; v1; v2; v3]).
    + reflexivity.
    + intros w Hw Hs. rewrite (Hdead w Hs).
      apply (settled_update_all v0 v1 v2 v3 w Hw E0 E1 E2 E3).
    + exact Hset.
    + exact Hslot.
Qed.

Lemma redundancy_cap_witness :
  cycles (Shock.update_temperatures "/d1" packet_25) Shock.logger ticks_25
         (world_with_slot "/d1")
    = true :: replicate 24 false /\
  cycles (Deadlock.update_temperatures "/d1" packet_25) Deadlock.logger ticks_25
         (world_with_slot "/d1")
    = true :: replicate 24 false.
Proof.
  apply (redundancy_cap "/d1" packet_25 0%float
           (no_failure, float_of_Z 1)
           (map (fun k : nat => (no_failure, float_of_Z (Z.of_nat k))) (seq 2 24))
           (world_with_slot "/d1") (world_with_slot "/d1")).
  - reflexivity.
  - repeat constructor; unfold is_byte; lia.
  - reflexivity.
  - reflexivity.
  - reflexivity.
  - reflexivity.
  - reflexivity.
Defined.

(** C2 as stated fails: over the 25 cycles of the scenario the update of
    cycle 21 does not set [stamp], in either file. *)
Lemma redundancy_cap_counterexample :
  cycles (Shock.update_temperatures "/d1" packet_25) Shock.logger ticks_25
         (world_with_slot "/d1") !! 20%nat = Some false /\
  cycles (Deadlock.update_temperatures "/d1" packet_25) Deadlock.logger ticks_25
         (world_with_slot "/d1") !! 20%nat = Some false /\
  length ticks_25 = 25%nat.
Proof. vm_compute. repeat split; reflexivity. Qed.

(** ** Retry and backoff (deadlock.py) *)

Lemma pairing_scenario_check :
  map interval (timers (pairing_scenario "/d1")) = [2; 4; 8]%float /\
  map status (timers (pairing_scenario "/d1")) = [Fired; Fired; Fired] /\
  (Deadlock.retry_backoff <$> inkbirds (pairing_scenario "/d1") !! "/d1")
    = Some Deadlock.INITIAL_BACKOFF /\
  (Deadlock.state <$> inkbirds (pairing_scenario "/d1") !! "/d1") = Some Deadlock.ACTIVE.
Proof. vm_compute. repeat split; reflexivity. Qed.

Lemma connect_scenario_check :
  timers (connect_scenario "/d1") = [] /\
  (Deadlock.retry_backoff <$> inkbirds (connect_scenario "/d1") !! "/d1")
    = Some Deadlock.INITIAL_BACKOFF /\
  (Deadlock.state <$> inkbirds (connect_scenario "/d1") !! "/d1")
    = Some Deadlock.CONNECTED.
Proof. vm_compute. repeat split; reflexivity. Qed.

(** The calls of the handshake only talk to the bus. *)
Lemma pseudo_pairing_calls_frame fails path (w : World Deadlock.InkbirdDevice) :
  inkbirds (snd (Deadlock.pseudo_pairing_calls fails path w)) = inkbirds w /\
  timers (snd (Deadlock.pseudo_pairing_calls fails path w)) = timers w.
Proof.
  set (I := fun w' : World Deadlock.InkbirdDevice =>
              inkbirds w' = inkbirds w /\ timers w' = timers w).
  assert (Hitem : forall (d : World Deadlock.InkbirdDevice -> gmap string Proxy) k,
            preserves I (item d k)).
  { intros d k s H. unfold item. destruct (d s !! k); exact H. }
  assert (Hcall : forall c, preserves I (bus_call fails c)).
  { intros c s H. unfold bus_call. destruct (fails c); exact H. }
  change (I (snd (Deadlock.pseudo_pairing_calls fails path w))).
  assert (Hpre : preserves I (Deadlock.pseudo_pairing_calls fails path)).
  { unfold Deadlock.pseudo_pairing_calls, Deadlock.reinitialize_inkbird,
      Deadlock.bind_notify.
    preserves_structure; first [apply Hitem | apply Hcall]. }
  apply Hpre. unfold I. auto.
Qed.

Lemma length_cancel_in (i : nat) (l : list Timer) :
  length (cancel_in i l) = length l.
Proof.
  unfold cancel_in. destruct (l !! i) as [[t cb []]|]; try reflexivity.
  apply length_insert.
Qed.

(** The timers once the pending timer of the device, if any, is cancelled. *)
Lemma cancelled_none_pending path (dev : Deadlock.InkbirdDevice) (l : list Timer) :
  single_retry path dev l ->
  forall i t,
    match Deadlock.retry_timer dev with
    | Some j => cancel_in j l
    | None => l
    end !! i = Some t ->
    pending_retry path t = false.
Proof.
  intros Hsingle i t Hi.
  destruct (pending_retry path t) eqn:Hp; [exfalso | reflexivity].
  destruct (Deadlock.retry_timer dev) as [j|] eqn:Hj.
  - unfold cancel_in in Hi.
    destruct (l !! j) as [[tj cbj stj]|] eqn:Hlj.
    + destruct (decide (i = j)) as [-> | Hne].
      * destruct stj.
        -- rewrite list_lookup_insert_eq in Hi by (eapply lookup_lt_Some; eassumption).
           inversion Hi; subst. unfold pending_retry in Hp. simpl in Hp.
           destruct cbj; discriminate.
        -- rewrite Hlj in Hi. inversion Hi; subst.
           unfold pending_retry in Hp. simpl in Hp. destruct cbj; discriminate.
        -- rewrite Hlj in Hi. inversion Hi; subst.
           unfold pending_retry in Hp. simpl in Hp. destruct cbj; discriminate.
      * assert (Hli : l !! i = Some t).
        { destruct stj; try exact Hi.
          rewrite list_lookup_insert_ne in Hi by congruence. exact Hi. }
        specialize (Hsingle i t Hli Hp). congruence.
    + specialize (Hsingle i t Hi Hp). congruence.
  - specialize (Hsingle i t Hi Hp). congruence.
Qed.

(** A handshake that raises: one new timer, the old one cancelled, the
    backoff doubled. *)
Lemma pairing_failure fails path (dev : Deadlock.InkbirdDevice)
    (w : World Deadlock.InkbirdDevice) :
  inkbirds w !! path = Some dev -> Deadlock.state dev = Deadlock.CONNECTED ->
  (exists e, fst (Deadlock.pseudo_pairing_calls fails path w) = inl e) ->
  exists w', Deadlock.run_pseudo_pairing fails path w = (inr false, w') /\
    inkbirds w' !! path
      = Some (Deadlock.with_retry (Deadlock.retry_backoff dev * 2)%float
                (Some (length (timers w))) dev) /\
    timers w'
      = match Deadlock.retry_timer dev with
        | Some j => cancel_in j (timers w)
        | None => timers w
        end ++ [mkTimer (Deadlock.py_min (Deadlock.retry_backoff dev) Deadlock.MAX_BACKOFF)
                        (tc_retry_pseudo_pairing path) Pending].
Proof.
  intros Hdev Hstate [e He].
  destruct (pseudo_pairing_calls_frame fails path w) as [Hink Htim].
  unfold Deadlock.run_pseudo_pairing. unfold and_then at 1, gets at 1. rewrite Hdev.
  unfold Deadlock.can_act. rewrite Hstate.
  rewrite bool_decide_eq_true_2 by reflexivity. cbn [negb].
  unfold try_except, Deadlock.pseudo_pairing_steps. unfold and_then at 1.
  destruct (Deadlock.pseudo_pairing_calls fails path w) as [[e' | []] w1];
    simpl in He, Hink, Htim; [|discriminate He].
  unfold Deadlock.schedule_retry, and_then, item, Deadlock.on_device, cancel_timer,
    start_timer, modify, ret.
  rewrite Hink, Hdev. simpl.
  destruct (Deadlock.retry_timer dev) as [j|]; simpl.
  - eexists. split; [reflexivity|]. simpl.
    rewrite Hink, Htim, lookup_alter_eq, Hdev, length_cancel_in. auto.
  - eexists. split; [reflexivity|]. simpl.
    rewrite Hink, Htim, lookup_alter_eq, Hdev. auto.
Qed.

(** A handshake that goes through: [Active], backoff reset, no timer. *)
Lemma pairing_success fails path (dev : Deadlock.InkbirdDevice)
    (w : World Deadlock.InkbirdDevice) :
  inkbirds w !! path = Some dev -> Deadlock.state dev = Deadlock.CONNECTED ->
  fst (Deadlock.pseudo_pairing_calls fails path w) = inr tt ->
  exists w', Deadlock.run_pseudo_pairing fails path w = (inr true, w') /\
    inkbirds w' !! path
      = Some (Deadlock.with_retry Deadlock.INITIAL_BACKOFF (Deadlock.retry_timer dev)
                (Deadlock.with_state Deadlock.ACTIVE dev)) /\
    timers w' = timers w.
Proof.
  intros Hdev Hstate Hok.
  destruct (pseudo_pairing_calls_frame fails path w) as [Hink Htim].
  unfold Deadlock.run_pseudo_pairing. unfold and_then at 1, gets at 1. rewrite Hdev.
  unfold Deadlock.can_act. rewrite Hstate.
  rewrite bool_decide_eq_true_2 by reflexivity. cbn [negb].
  unfold try_except, Deadlock.pseudo_pairing_steps. unfold and_then at 1.
  destruct (Deadlock.pseudo_pairing_calls fails path w) as [[e' | []] w1];
    simpl in Hok, Hink, Htim; [discriminate Hok|].
  unfold Deadlock.transition, Deadlock.on_device, and_then, modify, ret. simpl.
  eexists. split; [reflexivity|]. simpl.
  rewrite Hink, Htim, !lookup_alter_eq, Hdev. auto.
Qed.

(** A failing [Connect]: back to [Disconnected], and nothing else: no
    timer is started and the backoff is not touched. *)
Lemma connect_failure fails path (w : World Deadlock.InkbirdDevice) :
  fails (Connect path) = true ->
  inkbirds w !! path = None ->
  exists w', Deadlock.interface_added_callback fails path inkbird_added w = (inr tt, w') /\
    inkbirds w' !! path = Some (Deadlock.new_device path path) /\
    timers w' = timers w.
Proof.
  intros Hfail Hnew.
  unfold Deadlock.interface_added_callback, inkbird_added.
  rewrite lookup_singleton_eq. rewrite lookup_singleton_eq. cbn [default].
  rewrite bool_decide_eq_true_2 by (unfold Deadlock.INKBIRD_NAME; left).
  cbn [negb]. unfold and_then at 1, gets at 1. rewrite Hnew.
  unfold and_then, modify, item, Deadlock.transition, Deadlock.on_device, try_except,
    bus_call, ret. simpl.
  rewrite lookup_insert_eq. simpl. rewrite Hfail. simpl.
  eexists. split; [reflexivity|]. simpl.
  rewrite !lookup_alter_eq, lookup_insert_eq. auto.
Qed.

(** C9, amended: in deadlock.py a failure inside [run_pseudo_pairing]
    (a bus call that raises, or a characteristic that is missing) starts
    one timer of [min(retry_backoff, MAX_BACKOFF)] seconds, which is then
    the device's only pending retry, and doubles [retry_backoff]; a
    handshake that goes through moves the device to [Active] and resets
    [retry_backoff] to [INITIAL_BACKOFF].  A failing [Connect] schedules no
    retry: the device is back in [Disconnected] with its backoff untouched.
    Three failing handshakes followed by a successful one give the retry
    intervals 2 s, 4 s, 8 s and leave the backoff at 2 s. *)
Theorem retry_backoff_policy :
  (forall fails path (dev : Deadlock.InkbirdDevice) (w : World Deadlock.InkbirdDevice),
     inkbirds w !! path = Some dev -> Deadlock.state dev = Deadlock.CONNECTED ->
     (exists e, fst (Deadlock.pseudo_pairing_calls fails path w) = inl e) ->
     single_retry path dev (timers w) ->
     exists w', Deadlock.run_pseudo_pairing fails path w = (inr false, w') /\
       timers w' !! length (timers w)
         = Some (mkTimer (Deadlock.py_min (Deadlock.retry_backoff dev) Deadlock.MAX_BACKOFF)
                         (tc_retry_pseudo_pairing path) Pending) /\
       (forall i t, timers w' !! i = Some t -> pending_retry path t = true ->
                    i = length (timers w)) /\
       (Deadlock.retry_backoff <$> inkbirds w' !! path)
         = Some (Deadlock.retry_backoff dev * 2)%float /\
       (Deadlock.retry_timer <$> inkbirds w' !! path) = Some (Some (length (timers w)))) /\
  (forall fails path (dev : Deadlock.InkbirdDevice) (w : World Deadlock.InkbirdDevice),
     inkbirds w !! path = Some dev -> Deadlock.state dev = Deadlock.CONNECTED ->
     fst (Deadlock.pseudo_pairing_calls fails path w) = inr tt ->
     exists w', Deadlock.run_pseudo_pairing fails path w = (inr true, w') /\
       (Deadlock.state <$> inkbirds w' !! path) = Some Deadlock.ACTIVE /\
       (Deadlock.retry_backoff <$> inkbirds w' !! path) = Some Deadlock.INITIAL_BACKOFF /\
       timers w' = timers w) /\
  (forall fails path (w : World Deadlock.InkbirdDevice),
     fails (Connect path) = true -> inkbirds w !! path = None ->
     exists w', Deadlock.interface_added_callback fails path inkbird_added w = (inr tt, w') /\
       (Deadlock.state <$> inkbirds w' !! path) = Some Deadlock.DISCONNECTED /\
       (Deadlock.retry_backoff <$> inkbirds w' !! path) = Some Deadlock.INITIAL_BACKOFF /\
       timers w' = timers w) /\
  map interval (timers (pairing_scenario "/d1")) = [2; 4; 8]%float /\
  (Deadlock.retry_backoff <$> inkbirds (pairing_scenario "/d1") !! "/d1")
    = Some Deadlock.INITIAL_BACKOFF /\
  (Deadlock.state <$> inkbirds (pairing_scenario "/d1") !! "/d1") = Some Deadlock.ACTIVE.
Proof.
  split; [|split; [|split]].
  - intros fails path dev w Hdev Hstate Hfail Hsingle.
    destruct (pairing_failure fails path dev w Hdev Hstate Hfail) as (w' & Hrun & Hink & Htim).
    exists w'. split; [exact Hrun|].
    assert (Hlen : length (match Deadlock.retry_timer dev with
                           | Some j => cancel_in j (timers w)
                           | None => timers w
                           end) = length (timers w)).
    { destruct (Deadlock.retry_timer dev); [apply length_cancel_in | reflexivity]. }
    split; [|split; [|split]].
    + rewrite Htim. rewrite lookup_app_r by lia. rewrite Hlen, Nat.sub_diag. reflexivity.
    + intros i t Hi Hp. rewrite Htim in Hi.
      apply lookup_app_Some in Hi as [Hi | [Hge Hi]].
      * rewrite (cancelled_none_pending path dev (timers w) Hsingle i t Hi) in Hp.
        discriminate Hp.
      * rewrite Hlen in Hge, Hi.
        destruct (i - length (timers w))%nat as [|n] eqn:Hn; [lia|].
        simpl in Hi. discriminate Hi.
    + rewrite Hink. reflexivity.
    + rewrite Hink. reflexivity.
  - intros fails path dev w Hdev Hstate Hok.
    destruct (pairing_success fails path dev w Hdev Hstate Hok) as (w' & Hrun & Hink & Htim).
    exists w'. rewrite Hink. auto.
  - intros fails path w Hfail Hnew.
    destruct (connect_failure fails path w Hfail Hnew) as (w' & Hrun & Hink & Htim).
    exists w'. rewrite Hink. auto.
  - pose proof pairing_scenario_check as (H1 & _ & H2 & H3). auto.
Qed.

Lemma retry_backoff_policy_witness :
  let w := snd (Deadlock.interface_added_callback no_failure "/d1" inkbird_added
                  (deadlock_ready "/d1")) in
  exists w', Deadlock.run_pseudo_pairing write_fails "/d1" w = (inr false, w') /\
    timers w' !! 0%nat
      = Some (mkTimer 2%float (tc_retry_pseudo_pairing "/d1") Pending) /\
    (Deadlock.retry_backoff <$> inkbirds w' !! "/d1") = Some 4%float.
Proof.
  intros w.
  destruct retry_backoff_policy as (Hfail & _).
  destruct (Hfail write_fails "/d1"
              (Deadlock.with_state Deadlock.CONNECTED (Deadlock.new_device "/d1" "/d1")) w)
    as (w' & Hrun & Htimer & _ & Hback & _).
  - reflexivity.
  - reflexivity.
  - eexists. reflexivity.
  - intros i t Hi. destruct i; discriminate Hi.
  - exists w'. split; [exact Hrun|]. split; [exact Htimer | exact Hback].
Defined.

(** C9 as stated fails for failures of [Connect]: three failing calls
    and a successful one start no timer at all, so no retry interval is
    observed, and the device ends in [Connected], not [Active]. *)
Lemma retry_backoff_policy_counterexample :
  map interval (timers (connect_scenario "/d1")) = [] /\
  map interval (timers (connect_scenario "/d1")) <> [2; 4; 8]%float /\
  (Deadlock.state <$> inkbirds (connect_scenario "/d1") !! "/d1")
    = Some Deadlock.CONNECTED.
Proof.
  pose proof connect_scenario_check as (Ht & _ & Hs).
  rewrite Ht. split; [reflexivity|]. split; [discriminate | exact Hs].
Qed.

(** * Further properties *)

(** ** Allocator: reuse of a remembered offset, disjoint channel ranges,
       allocation at capacity *)

Lemma dict_get_app_fresh (k : key) (v : Z) (d : list (key * Z)) :
  dict_get k d = None -> dict_get k (d ++ [(k, v)]) = Some v.
Proof.
  induction d as [|[k' v'] d IH]; simpl.
  - intros _. rewrite decide_True by reflexivity. reflexivity.
  - destruct (decide (k = k')); [discriminate | exact IH].
Qed.

Lemma dict_del_app_fresh (k : key) (v : Z) (d : list (key * Z)) :
  dict_get k d = None -> dict_del k (d ++ [(k, v)]) = d.
Proof.
  induction d as [|[k' v'] d IH]; simpl.
  - intros _. rewrite decide_True by reflexivity. reflexivity.
  - destruct (decide (k = k')); [discriminate|].
    intros H. rewrite IH by exact H. reflexivity.
Qed.

(** X1: when [path] holds offset [o] and has no entry of its own in
    [free_offsets], [deallocate(path)] followed by [allocate(path)] gives
    the allocator back as it was: the path gets [o] again, whatever
    smaller offsets are free.  Both files. *)
Theorem slot_round_trip (path : string) (o : Z) (a : Alloc) :
  allocated_offsets a !! path = Some o ->
  dict_get (KPath path) (free_offsets a) = None ->
  Shock.allocate path (deallocate path a) = (inr tt, a) /\
  Deadlock.allocate path (deallocate path a) = (inr tt, a).
Proof.
  intros Hp Hfresh. destruct a as [al fr]. simpl in *.
  unfold deallocate. simpl. rewrite Hp. rewrite (dict_set_fresh _ _ _ Hfresh).
  unfold Shock.allocate, Deadlock.allocate, choose. simpl.
  rewrite (dict_get_app_fresh _ o _ Hfresh). simpl.
  rewrite (dict_get_app_fresh _ o _ Hfresh).
  rewrite bool_decide_eq_true_2 by (eexists; reflexivity).
  rewrite (dict_del_app_fresh _ o _ Hfresh).
  rewrite insert_delete_id by exact Hp. split; reflexivity.
Qed.

Lemma slot_round_trip_witness :
  let a := snd (for_each ["/d1"; "/d2"] Shock.allocate alloc_init) in
  Shock.allocate "/d1" (deallocate "/d1" a) = (inr tt, a) /\
  Deadlock.allocate "/d1" (deallocate "/d1" a) = (inr tt, a).
Proof.
  apply (slot_round_trip "/d1" 0); reflexivity.
Defined.

Lemma kept_values (a : Alloc) (o : Z) :
  slots_kept a -> o ∈ held a ++ spare a -> o = SENTINEL \/ o ∈ OFFSETS.
Proof.
  intros [Hperm _ _] Ho.
  destruct (decide (o = SENTINEL)) as [-> | Hne]; [left; reflexivity | right].
  rewrite <- Hperm. apply list_elem_of_filter. split; [exact Hne | exact Ho].
Qed.

Lemma held_distinct (a : Alloc) (p q : string) (o1 o2 : Z) :
  slots_kept a -> allocated_offsets a !! p = Some o1 ->
  allocated_offsets a !! q = Some o2 -> p <> q ->
  o1 <> SENTINEL -> o2 <> SENTINEL ->
  o1 ∈ OFFSETS /\ o2 ∈ OFFSETS /\ o1 <> o2.
Proof.
  intros Hk Hp Hq Hne Hs1 Hs2.
  assert (Hq' : delete p (allocated_offsets a) !! q = Some o2)
    by (rewrite lookup_delete_ne by exact Hne; exact Hq).
  assert (Hin2 : o2 ∈ (map_to_list (delete p (allocated_offsets a))).*2).
  { apply list_elem_of_fmap. exists (q, o2). split; [reflexivity|].
    apply elem_of_map_to_list. exact Hq'. }
  assert (Hheld : held a ≡ₚ o1 :: (map_to_list (delete p (allocated_offsets a))).*2).
  { unfold held. rewrite <- (map_to_list_delete _ _ _ Hp). reflexivity. }
  assert (Hall : forall o, o ∈ held a -> o <> SENTINEL -> o ∈ OFFSETS).
  { intros o Ho Hs. destruct (kept_values a o Hk) as [-> | H];
      [apply elem_of_app; left; exact Ho | congruence | exact H]. }
  destruct Hk as [Hperm _ _].
  assert (Hnd : NoDup (filter is_slot (held a ++ spare a))).
  { rewrite Hperm. apply (bool_decide_unpack _). vm_compute. exact I. }
  rewrite filter_app in Hnd. apply NoDup_app in Hnd as (Hnd & _ & _).
  rewrite Hheld in Hnd. rewrite filter_cons_True in Hnd by exact Hs1.
  apply NoDup_cons in Hnd as [Hout _].
  split; [|split].
  - apply Hall; [rewrite Hheld; left | exact Hs1].
  - apply Hall; [rewrite Hheld; right; exact Hin2 | exact Hs2].
  - intros ->. apply Hout. apply list_elem_of_filter. split; [exact Hs2 | exact Hin2].
Qed.

(** X2: in every allocator state the two files can reach, by [deallocate]
    for any path and by [allocate] for a path that holds no slot, with or
    without a free offset left, two different paths whose offsets are not
    the overflow value [1e9] hold different offsets out of {0,4,...,20}:
    their channel ranges [offset .. offset+3] do not meet and lie inside
    the 24 channels. *)
Theorem channel_ranges_disjoint (a : Alloc) (p q : string) (o1 o2 : Z) :
  caller_reach Shock.allocate a \/ caller_reach Deadlock.allocate a ->
  allocated_offsets a !! p = Some o1 ->
  allocated_offsets a !! q = Some o2 -> p <> q ->
  o1 <> SENTINEL -> o2 <> SENTINEL ->
  forall i j, 0 <= i < 4 -> 0 <= j < 4 ->
    o1 + i <> o2 + j /\ 0 <= o1 + i < 24 /\ 0 <= o2 + j < 24.
Proof.
  intros Hreach Hp Hq Hne Hs1 Hs2 i j Hi Hj.
  destruct (held_distinct a p q o1 o2 (caller_reach_kept a Hreach) Hp Hq Hne Hs1 Hs2)
    as (H1 & H2 & Hd).
  unfold OFFSETS in H1, H2.
  repeat (apply elem_of_cons in H1 as [-> | H1];
          [repeat (apply elem_of_cons in H2 as [-> | H2]; [lia|]);
           apply elem_of_nil in H2 as []|]).
  apply elem_of_nil in H1 as [].
Qed.

Lemma channel_ranges_disjoint_witness :
  0 + 3 <> 4 + 0 /\ 0 <= 0 + 3 < 24 /\ 0 <= 4 + 0 < 24.
Proof.
  pose (a := snd (Shock.allocate "/d2" (snd (Shock.allocate "/d1" alloc_init)))).
  apply (channel_ranges_disjoint a "/d1" "/d2" 0 4); [| | | | | |lia|lia].
  - left. apply (reach_allocate Shock.allocate _ "/d2").
    + apply (reach_allocate Shock.allocate _ "/d1"); [apply reach_init | reflexivity].
    + reflexivity.
  - reflexivity.
  - reflexivity.
  - discriminate.
  - discriminate.
  - discriminate.
Defined.

Lemma filter_all {A} (P : A -> Prop) `{forall x, Decision (P x)} (l : list A) :
  (forall x, x ∈ l -> P x) -> filter P l = l.
Proof.
  induction l as [|x l IH]; intros Hall; [reflexivity|].
  rewrite filter_cons_True by (apply Hall; left).
  rewrite IH by (intros y Hy; apply Hall; right; exact Hy). reflexivity.
Qed.

(** X28: in every allocator state the two files can reach, every offset
    held or free is one of {0,4,...,20} or the overflow value [1e9], and
    the partition invariant of the six offsets holds exactly as long as
    [1e9] has not been recorded: nothing but an [allocate] made with no
    free offset left breaks it. *)
Theorem partition_until_overflow (a : Alloc) :
  caller_reach Shock.allocate a \/ caller_reach Deadlock.allocate a ->
  (forall o, o ∈ held a ++ spare a -> o = SENTINEL \/ o ∈ OFFSETS) /\
  (slots_partition a <-> SENTINEL ∉ held a ++ spare a).
Proof.
  intros Hreach. pose proof (caller_reach_kept a Hreach) as Hk.
  split; [intros o; apply kept_values, Hk|].
  split.
  - intros (Hall & _ & _) Hin. apply elem_of_app in Hin. apply Hall in Hin.
    unfold OFFSETS, SENTINEL in Hin.
    repeat (apply elem_of_cons in Hin as [Hin | Hin]; [discriminate Hin|]).
    apply elem_of_nil in Hin as [].
  - intros Hout. apply alloc_inv_partition. destruct Hk as [Hperm Hkeys Hapart].
    split; [|exact Hkeys | exact Hapart].
    rewrite <- Hperm. rewrite filter_all; [reflexivity|].
    intros o Ho Heq. apply Hout. rewrite <- Heq. exact Ho.
Qed.

Lemma partition_until_overflow_witness :
  (forall o, o ∈ held (snd (Deadlock.allocate "/d7" alloc_full))
                 ++ spare (snd (Deadlock.allocate "/d7" alloc_full)) ->
             o = SENTINEL \/ o ∈ OFFSETS) /\
  (slots_partition (snd (Deadlock.allocate "/d7" alloc_full)) <->
   SENTINEL ∉ held (snd (Deadlock.allocate "/d7" alloc_full))
              ++ spare (snd (Deadlock.allocate "/d7" alloc_full))).
Proof.
  apply (partition_until_overflow (snd (Deadlock.allocate "/d7" alloc_full))).
  right. apply reach_allocate; [apply alloc_full_reached | reflexivity].
Defined.

(** X27: when [free_offsets] is a non-empty dict of offsets below
    the scan's start value [1e9] and holds no entry under [path], then
    [allocate(path)] returns normally in both files, the offset it records
    for [path] is the least offset in [free_offsets], and the entry that
    carried it is taken out of [free_offsets]. *)
Theorem allocate_smallest (path : string) (a : Alloc) :
  NoDup (free_offsets a).*1 ->
  (forall kv, kv ∈ free_offsets a -> snd kv < SENTINEL) ->
  free_offsets a ≠ [] ->
  dict_get (KPath path) (free_offsets a) = None ->
  exists k m a',
    Shock.allocate path a = (inr tt, a') /\
    Deadlock.allocate path a = (inr tt, a') /\
    allocated_offsets a' !! path = Some m /\
    m ∈ spare a /\ (forall o, o ∈ spare a -> m <= o) /\
    dict_get k (free_offsets a) = Some m /\
    free_offsets a' = dict_del k (free_offsets a).
Proof.
  intros Hnd Hlow Hne Hown.
  destruct (allocate_ok path a Hnd Hne Hlow) as (k & m & Hget & _ & Hmin & Hs & Hd).
  exists k, m, (mkAlloc (<[path := m]> (allocated_offsets a)) (dict_del k (free_offsets a))).
  repeat split; try assumption.
  - simpl. apply lookup_insert_eq.
  - unfold spare. apply list_elem_of_fmap. exists (k, m).
    split; [reflexivity | apply dict_get_elem, Hget].
  - intros o Ho. unfold spare in Ho. apply list_elem_of_fmap in Ho as (kv & -> & Hkv).
    apply Hmin; assumption.
Qed.

Lemma allocate_smallest_witness :
  exists k m a',
    Shock.allocate "/d2" (snd (Shock.allocate "/d1" alloc_init)) = (inr tt, a') /\
    Deadlock.allocate "/d2" (snd (Shock.allocate "/d1" alloc_init)) = (inr tt, a') /\
    allocated_offsets a' !! "/d2" = Some m /\
    m ∈ spare (snd (Shock.allocate "/d1" alloc_init)) /\
    (forall o, o ∈ spare (snd (Shock.allocate "/d1" alloc_init)) -> m <= o) /\
    dict_get k (free_offsets (snd (Shock.allocate "/d1" alloc_init))) = Some m /\
    free_offsets a' = dict_del k (free_offsets (snd (Shock.allocate "/d1" alloc_init))).
Proof.
  apply (allocate_smallest "/d2" (snd (Shock.allocate "/d1" alloc_init))).
  - apply (bool_decide_unpack _). vm_compute. exact I.
  - intros kv Hkv. vm_compute in Hkv.
    repeat (apply elem_of_cons in Hkv as [-> | Hkv]; [reflexivity|]).
    apply elem_of_nil in Hkv as [].
  - discriminate.
  - reflexivity.
Defined.


Lemma update_all_float {D} (upd : Z -> float -> M Register unit)
    (v : float) (vs : list float) (w : World D) :
  update_all upd SENTINEL (v :: vs) w = (inl TypeError, w).
Proof. reflexivity. Qed.

(** X3: with [free_offsets] empty, [allocate] records the scan's start
    value [1e9] as the path's offset (shock.py then raises [KeyError],
    deadlock.py returns); from then on every well-formed temperature
    packet for that path makes [update_temperatures] raise [TypeError] at
    its first register access, the index [offset+i] being a float, and
    nothing is changed. *)
Theorem beyond_capacity :
  (forall path a, free_offsets a = [] ->
     Shock.allocate path a
       = (inl KeyError, mkAlloc (<[path := SENTINEL]> (allocated_offsets a)) []) /\
     Deadlock.allocate path a
       = (inr tt, mkAlloc (<[path := SENTINEL]> (allocated_offsets a)) [])) /\
  (forall path data (ws : World Shock.DeviceProxy) (wd : World Deadlock.InkbirdDevice),
     (12 <= length data)%nat -> slice data 8 12 = TRAILER ->
     allocated_offsets (alloc ws) !! path = Some SENTINEL ->
     allocated_offsets (alloc wd) !! path = Some SENTINEL ->
     Shock.update_temperatures path data ws = (inl TypeError, ws) /\
     Deadlock.update_temperatures path data wd = (inl TypeError, wd)).
Proof.
  split.
  - intros path a Hfree. unfold Shock.allocate, Deadlock.allocate, choose.
    rewrite Hfree. simpl. split; reflexivity.
  - intros path data ws wd Hlen Htr Hs Hd.
    do 8 (destruct data as [|? data]; [simpl in Hlen; lia|]).
    split.
    + unfold Shock.update_temperatures.
      rewrite bool_decide_eq_false_2 by (intros Hne; exact (Hne Htr)).
      unfold and_then at 1. rewrite t4vec_packet.
      unfold and_then at 1, item at 1. rewrite Hs. cbn [lookup_or ret].
      apply update_all_float.
    + unfold Deadlock.update_temperatures.
      destruct (Z.ltb_spec (Z.of_nat (length (z :: z0 :: z1 :: z2 :: z3 :: z4 :: z5 :: z6 :: data))) 12);
        [lia|].
      rewrite bool_decide_eq_false_2 by (intros Hne; exact (Hne Htr)). cbn [orb].
      unfold and_then at 1. rewrite t4vec_packet.
      unfold and_then at 1, item at 1. rewrite Hd. cbn [lookup_or ret].
      apply update_all_float.
Qed.

Lemma beyond_capacity_witness :
  let a := snd (Deadlock.allocate "/d7" alloc_full) in
  Shock.update_temperatures "/d7" packet_25 (set_alloc a (world_init 0%float))
    = (inl TypeError, set_alloc a (world_init 0%float)) /\
  Deadlock.update_temperatures "/d7" packet_25 (set_alloc a (world_init 0%float))
    = (inl TypeError, set_alloc a (world_init 0%float)).
Proof.
  intros a. destruct beyond_capacity as [_ H].
  apply (H "/d7" packet_25);
    first [ reflexivity | unfold packet_25, packet; simpl; lia ].
Defined.

(** ** Register updates: which channels they touch, that they keep the
       arrays' lengths, and when they cannot raise *)

Lemma preserves_for_each_in {S A} (I : S -> Prop) (l : list A) (body : A -> M S unit) :
  (forall a, a ∈ l -> preserves I (body a)) -> preserves I (for_each l body).
Proof.
  induction l as [|a l IH]; intros Hb; simpl.
  - apply preserves_ret.
  - apply preserves_bind.
    + apply Hb. left.
    + intros _. apply IH. intros b Hin. apply Hb. right. exact Hin.
Qed.

Lemma setitem_other {A} (l l' : list A) (c : Z) (x : A) (j : nat) :
  0 <= c -> c <> Z.of_nat j -> setitem l c x = Some l' -> l' !! j = l !! j.
Proof.
  intros Hc Hne Hset. unfold setitem, py_index in Hset.
  destruct (Z.leb_spec 0 c); [|lia].
  destruct (Z.ltb_spec c (Z.of_nat (length l))); simpl in Hset.
  - inversion Hset; subst. apply list_lookup_insert_ne. lia.
  - destruct (Z.ltb_spec c 0); [lia|]. rewrite andb_false_r in Hset. discriminate.
Qed.

Lemma frame_update_channel (c : Z) (v : float) (j : nat) ch :
  0 <= c -> c <> Z.of_nat j ->
  preserves (fun r => channel j r = ch) (Shock.update_channel c v) /\
  preserves (fun r => channel j r = ch) (Deadlock.update_channel c v).
Proof.
  intros Hc Hne.
  assert (Hws : forall x, preserves (fun r => channel j r = ch)
                            (write thermostamp set_thermostamp c x)).
  { intros x. apply preserves_write. intros l r H Hset. unfold channel in *. simpl.
    rewrite (setitem_other _ _ _ _ _ Hc Hne Hset). exact H. }
  assert (Hwf : forall x, preserves (fun r => channel j r = ch)
                            (write thermofilter set_thermofilter c x)).
  { intros x. apply preserves_write. intros l r H Hset. unfold channel in *. simpl.
    rewrite (setitem_other _ _ _ _ _ Hc Hne Hset). exact H. }
  assert (Hwc : forall x, preserves (fun r => channel j r = ch)
                            (write thermocount set_thermocount c x)).
  { intros x. apply preserves_write. intros l r H Hset. unfold channel in *. simpl.
    rewrite (setitem_other _ _ _ _ _ Hc Hne Hset). exact H. }
  split.
  - unfold Shock.update_channel.
    preserves_structure;
      first [ apply preserves_read | apply preserves_is_redundant
            | apply Hws | apply Hwf | apply Hwc
            | apply preserves_modify; intros r H; exact H ].
  - unfold Deadlock.update_channel.
    preserves_structure;
      first [ apply preserves_read | apply preserves_is_redundant
            | apply Hws | apply Hwf | apply Hwc
            | apply preserves_modify; intros r H; exact H ].
Qed.

Lemma frame_update_all {D} (upd : Z -> float -> M Register unit)
    (offset : Z) (vec : list float) (j : nat) ch :
  (forall c v, 0 <= c -> c <> Z.of_nat j -> preserves (fun r => channel j r = ch) (upd c v)) ->
  0 <= offset ->
  Z.of_nat j < offset \/ offset + Z.of_nat (length vec) <= Z.of_nat j ->
  preserves (on_register (D:=D) (fun r => channel j r = ch)) (update_all upd offset vec).
Proof.
  intros Hupd Hoff Hout. unfold update_all.
  apply preserves_for_each_in. intros [k v] Hin.
  apply elem_of_lookup_imap in Hin as (i & y & Heq & Hy). inversion Heq; subst.
  apply lookup_lt_Some in Hy.
  destruct (offset =? SENTINEL); [apply preserves_raise|].
  apply preserves_on_reg. simpl. apply Hupd; lia.
Qed.

Lemma map_m_pure {S A B} (f : A -> M S B) (l : list A) (s : S) :
  (forall a s, snd (f a s) = s) ->
  snd (map_m f l s) = s /\
  forall bs, fst (map_m f l s) = inr bs -> length bs = length l.
Proof.
  intros Hf. revert s. induction l as [|a l IH]; intros s; simpl.
  - split; [reflexivity|]. intros bs [= <-]. reflexivity.
  - unfold and_then. specialize (Hf a s).
    destruct (f a s) as [[e|b] s1]; simpl in Hf; subst s1.
    + split; [reflexivity | discriminate].
    + destruct (IH s) as [Hs Hl]. destruct (map_m f l s) as [[e|bs] s2]; simpl in *; subst s2.
      * split; [reflexivity | discriminate].
      * split; [reflexivity|]. intros bs' [= <-]. simpl. f_equal. apply Hl. reflexivity.
Qed.

Lemma t4vec_pure {S} (data : list Z) (s : S) :
  snd (t4vec data s) = s /\
  forall vec, fst (t4vec data s) = inr vec -> length vec = 4%nat.
Proof.
  apply (map_m_pure _ [0; 1; 2; 3]%nat s). intros i s'. unfold temperature_star.
  destruct (slice data (2 * i) (2 * i + 2)) as [|a [|b [|c l]]]; reflexivity.
Qed.

(** X4: [update_temperatures] for a device at offset [offset >= 0] leaves
    every channel outside [offset .. offset+3] exactly as it was: value,
    filter and counter.  Both files, any payload, whether or not the call
    raises. *)
Theorem update_touches_own_channels (path : string) (data : list Z) (offset : Z)
    (j : nat) (ws : World Shock.DeviceProxy) (wd : World Deadlock.InkbirdDevice) :
  allocated_offsets (alloc ws) !! path = Some offset ->
  allocated_offsets (alloc wd) !! path = Some offset ->
  0 <= offset -> Z.of_nat j < offset \/ offset + 4 <= Z.of_nat j ->
  channel j (reg (snd (Shock.update_temperatures path data ws))) = channel j (reg ws) /\
  channel j (reg (snd (Deadlock.update_temperatures path data wd))) = channel j (reg wd).
Proof.
  intros Hs Hd Hoff Hout. split.
  - unfold Shock.update_temperatures.
    destruct (bool_decide (slice data 8 12 ≠ TRAILER)); [reflexivity|].
    unfold and_then at 1. destruct (t4vec_pure data ws) as [Hst Hlen].
    destruct (t4vec data ws) as [[e | vec] w1]; simpl in Hst; subst w1; [reflexivity|].
    unfold and_then at 1, item at 1. rewrite Hs. cbn [lookup_or ret].
    apply (frame_update_all Shock.update_channel offset vec j (channel j (reg ws))).
    + intros c v Hc Hne. apply frame_update_channel; assumption.
    + exact Hoff.
    + rewrite (Hlen vec eq_refl). exact Hout.
    + reflexivity.
  - unfold Deadlock.update_temperatures.
    destruct ((Z.of_nat (length data) <? 12) || bool_decide (slice data 8 12 ≠ TRAILER));
      [reflexivity|].
    unfold and_then at 1. destruct (t4vec_pure data wd) as [Hst Hlen].
    destruct (t4vec data wd) as [[e | vec] w1]; simpl in Hst; subst w1; [reflexivity|].
    unfold and_then at 1, item at 1. rewrite Hd. cbn [lookup_or ret].
    apply (frame_update_all Deadlock.update_channel offset vec j (channel j (reg wd))).
    + intros c v Hc Hne. apply frame_update_channel; assumption.
    + exact Hoff.
    + rewrite (Hlen vec eq_refl). exact Hout.
    + reflexivity.
Qed.

Lemma update_touches_own_channels_witness :
  channel 4 (reg (snd (Shock.update_temperatures "/d1" packet_25 (world_with_slot "/d1"))))
    = channel 4 (reg (world_with_slot (D:=Shock.DeviceProxy) "/d1")) /\
  channel 4 (reg (snd (Deadlock.update_temperatures "/d1" packet_25 (world_with_slot "/d1"))))
    = channel 4 (reg (world_with_slot (D:=Deadlock.InkbirdDevice) "/d1")).
Proof.
  apply (update_touches_own_channels "/d1" packet_25 0 4); first [reflexivity | lia].
Defined.

Lemma setitem_length {A} (l l' : list A) (c : Z) (x : A) :
  setitem l c x = Some l' -> length l' = length l.
Proof.
  unfold setitem. destruct (py_index l c); [|discriminate].
  intros [= <-]. apply length_insert.
Qed.

Lemma lengths_update_channel (n : nat) (c : Z) (v : float) :
  preserves (lengths n) (Shock.update_channel c v) /\
  preserves (lengths n) (Deadlock.update_channel c v).
Proof.
  assert (Hws : forall x, preserves (lengths n) (write thermostamp set_thermostamp c x)).
  { intros x. apply preserves_write. intros l r (H1 & H2 & H3) Hset.
    unfold lengths. simpl. rewrite (setitem_length _ _ _ _ Hset). auto. }
  assert (Hwf : forall x, preserves (lengths n) (write thermofilter set_thermofilter c x)).
  { intros x. apply preserves_write. intros l r (H1 & H2 & H3) Hset.
    unfold lengths. simpl. rewrite (setitem_length _ _ _ _ Hset). auto. }
  assert (Hwc : forall x, preserves (lengths n) (write thermocount set_thermocount c x)).
  { intros x. apply preserves_write. intros l r (H1 & H2 & H3) Hset.
    unfold lengths. simpl. rewrite (setitem_length _ _ _ _ Hset). auto. }
  split.
  - unfold Shock.update_channel.
    preserves_structure;
      first [ apply preserves_read | apply preserves_is_redundant
            | apply Hws | apply Hwf | apply Hwc
            | apply preserves_modify; intros r H; exact H ].
  - unfold Deadlock.update_channel.
    preserves_structure;
      first [ apply preserves_read | apply preserves_is_redundant
            | apply Hws | apply Hwf | apply Hwc
            | apply preserves_modify; intros r H; exact H ].
Qed.

Lemma lengths_tick_counts (n : nat) (f : Z -> Z) : preserves (lengths n) (tick_counts f).
Proof.
  apply preserves_modify. intros r (H1 & H2 & H3). unfold lengths. simpl.
  rewrite length_map. auto.
Qed.

Ltac lengths_reg :=
  first [ apply lengths_update_channel
        | apply preserves_modify; intros ? ?; assumption
        | apply lengths_tick_counts ].

Ltac lengths_world :=
  preserves_structure;
  first
    [ apply preserves_reg_frame; intros ?;
      first [ apply on_alloc_reg | apply item_reg | apply bus_call_reg
            | apply start_timer_reg | apply cancel_timer_reg ]
    | apply preserves_modify; intros ? ?; assumption
    | apply preserves_on_reg; lengths_reg ].

Lemma lengths_shock_event n fails e :
  preserves (on_register (lengths n)) (shock_event fails e).
Proof.
  destruct e as [path value | now | path]; simpl.
  - unfold Shock.temperature_callback, Shock.update_temperatures, update_all.
    rewrite lookup_singleton_eq. lengths_world.
  - unfold Shock.logger, logger_with, unstall. lengths_world.
  - unfold Shock.teardown_device, stop_notifications, bus_call_swallowed,
      drop_characteristics, drop_bind, free_slot.
    lengths_world.
Qed.

Lemma lengths_deadlock_event n fails e :
  preserves (on_register (lengths n)) (deadlock_event fails e).
Proof.
  destruct e as [path value | now | path]; simpl.
  - unfold Deadlock.temperature_callback, Deadlock.update_temperatures, update_all.
    rewrite lookup_singleton_eq. lengths_world.
  - unfold Deadlock.logger, logger_with, unstall. lengths_world.
  - unfold Deadlock.teardown_device, Deadlock.transition, Deadlock.cancel_retry,
      Deadlock.on_device, stop_notifications, bus_call_swallowed,
      drop_characteristics, drop_bind, free_slot.
    lengths_world.
Qed.

(** X5: the three register arrays have 24 entries at start-up and keep
    their lengths through any sequence of notifications, logger runs and
    teardowns, in both files, also when a handler raises. *)
Theorem register_lengths_kept :
  (forall t0, lengths 24 (register_init t0)) /\
  (forall n trace (w : World Shock.DeviceProxy),
     lengths n (reg w) -> lengths n (reg (run shock_event trace w))) /\
  (forall n trace (w : World Deadlock.InkbirdDevice),
     lengths n (reg w) -> lengths n (reg (run deadlock_event trace w))).
Proof.
  split; [|split].
  - intros t0. unfold lengths, register_init. cbn [thermostamp thermofilter thermocount].
    rewrite !length_replicate. auto.
  - intros n trace w H.
    apply (run_invariant (on_register (lengths n)) shock_event
             (lengths_shock_event n) trace w H).
  - intros n trace w H.
    apply (run_invariant (on_register (lengths n)) deadlock_event
             (lengths_deadlock_event n) trace w H).
Qed.

Lemma register_lengths_kept_witness :
  lengths 24 (reg (run shock_event
                     ((no_failure, EvNotify "/d1" packet_25) :: rising_trace "/d1" 1 3)
                     (shock_known "/d1"))).
Proof.
  destruct register_lengths_kept as (Hinit & Hshock & _).
  apply Hshock. apply Hinit.
Defined.

(** *** Updates that cannot raise *)

Section Succeeds.
Context {S : Type} (I : S -> Prop).

Lemma succeeds_ret {A} (a : A) : succeeds I (ret a).
Proof. intros s H. split; [exists a; reflexivity | exact H]. Qed.

Lemma succeeds_gets {A} (f : S -> A) : succeeds I (gets f).
Proof. intros s H. split; [exists (f s); reflexivity | exact H]. Qed.

Lemma succeeds_modify (f : S -> S) :
  (forall s, I s -> I (f s)) -> succeeds I (modify f).
Proof. intros Hf s H. split; [exists tt; reflexivity | apply Hf, H]. Qed.

Lemma succeeds_bind {A B} (m : M S A) (k : A -> M S B) :
  succeeds I m -> (forall a, succeeds I (k a)) -> succeeds I (and_then m k).
Proof.
  intros Hm Hk s H. unfold and_then. destruct (Hm s H) as [[a Ha] HI].
  destruct (m s) as [[e | a'] s']; simpl in *; [discriminate|].
  apply Hk, HI.
Qed.

Lemma succeeds_for_each_in {A} (l : list A) (body : A -> M S unit) :
  (forall a, a ∈ l -> succeeds I (body a)) -> succeeds I (for_each l body).
Proof.
  induction l as [|a l IH]; intros Hb; simpl.
  - apply succeeds_ret.
  - apply succeeds_bind.
    + apply Hb. left.
    + intros _. apply IH. intros b Hin. apply Hb. right. exact Hin.
Qed.
End Succeeds.

Lemma py_index_within {A} (l : list A) (c : Z) :
  0 <= c < Z.of_nat (length l) -> py_index l c = Some (Z.to_nat c).
Proof.
  intros H. unfold py_index.
  destruct (Z.leb_spec 0 c); [|lia].
  destruct (Z.ltb_spec c (Z.of_nat (length l))); [reflexivity | lia].
Qed.

Lemma succeeds_read {A} (n : nat) (arr : Register -> list A) (c : Z) :
  (forall r, lengths n r -> length (arr r) = n) ->
  0 <= c < Z.of_nat n -> succeeds (lengths n) (read arr c).
Proof.
  intros Harr Hc r H. unfold read, getitem.
  rewrite py_index_within by (rewrite (Harr r H); exact Hc).
  destruct (lookup_lt_is_Some_2 (arr r) (Z.to_nat c)) as [x Hx];
    [rewrite (Harr r H); lia|].
  rewrite Hx. split; [exists x; reflexivity | exact H].
Qed.

Lemma succeeds_write {A} (n : nat) (arr : Register -> list A) set (c : Z) (x : A) :
  (forall r, lengths n r -> length (arr r) = n) ->
  (forall l r, lengths n r -> length l = length (arr r) -> lengths n (set l r)) ->
  0 <= c < Z.of_nat n -> succeeds (lengths n) (write arr set c x).
Proof.
  intros Harr Hset Hc r H. unfold write, setitem.
  rewrite py_index_within by (rewrite (Harr r H); exact Hc).
  split; [exists tt; reflexivity|]. simpl. apply Hset; [exact H | apply length_insert].
Qed.

Ltac lengths_field :=
  first [ intros ? (? & ? & ?); assumption
        | intros ? ? (? & ? & ?) ?; unfold lengths; simpl; repeat split; congruence ].

Ltac succeeds_structure :=
  repeat first
    [ apply succeeds_ret | apply succeeds_gets
    | apply succeeds_bind; [|intros ?]
    | apply succeeds_read; [lengths_field | assumption]
    | apply succeeds_write; [lengths_field | lengths_field | assumption]
    | apply succeeds_modify; intros ? ?; assumption
    | match goal with
      | |- succeeds _ (match ?x with _ => _ end) => destruct x
      end ].

Lemma succeeds_update_channel (n : nat) (c : Z) (v : float) :
  0 <= c < Z.of_nat n ->
  succeeds (lengths n) (Shock.update_channel c v) /\
  succeeds (lengths n) (Deadlock.update_channel c v).
Proof.
  intros Hc. split.
  - unfold Shock.update_channel, is_redundant, first_stamp. succeeds_structure.
  - unfold Deadlock.update_channel, is_redundant, first_stamp. succeeds_structure.
Qed.

Lemma succeeds_on_reg {D A} (J : Register -> Prop) (m : M Register A) :
  succeeds J m -> succeeds (on_register (D:=D) J) (on_reg m).
Proof.
  intros Hm w H. unfold on_register, on_reg, zoom in *.
  destruct (Hm (reg w) H) as [[a Ha] HJ]. destruct (m (reg w)) as [res t].
  simpl in *. split; [exists a; exact Ha | exact HJ].
Qed.

Lemma succeeds_update_all {D} (n : nat) (upd : Z -> float -> M Register unit)
    (offset : Z) (vec : list float) :
  (forall c v, 0 <= c < Z.of_nat n -> succeeds (lengths n) (upd c v)) ->
  offset <> SENTINEL ->
  0 <= offset -> offset + Z.of_nat (length vec) <= Z.of_nat n ->
  succeeds (on_register (D:=D) (lengths n)) (update_all upd offset vec).
Proof.
  intros Hupd Hint Hoff Hfit. unfold update_all.
  apply succeeds_for_each_in. intros [k v] Hin.
  apply elem_of_lookup_imap in Hin as (i & y & Heq & Hy). inversion Heq; subst.
  apply lookup_lt_Some in Hy.
  destruct (Z.eqb_spec offset SENTINEL) as [Heq' | _]; [contradiction|].
  apply succeeds_on_reg. simpl. apply Hupd. lia.
Qed.

Lemma trailer_decodes {S} (data : list Z) (s : S) :
  slice data 8 12 = TRAILER ->
  exists vec, t4vec data s = (inr vec, s) /\ length vec = 4%nat.
Proof.
  intros Heq.
  destruct data as [|d0 [|d1 [|d2 [|d3 [|d4 [|d5 [|d6 [|d7 rest]]]]]]]];
    try discriminate Heq.
  eexists. split; [apply t4vec_packet | reflexivity].
Qed.

(** X6: for a device whose offset is an int, not the float [1e9], and
    lies within the arrays ([0 <= offset], [offset + 4 <= n], all three
    arrays of length [n]), [update_temperatures] returns normally on
    every payload, and the arrays keep their length.  Both files. *)
Theorem update_within_arrays_returns (path : string) (data : list Z) (offset : Z)
    (n : nat) (ws : World Shock.DeviceProxy) (wd : World Deadlock.InkbirdDevice) :
  allocated_offsets (alloc ws) !! path = Some offset ->
  allocated_offsets (alloc wd) !! path = Some offset ->
  lengths n (reg ws) -> lengths n (reg wd) ->
  offset <> SENTINEL ->
  0 <= offset -> offset + 4 <= Z.of_nat n ->
  (fst (Shock.update_temperatures path data ws) = inr tt /\
   lengths n (reg (snd (Shock.update_temperatures path data ws)))) /\
  (fst (Deadlock.update_temperatures path data wd) = inr tt /\
   lengths n (reg (snd (Deadlock.update_temperatures path data wd)))).
Proof.
  intros Hs Hd Hls Hld Hint Hoff Hfit. split.
  - unfold Shock.update_temperatures.
    destruct (bool_decide (slice data 8 12 ≠ TRAILER)) eqn:E; [split; [reflexivity | exact Hls]|].
    apply bool_decide_eq_false in E. apply dec_stable in E.
    destruct (trailer_decodes data ws E) as (vec & Hvec & Hlen).
    assert (Hrun : and_then (t4vec data)
                     (fun vec => and_then (item (fun w => allocated_offsets (alloc w)) path)
                                   (fun offset => update_all Shock.update_channel offset vec)) ws
                   = update_all Shock.update_channel offset vec ws).
    { rewrite (and_then_run _ _ _ _ _ Hvec). unfold and_then at 1, item at 1.
      rewrite Hs. reflexivity. }
    rewrite Hrun.
    destruct (succeeds_update_all (D:=Shock.DeviceProxy) n Shock.update_channel offset vec)
      with (s := ws) as [[[] Ha] HI].
    + intros c v Hc. apply succeeds_update_channel, Hc.
    + exact Hint.
    + exact Hoff.
    + rewrite Hlen. exact Hfit.
    + exact Hls.
    + split; [exact Ha | exact HI].
  - unfold Deadlock.update_temperatures.
    destruct (Z.of_nat (length data) <? 12); [split; [reflexivity | exact Hld]|].
    cbn [orb].
    destruct (bool_decide (slice data 8 12 ≠ TRAILER)) eqn:E; [split; [reflexivity | exact Hld]|].
    apply bool_decide_eq_false in E. apply dec_stable in E.
    destruct (trailer_decodes data wd E) as (vec & Hvec & Hlen).
    assert (Hrun : and_then (t4vec data)
                     (fun vec => and_then (item (fun w => allocated_offsets (alloc w)) path)
                                   (fun offset => update_all Deadlock.update_channel offset vec)) wd
                   = update_all Deadlock.update_channel offset vec wd).
    { rewrite (and_then_run _ _ _ _ _ Hvec). unfold and_then at 1, item at 1.
      rewrite Hd. reflexivity. }
    rewrite Hrun.
    destruct (succeeds_update_all (D:=Deadlock.InkbirdDevice) n Deadlock.update_channel offset vec)
      with (s := wd) as [[[] Ha] HI].
    + intros c v Hc. apply succeeds_update_channel, Hc.
    + exact Hint.
    + exact Hoff.
    + rewrite Hlen. exact Hfit.
    + exact Hld.
    + split; [exact Ha | exact HI].
Qed.

Lemma update_within_arrays_returns_witness :
  (fst (Shock.update_temperatures "/d1" packet_25 (world_with_slot "/d1")) = inr tt /\
   lengths 24 (reg (snd (Shock.update_temperatures "/d1" packet_25 (world_with_slot "/d1"))))) /\
  (fst (Deadlock.update_temperatures "/d1" packet_25 (world_with_slot "/d1")) = inr tt /\
   lengths 24 (reg (snd (Deadlock.update_temperatures "/d1" packet_25 (world_with_slot "/d1"))))).
Proof.
  apply (update_within_arrays_returns "/d1" packet_25 0 24);
    first [reflexivity | discriminate | lia
          | (unfold lengths; simpl; repeat split; reflexivity)].
Defined.

(** ** The logger: log lines and rescheduling *)

Lemma logger_with_stamped {D} fails threshold next now (w : World D) :
  stamp (reg w) = true ->
  let res := logger_with fails threshold next now w in
  fst res = inr tt /\ fout (snd res) = fout w ++ [log_line now (reg w)] /\
  stamp (reg (snd res)) = false /\ bus_log (snd res) = bus_log w /\
  timers (snd res) = timers w ++ [logger_timer].
Proof.
  intros Hst. unfold logger_with, and_then, gets. rewrite Hst. simpl.
  rewrite Hst. simpl. auto.
Qed.

Lemma logger_with_idle {D} fails threshold next now (w : World D) :
  stamp (reg w) = false ->
  let res := logger_with fails threshold next now w in
  fout (snd res) = fout w /\ stamp (reg (snd res)) = false /\
  timers (snd res) = match fst res with
                     | inr _ => timers w ++ [logger_timer]
                     | inl _ => timers w
                     end.
Proof.
  intros Hst.
  set (I := fun w' : World D =>
              fout w' = fout w /\ stamp (reg w') = false /\ timers w' = timers w).
  set (P := fun res : (exn + unit) * World D =>
              fout (snd res) = fout w /\ stamp (reg (snd res)) = false /\
              timers (snd res) = match fst res with
                                 | inr _ => timers w ++ [logger_timer]
                                 | inl _ => timers w
                                 end).
  assert (HI : I w) by (unfold I; auto).
  assert (Hun : preserves I (unstall fails now)).
  { unfold unstall. preserves_structure.
    - intros s H. unfold item. destruct (temperatures s !! _); exact H.
    - intros s H. unfold bus_call. destruct (fails _); exact H.
    - intros s H. exact H. }
  assert (Hrest : forall w1, I w1 ->
            P ((let* r := gets reg in
                let* _ :=
                  if stamp r then
                    let sample := thermostamp r in
                    let* _ := on_reg (modify (fun r => set_laststamp now (set_stamp false r))) in
                    let* _ := on_reg (tick_counts next) in
                    modify (fun w => set_fout (fout w ++ [(now, map rendered sample)]) w)
                  else ret tt in
                let* _ := start_timer 1%float tc_logger in
                ret tt) w1)).
  { intros w1 (Hf & Hs & Ht). unfold and_then, gets. rewrite Hs.
    unfold P, start_timer, ret, logger_timer. simpl. rewrite Ht. auto. }
  change (P (logger_with fails threshold next now w)).
  unfold logger_with. unfold and_then at 1, gets at 1. rewrite Hst.
  destruct (negb false && (threshold <? now - laststamp (reg w))%float).
  - specialize (Hun w HI). unfold and_then at 1.
    destruct (unstall fails now w) as [[e | []] w1]; simpl in Hun.
    + exact Hun.
    + apply Hrest, Hun.
  - unfold and_then at 1. cbn [ret]. apply Hrest, HI.
Qed.

(** X7: a run of [logger] appends one line to the log file when [stamp]
    is set (the time and the 24 samples, each shown as NaN unless it is
    below [MAXTEMP]) and none when it is clear; either way [stamp] is
    clear afterwards.  Both files, whatever the bus does. *)
Theorem logger_line_iff_stamp :
  (forall fails now (w : World Shock.DeviceProxy),
     let w' := snd (Shock.logger fails now w) in
     fout w' = (if stamp (reg w) then fout w ++ [log_line now (reg w)] else fout w) /\
     stamp (reg w') = false) /\
  (forall fails now (w : World Deadlock.InkbirdDevice),
     let w' := snd (Deadlock.logger fails now w) in
     fout w' = (if stamp (reg w) then fout w ++ [log_line now (reg w)] else fout w) /\
     stamp (reg w') = false).
Proof.
  split; intros fails now w; cbv zeta.
  - unfold Shock.logger. destruct (stamp (reg w)) eqn:Hst.
    + destruct (logger_with_stamped fails 30%float Shock.next_count now w Hst)
        as (_ & Hf & Hs & _). auto.
    + destruct (logger_with_idle fails 30%float Shock.next_count now w Hst)
        as (Hf & Hs & _). auto.
  - unfold Deadlock.logger. destruct (stamp (reg w)) eqn:Hst.
    + destruct (logger_with_stamped fails 120%float Deadlock.next_count now w Hst)
        as (_ & Hf & Hs & _). auto.
    + destruct (logger_with_idle fails 120%float Deadlock.next_count now w Hst)
        as (Hf & Hs & _). auto.
Qed.

(** X8: [logger] starts the one-second timer for its next run exactly
    when it returns normally; when an exception escapes from the stall
    branch no timer is started, so no later run is scheduled.  With
    [stamp] set it always returns normally and makes no bus call. *)
Theorem logger_reschedules_iff_returns :
  (forall fails now (w : World Shock.DeviceProxy),
     let res := Shock.logger fails now w in
     timers (snd res) = (if fst res is inr _ then timers w ++ [logger_timer] else timers w) /\
     (stamp (reg w) = true -> fst res = inr tt /\ bus_log (snd res) = bus_log w)) /\
  (forall fails now (w : World Deadlock.InkbirdDevice),
     let res := Deadlock.logger fails now w in
     timers (snd res) = (if fst res is inr _ then timers w ++ [logger_timer] else timers w) /\
     (stamp (reg w) = true -> fst res = inr tt /\ bus_log (snd res) = bus_log w)).
Proof.
  split; intros fails now w; cbv zeta.
  - unfold Shock.logger. destruct (stamp (reg w)) eqn:Hst.
    + destruct (logger_with_stamped fails 30%float Shock.next_count now w Hst)
        as (Hr & _ & _ & Hb & Ht). cbv zeta in *. rewrite Hr. auto.
    + destruct (logger_with_idle fails 30%float Shock.next_count now w Hst)
        as (_ & _ & Ht). cbv zeta in *. split; [|discriminate].
      rewrite Ht. destruct (fst _); reflexivity.
  - unfold Deadlock.logger. destruct (stamp (reg w)) eqn:Hst.
    + destruct (logger_with_stamped fails 120%float Deadlock.next_count now w Hst)
        as (Hr & _ & _ & Hb & Ht). cbv zeta in *. rewrite Hr. auto.
    + destruct (logger_with_idle fails 120%float Deadlock.next_count now w Hst)
        as (_ & _ & Ht). cbv zeta in *. split; [|discriminate].
      rewrite Ht. destruct (fst _); reflexivity.
Qed.

Lemma logger_reschedules_iff_returns_witness :
  fst (Shock.logger no_failure 1%float
         (set_reg (set_stamp true (register_init 0%float)) (world_init 0%float))) = inr tt.
Proof.
  destruct logger_reschedules_iff_returns as [Hs _].
  apply (Hs no_failure 1%float
           (set_reg (set_stamp true (register_init 0%float)) (world_init 0%float))).
  reflexivity.
Defined.

(** ** Teardown in closed form *)

Lemma stop_notifications_calls {D} fails p (w : World D) :
  stop_notifications fails p w = (inr tt, set_bus_log (bus_log w ++ stop_calls p w) w).
Proof.
  destruct w as [a r ink tmp cmd bat bnd gs ts lg fo].
  unfold stop_notifications, stop_calls, stop_call. simpl. unfold and_then, gets. simpl.
  destruct (tmp !! p) as [pt|]; [rewrite swallowed_spec|]; simpl;
    (destruct (cmd !! p) as [pc|]; [rewrite swallowed_spec|]; simpl;
     (destruct (bat !! p) as [pb|]; [rewrite swallowed_spec|]; simpl;
      unfold set_bus_log; simpl; rewrite <- ?app_assoc, ?app_nil_r; reflexivity)).
Qed.

Lemma shock_teardown_closed fails p (w : World Shock.DeviceProxy) :
  Shock.teardown_device fails p w
  = (inr tt,
     torn_down p (stop_calls p w
                  ++ (if inkbirds w !! p is Some _ then [Disconnect p] else [])
                  ++ [RemoveDevice p])
       (timers w) w).
Proof.
  unfold Shock.teardown_device. unfold and_then at 1.
  rewrite stop_notifications_calls.
  unfold and_then, gets. simpl.
  destruct (inkbirds w !! p); [rewrite swallowed_spec|]; simpl;
    rewrite swallowed_spec; unfold torn_down, set_bus_log; simpl;
    rewrite <- ?app_assoc; reflexivity.
Qed.

Lemma deadlock_teardown_closed fails p (dev : Deadlock.InkbirdDevice)
    (w : World Deadlock.InkbirdDevice) :
  inkbirds w !! p = Some dev ->
  Deadlock.teardown_device fails p w
  = (inr tt,
     torn_down p (stop_calls p w ++ [Disconnect (Deadlock.proxy dev); RemoveDevice p])
       (match Deadlock.retry_timer dev with
        | Some t => cancel_in t (timers w)
        | None => timers w
        end) w).
Proof.
  intros Hdev.
  unfold Deadlock.teardown_device. unfold and_then at 1, gets at 1. rewrite Hdev.
  unfold Deadlock.transition, Deadlock.cancel_retry, Deadlock.on_device.
  unfold and_then at 1, modify at 1.
  unfold and_then at 1. unfold and_then at 1, item at 1. simpl inkbirds.
  rewrite lookup_alter_eq, Hdev. simpl.
  destruct (Deadlock.retry_timer dev) as [t|];
    unfold and_then, cancel_timer, modify, ret; simpl;
    rewrite stop_notifications_calls;
    rewrite swallowed_spec; unfold drop_characteristics, drop_bind, free_slot,
      and_then, modify; simpl; rewrite swallowed_spec;
    unfold torn_down, set_bus_log, stop_calls, stop_call; simpl;
    rewrite !delete_alter_eq, <- ?app_assoc; reflexivity.
Qed.

Lemma dict_get_set_eq (k : key) (v : Z) (d : list (key * Z)) :
  dict_get k (dict_set k v d) = Some v.
Proof.
  induction d as [|[k' v'] d IH]; simpl.
  - rewrite decide_True by reflexivity. reflexivity.
  - destruct (decide (k = k')) as [-> | Hne]; simpl.
    + rewrite decide_True by reflexivity. reflexivity.
    + rewrite decide_False by exact Hne. exact IH.
Qed.

Lemma torn_down_released {D} (p : string) calls ts (w : World D) :
  released p w (torn_down p calls ts w).
Proof.
  split; unfold torn_down; simpl.
  - rewrite !lookup_delete_eq. repeat split.
    unfold deallocate. destruct (allocated_offsets (alloc w) !! p) eqn:E; simpl.
    + apply lookup_delete_eq.
    + exact E.
  - intros q Hq. rewrite !lookup_delete_ne by congruence. repeat split.
    unfold deallocate. destruct (allocated_offsets (alloc w) !! p); simpl.
    + apply lookup_delete_ne. congruence.
    + reflexivity.
  - intros o Ho. unfold deallocate. rewrite Ho. simpl. apply dict_get_set_eq.
  - auto.
Qed.

(** X9: [teardown_device] never raises, and a bus call that fails during
    it changes nothing: result and globals are those of a teardown on a
    bus where every call succeeds.  The calls are, in this order,
    [StopNotify] on the temperature, command and battery characteristic
    of the device (those it has), [Disconnect] (in shock.py only for a
    known device) and [RemoveDevice]; in deadlock.py an unknown device
    gets no call at all, in shock.py it still gets [RemoveDevice]. *)
Theorem teardown_calls_regardless :
  (forall fails p (w : World Shock.DeviceProxy),
     let res := Shock.teardown_device fails p w in
     fst res = inr tt /\ res = Shock.teardown_device no_failure p w /\
     bus_log (snd res)
       = bus_log w ++ stop_calls p w
           ++ (if inkbirds w !! p is Some _ then [Disconnect p] else [])
           ++ [RemoveDevice p]) /\
  (forall fails p (w : World Deadlock.InkbirdDevice),
     let res := Deadlock.teardown_device fails p w in
     fst res = inr tt /\ res = Deadlock.teardown_device no_failure p w /\
     bus_log (snd res)
       = bus_log w ++ match inkbirds w !! p with
                      | Some dev => stop_calls p w
                                      ++ [Disconnect (Deadlock.proxy dev); RemoveDevice p]
                      | None => []
                      end).
Proof.
  split; intros fails p w; cbv zeta.
  - rewrite !shock_teardown_closed. auto.
  - destruct (inkbirds w !! p) as [dev|] eqn:Hdev.
    + rewrite !(deadlock_teardown_closed _ p dev w Hdev). auto.
    + rewrite !(deadlock_teardown_absent _ p w Hdev). simpl.
      rewrite app_nil_r. auto.
Qed.

(** X10: after [teardown_device(p)] the path [p] is in none of
    [inkbirds], [temperatures], [commands], [batteries], [bind] and
    [allocated_offsets]; the entries of every other path are as before;
    the offset [p] held is in [free_offsets] under the key [p]; the
    register arrays (so the last samples of the device, which keep being
    logged), the log file and [gatt_services] are not touched.  In
    shock.py for every [p], in deadlock.py for a known device. *)
Theorem teardown_releases :
  (forall fails p (w : World Shock.DeviceProxy),
     released p w (snd (Shock.teardown_device fails p w))) /\
  (forall fails p (w : World Deadlock.InkbirdDevice),
     is_Some (inkbirds w !! p) ->
     released p w (snd (Deadlock.teardown_device fails p w))).
Proof.
  split.
  - intros fails p w. rewrite shock_teardown_closed. apply torn_down_released.
  - intros fails p w [dev Hdev]. rewrite (deadlock_teardown_closed _ p dev w Hdev).
    apply torn_down_released.
Qed.

Lemma teardown_releases_witness :
  released "/d1"
    (snd (Deadlock.interface_added_callback no_failure "/d1" inkbird_added
            (deadlock_ready "/d1")))
    (snd (Deadlock.teardown_device no_failure "/d1"
            (snd (Deadlock.interface_added_callback no_failure "/d1" inkbird_added
                    (deadlock_ready "/d1"))))).
Proof.
  destruct teardown_releases as [_ Hd]. apply Hd.
  vm_compute. eexists. reflexivity.
Defined.

(** ** The stall branch of the logger *)

Lemma unstall_first_marked {D} fails now (w : World D) pre sv rest :
  gatt_services w = pre ++ (sv, true) :: rest ->
  Forall (fun s : string * bool => snd s = false) pre ->
  temperatures w !! dirname sv = None ->
  unstall fails now w = (inl KeyError, w).
Proof.
  intros Hgs Hpre Htmp. unfold unstall. unfold and_then at 1, gets at 1. rewrite Hgs.
  clear Hgs. induction Hpre as [|[k b] pre Hb _ IH]; simpl in *.
  - unfold and_then, item. rewrite Htmp. reflexivity.
  - subst b. unfold and_then at 1. simpl. exact IH.
Qed.

(** X11: in shock.py a torn-down device leaves its service marked in
    [gatt_services] while its entry in [temperatures] is gone.  If that
    service is the first marked one, the next run of [logger] that finds
    the log stalled ([stamp] clear, more than 30 s since [laststamp])
    raises [KeyError] with nothing changed: no [ReadValue] is sent and the
    timer for the next run is not started. *)
Theorem logger_stops_after_teardown (fails1 fails2 : BusCall -> bool) (p : string)
    (now : float) (w : World Shock.DeviceProxy) pre sv rest :
  gatt_services w = pre ++ (sv, true) :: rest ->
  Forall (fun s : string * bool => snd s = false) pre ->
  dirname sv = p ->
  stamp (reg w) = false ->
  (30 <? now - laststamp (reg w))%float = true ->
  let w' := snd (Shock.teardown_device fails1 p w) in
  Shock.logger fails2 now w' = (inl KeyError, w').
Proof.
  intros Hgs Hpre Hdir Hst Hstall. cbv zeta.
  rewrite shock_teardown_closed. cbn [snd].
  unfold Shock.logger, logger_with. unfold and_then at 1, gets at 1.
  cbn [torn_down reg]. rewrite Hst, Hstall. cbn [negb andb].
  unfold and_then at 1.
  rewrite (unstall_first_marked fails2 now _ pre sv rest).
  - reflexivity.
  - exact Hgs.
  - exact Hpre.
  - rewrite Hdir. simpl. apply lookup_delete_eq.
Qed.

Lemma logger_stops_after_teardown_witness :
  let w := set_gatt_services [("/d1/service0021"%string, true)]
             (set_temperatures {["/d1"%string := "/d1/service0021/char0022"%string]}
                (shock_known "/d1")) in
  let w' := snd (Shock.teardown_device no_failure "/d1" w) in
  Shock.logger no_failure 31%float w' = (inl KeyError, w').
Proof.
  intros w.
  apply (logger_stops_after_teardown no_failure no_failure "/d1" 31%float w
           [] "/d1/service0021"%string []).
  - reflexivity.
  - constructor.
  - reflexivity.
  - reflexivity.
  - reflexivity.
Defined.

(** ** Decoded values against [MAXTEMP] *)

Lemma all_decoded_class :
  forallb (fun lo => forallb (fun hi => decoded_class lo hi) (seqZ 0 256))
          (seqZ 0 256) = true.
Proof. vm_compute. reflexivity. Qed.

(** X12: every byte pair decodes to a number (never NaN) between -1839
    and 1803 degrees.  The decoded value exceeds [MAXTEMP] exactly for
    [FE 7F] and [FF 7F], and it is below [MAXTEMP] (so printed as it is
    rather than as NaN by [logger]) for every pair except [FD 7F],
    [FE 7F] and [FF 7F]: [FD 7F] decodes to [MAXTEMP] itself. *)
Theorem decoded_against_maxtemp (lo hi : Z) :
  is_byte lo -> is_byte hi ->
  let t := temperature lo hi in
  (t =? t)%float = true /\ (-1839 <? t)%float = true /\ (t <? 1803)%float = true /\
  (MAXTEMP <? t)%float = above_maxtemp lo hi /\
  rendered t = (if not_below_maxtemp lo hi then nan else t).
Proof.
  intros Hlo Hhi. pose proof all_decoded_class as H.
  rewrite forallb_forall in H.
  assert (Hin : forall z, is_byte z -> In z (seqZ 0 256)).
  { intros z Hz. apply list_elem_of_In, elem_of_seqZ. unfold is_byte in Hz. lia. }
  specialize (H lo (Hin lo Hlo)). rewrite forallb_forall in H.
  specialize (H hi (Hin hi Hhi)). unfold decoded_class in H. cbv zeta in *.
  apply andb_prop in H as [H H5]. apply andb_prop in H as [H H4].
  apply andb_prop in H as [H H3]. apply andb_prop in H as [H1 H2].
  apply Bool.eqb_prop in H4, H5.
  repeat (split; [assumption|]).
  unfold rendered. rewrite H5. destruct (not_below_maxtemp lo hi); reflexivity.
Qed.

Lemma decoded_against_maxtemp_witness :
  (MAXTEMP <? temperature 0xFD 0x7F)%float = false /\
  rendered (temperature 0xFD 0x7F) = nan.
Proof.
  destruct (decoded_against_maxtemp 0xFD 0x7F) as (_ & _ & _ & H4 & H5);
    [unfold is_byte; lia | unfold is_byte; lia |].
  split; [exact H4 | exact H5].
Defined.

(** ** deadlock.py: handlers that cannot raise *)

Lemma succeeds_weaken {S A} (m : M S A) :
  (forall s, exists a, fst (m s) = inr a) -> succeeds (fun _ : S => True) m.
Proof. intros H s _. split; [apply H | exact I]. Qed.

Lemma deadlock_teardown_returns fails p (w : World Deadlock.InkbirdDevice) :
  fst (Deadlock.teardown_device fails p w) = inr tt.
Proof.
  destruct (inkbirds w !! p) as [dev|] eqn:Hdev.
  - rewrite (deadlock_teardown_closed _ p dev w Hdev). reflexivity.
  - rewrite (deadlock_teardown_absent _ p w Hdev). reflexivity.
Qed.

Lemma run_pseudo_pairing_returns fails path (w : World Deadlock.InkbirdDevice) :
  exists b, fst (Deadlock.run_pseudo_pairing fails path w) = inr b.
Proof.
  destruct (inkbirds w !! path) as [dev|] eqn:Hdev.
  - destruct (decide (Deadlock.state dev = Deadlock.CONNECTED)) as [Hst | Hst].
    + destruct (fst (Deadlock.pseudo_pairing_calls fails path w)) as [e | []] eqn:Hcalls.
      * destruct (pairing_failure fails path dev w Hdev Hst) as (w' & -> & _);
          [exists e; exact Hcalls|]. exists false. reflexivity.
      * destruct (pairing_success fails path dev w Hdev Hst Hcalls) as (w' & -> & _).
        exists true. reflexivity.
    + unfold Deadlock.run_pseudo_pairing, and_then, gets. rewrite Hdev.
      unfold Deadlock.can_act. rewrite bool_decide_eq_false_2 by exact Hst.
      exists false. reflexivity.
  - unfold Deadlock.run_pseudo_pairing, and_then, gets. rewrite Hdev.
    exists false. reflexivity.
Qed.

Lemma deadlock_interface_added_returns fails path obj_dict
    (w : World Deadlock.InkbirdDevice) :
  fst (Deadlock.interface_added_callback fails path obj_dict w) = inr tt.
Proof.
  unfold Deadlock.interface_added_callback.
  destruct (obj_dict !! Deadlock.DEVICE_IFACE) as [props|]; [|reflexivity].
  destruct (negb _); [reflexivity|].
  unfold and_then at 1, gets at 1.
  destruct (inkbirds w !! path) as [dev|] eqn:Hdev.
  - unfold and_then, ret, item. rewrite Hdev. simpl.
    destruct (Deadlock.can_act dev Deadlock.DISCONNECTED); [|reflexivity].
    unfold Deadlock.transition, Deadlock.on_device, modify, try_except, bus_call. simpl.
    destruct (fails (Connect _)); [reflexivity|]. simpl.
    destruct (fails (SetProperty _ _)); reflexivity.
  - unfold and_then, modify, item. simpl. rewrite lookup_insert_eq. simpl.
    unfold Deadlock.transition, Deadlock.on_device, modify, try_except, bus_call. simpl.
    destruct (fails (Connect _)); [reflexivity|]. simpl.
    destruct (fails (SetProperty _ _)); reflexivity.
Qed.

Lemma for_each_returns {S A} (l : list A) (body : A -> M S unit) (s : S) :
  (forall a s, fst (body a s) = inr tt) -> fst (for_each l body s) = inr tt.
Proof.
  intros Hb. revert s. induction l as [|a l IH]; intros s; simpl; [reflexivity|].
  unfold and_then. specialize (Hb a s). destruct (body a s) as [[e | []] s'];
    simpl in Hb; [discriminate | apply IH].
Qed.

(** X13: in deadlock.py the handlers of [InterfacesAdded],
    [InterfacesRemoved] and [ServicesResolved], a retry timer, the signal
    handler and a scan whose [GetManagedObjects] succeeds return normally
    from every state and whatever the bus does: every bus failure in them
    is caught.  Only a temperature notification, the logger and a scan
    whose [GetManagedObjects] fails can let an exception escape.  (Here
    and below [inkbirds] is the dict of [Deadlock.inkbirds_init].) *)
Theorem deadlock_calls_return order fails (c : DeadlockCall)
    (w : World Deadlock.InkbirdDevice) :
  may_raise c = false -> fst (deadlock_call order (fails, c) w) = inr tt.
Proof.
  intros Hc. unfold deadlock_call. cbn [fst snd].
  destruct c as [path obj_dict | path ifs | path r | path obj_dict | i | now | managed |];
    try discriminate Hc.
  - apply deadlock_interface_added_returns.
  - unfold Deadlock.interfaces_removed_callback, and_then, gets.
    destruct (_ && _); [apply deadlock_teardown_returns | reflexivity].
  - unfold Deadlock.services_resolved_callback.
    destruct r as [[]|]; [| |reflexivity]; unfold and_then at 1, gets at 1;
      destruct (inkbirds w !! path); try reflexivity.
    + unfold and_then at 1, Deadlock.transition at 1, Deadlock.on_device at 1, modify at 1.
      unfold and_then.
      match goal with
      | |- context [Deadlock.run_pseudo_pairing fails path ?W] =>
          destruct (run_pseudo_pairing_returns fails path W) as [b Hb];
          destruct (Deadlock.run_pseudo_pairing fails path W) as [[e | b'] w']
      end; [discriminate Hb | reflexivity].
    + apply deadlock_teardown_returns.
  - unfold Deadlock.fire_retry. unfold and_then at 1, gets at 1.
    destruct (timers w !! i) as [[t [| |p] []]|]; try reflexivity.
    unfold and_then at 1, modify at 1.
    unfold Deadlock.retry_pseudo_pairing. unfold and_then at 1, gets at 1.
    match goal with
    | |- context [inkbirds ?W !! p] => destruct (inkbirds W !! p) as [dev|]
    end; [|reflexivity].
    destruct (Deadlock.can_act dev Deadlock.CONNECTED); [|reflexivity].
    unfold and_then.
    match goal with
    | |- context [Deadlock.run_pseudo_pairing fails p ?W] =>
        destruct (run_pseudo_pairing_returns fails p W) as [b Hb];
        destruct (Deadlock.run_pseudo_pairing fails p W) as [[e | b'] w']
    end; [discriminate Hb | reflexivity].
  - destruct managed as [objs|]; [|discriminate Hc].
    unfold Deadlock.scan_dbus. unfold and_then at 1. cbn [lookup_or ret].
    unfold and_then at 1.
    pose proof (for_each_returns objs
                  (fun o => Deadlock.interface_added_callback fails (fst o) (snd o)) w
                  (fun o s => deadlock_interface_added_returns fails _ _ s)) as H1.
    destruct (for_each objs _ w) as [[e | []] w1]; [discriminate H1|].
    unfold and_then at 1, gets at 1. unfold and_then at 1.
    match goal with
    | |- context [for_each ?L ?B w1] =>
        pose proof (for_each_returns L B w1) as H2;
        destruct (for_each L B w1) as [[e | []] w2]
    end.
    + discriminate H2. intros p s. destruct (bool_decide _);
        [reflexivity | apply deadlock_teardown_returns].
    + reflexivity.
  - unfold Deadlock.signal_handler. unfold and_then at 1. unfold and_then at 1, gets at 1.
    unfold and_then at 1.
    match goal with
    | |- context [for_each ?L ?B w] =>
        pose proof (for_each_returns L B w (fun p s => deadlock_teardown_returns fails p s)) as H2;
        destruct (for_each L B w) as [[e | []] w2]
    end; [discriminate H2 | reflexivity].
Qed.

Lemma deadlock_calls_return_witness :
  fst (deadlock_call (fun m => (map_to_list m).*1)
         (connect_fails, DInterfaceAdded "/d1" inkbird_added)
         (world_init 0%float)) = inr tt.
Proof. apply deadlock_calls_return. reflexivity. Defined.

(** ** Weakest preconditions *)

Section WP.
Context {S : Type}.
Implicit Type s : S.

Lemma wp_ret {A} (a : A) Q E s : Q a s -> wp (ret a) Q E s.
Proof. intros H. exact H. Qed.

Lemma wp_raise {A} e (Q : A -> S -> Prop) E s : E e s -> wp (raise e) Q E s.
Proof. intros H. exact H. Qed.

Lemma wp_gets {A} (f : S -> A) Q E s : Q (f s) s -> wp (gets f) Q E s.
Proof. intros H. exact H. Qed.

Lemma wp_modify (f : S -> S) Q E s : Q tt (f s) -> wp (modify f) Q E s.
Proof. intros H. exact H. Qed.

Lemma wp_lookup_or {A} e (o : option A) Q E s :
  (forall a, o = Some a -> Q a s) -> (o = None -> E e s) -> wp (lookup_or e o) Q E s.
Proof. intros Hs Hn. destruct o; [apply Hs | apply Hn]; reflexivity. Qed.

Lemma wp_bind {A B} (m : M S A) (k : A -> M S B) Q E s :
  wp m (fun a => wp (k a) Q E) E s -> wp (and_then m k) Q E s.
Proof. unfold wp, and_then. destruct (m s) as [[e | a] s']; intros H; exact H. Qed.

Lemma wp_try {A} (m : M S A) (h : exn -> M S A) Q E s :
  wp m Q (fun e => wp (h e) Q E) s -> wp (try_except m h) Q E s.
Proof. unfold wp, try_except. destruct (m s) as [[e | a] s']; intros H; exact H. Qed.

Lemma wp_scoped {A} (m : M S A) (release : S -> S) Q E s :
  wp m (fun a s' => Q a (release s')) (fun e s' => E e (release s')) s ->
  wp (scoped m release) Q E s.
Proof. unfold wp, scoped. destruct (m s) as [[e | a] s']; intros H; exact H. Qed.

Lemma wp_lose_on_raise {A} (m : M S A) (release : S -> S) Q E s :
  wp m Q (fun e s' => E e (release s')) s -> wp (lose_on_raise m release) Q E s.
Proof. unfold wp, lose_on_raise. destruct (m s) as [[e | a] s']; intros H; exact H. Qed.

Lemma wp_mono {A} (m : M S A) (Q Q' : A -> S -> Prop) (E E' : exn -> S -> Prop) s :
  wp m Q' E' s -> (forall a s', Q' a s' -> Q a s') -> (forall e s', E' e s' -> E e s') ->
  wp m Q E s.
Proof.
  unfold wp. destruct (m s) as [[e | a] s']; intros H HQ HE; [apply HE | apply HQ]; exact H.
Qed.

Lemma wp_invariant {A} (I : S -> Prop) (m : M S A) s :
  preserves I m -> I s -> wp m (fun _ => I) (fun _ => I) s.
Proof.
  intros Hm H. specialize (Hm s H). unfold wp. destruct (m s) as [[e | a] s']; exact Hm.
Qed.

Lemma invariant_wp {A} (I : S -> Prop) (m : M S A) :
  (forall s, I s -> wp m (fun _ => I) (fun _ => I) s) -> preserves I m.
Proof.
  intros Hm s H. specialize (Hm s H). unfold wp in Hm.
  destruct (m s) as [[e | a] s']; exact Hm.
Qed.

Lemma wp_for_each {A} (I : S -> Prop) (l : list A) (body : A -> M S unit) Q E s :
  I s ->
  (forall a s', a ∈ l -> I s' -> wp (body a) (fun _ => I) E s') ->
  (forall s', I s' -> Q tt s') ->
  wp (for_each l body) Q E s.
Proof.
  intros Hs Hb HQ. revert s Hs. induction l as [|a l IH]; intros s Hs; simpl.
  - apply wp_ret, HQ, Hs.
  - apply wp_bind. eapply wp_mono.
    + apply Hb; [left | exact Hs].
    + intros u s' Hs'. apply IH; [|exact Hs'].
      intros b s'' Hin. apply Hb. right. exact Hin.
    + intros e s' H. exact H.
Qed.
End WP.

Section WPWorld.
Context {D : Type}.
Implicit Type w : World D.

Lemma wp_item {V} (d : World D -> gmap string V) k Q E w :
  (forall v, d w !! k = Some v -> Q v w) -> (d w !! k = None -> E KeyError w) ->
  wp (item d k) Q E w.
Proof. intros Hs Hn. unfold item. apply wp_lookup_or; assumption. Qed.

Lemma wp_bus_call fails c Q E w :
  (fails c = false -> Q tt (set_bus_log (bus_log w ++ [c]) w)) ->
  (fails c = true -> E DBusError (set_bus_log (bus_log w ++ [c]) w)) ->
  wp (bus_call fails c) Q E w.
Proof.
  intros Hok Hfail. unfold wp, bus_call.
  destruct (fails c); [apply Hfail | apply Hok]; reflexivity.
Qed.

Lemma wp_swallowed fails c Q E w :
  Q tt (set_bus_log (bus_log w ++ [c]) w) -> wp (bus_call_swallowed fails c) Q E w.
Proof. intros H. unfold wp. rewrite swallowed_spec. exact H. Qed.

Lemma wp_start_timer t cb Q E w :
  Q (length (timers w)) (set_timers (timers w ++ [mkTimer t cb Pending]) w) ->
  wp (start_timer t cb) Q E w.
Proof. intros H. exact H. Qed.

Lemma wp_stop_notifications fails p Q E w :
  Q tt (set_bus_log (bus_log w ++ stop_calls p w) w) ->
  wp (stop_notifications fails p) Q E w.
Proof. intros H. unfold wp. rewrite stop_notifications_calls. exact H. Qed.
End WPWorld.

(** One step of symbolic execution. *)
Ltac wp_step :=
  lazymatch goal with
  | |- wp (ret _) _ _ _ => apply wp_ret
  | |- wp (raise _) _ _ _ => apply wp_raise
  | |- wp (gets _) _ _ _ => apply wp_gets
  | |- wp (modify _) _ _ _ => apply wp_modify
  | |- wp (and_then _ _) _ _ _ => apply wp_bind
  | |- wp (try_except _ _) _ _ _ => apply wp_try
  | |- wp (scoped _ _) _ _ _ => apply wp_scoped
  | |- wp (lose_on_raise _ _) _ _ _ => apply wp_lose_on_raise
  | |- wp (bus_call_swallowed _ _) _ _ _ => apply wp_swallowed
  | |- wp (start_timer _ _) _ _ _ => apply wp_start_timer
  | |- wp (stop_notifications _ _) _ _ _ => apply wp_stop_notifications
  | |- wp (item _ _) _ _ _ => apply wp_item; [intros ? ? | intros ?]
  | |- wp (lookup_or _ _) _ _ _ => apply wp_lookup_or; [intros ? ? | intros ?]
  | |- wp (bus_call _ _) _ _ _ => apply wp_bus_call; intros ?
  | |- wp (match ?x with _ => _ end) _ _ _ => destruct x eqn:?
  end; cbv beta.

(** ** deadlock.py: the device table *)

Lemma alter_alter {A} (f g : A -> A) (p : string) (m : gmap string A) :
  alter f p (alter g p m) = alter (fun d => f (g d)) p m.
Proof.
  apply map_eq. intros q. destruct (decide (p = q)) as [<- | Hne].
  - rewrite !lookup_alter_eq. destruct (m !! p); reflexivity.
  - rewrite !lookup_alter_ne by exact Hne. reflexivity.
Qed.

Lemma devices_tab_alter f p m :
  devices_tab m ->
  (forall d, device_fields p d /\ settled_state (Deadlock.state d) = true ->
             device_fields p (f d) /\ settled_state (Deadlock.state (f d)) = true) ->
  devices_tab (alter f p m).
Proof.
  intros Hm Hf q d Hq. destruct (decide (p = q)) as [<- | Hne].
  - rewrite lookup_alter_eq in Hq. destruct (m !! p) as [d0|] eqn:E; [|discriminate].
    inversion Hq; subst. apply Hf. apply (Hm p d0 E).
  - rewrite lookup_alter_ne in Hq by exact Hne. apply (Hm q d Hq).
Qed.

Lemma devices_tab_insert p d m :
  devices_tab m -> device_fields p d -> settled_state (Deadlock.state d) = true ->
  devices_tab (<[p := d]> m).
Proof.
  intros Hm Hf Hs q d' Hq. destruct (decide (p = q)) as [<- | Hne].
  - rewrite lookup_insert_eq in Hq. inversion Hq; subst. auto.
  - rewrite lookup_insert_ne in Hq by exact Hne. apply (Hm q d' Hq).
Qed.

Lemma devices_tab_delete p m : devices_tab m -> devices_tab (delete p m).
Proof.
  intros Hm q d Hq. destruct (decide (p = q)) as [<- | Hne].
  - rewrite lookup_delete_eq in Hq. discriminate.
  - rewrite lookup_delete_ne in Hq by exact Hne. apply (Hm q d Hq).
Qed.

Lemma retries_tab_alter f p m ts :
  retries_tab m ts -> (forall d, Deadlock.retry_timer (f d) = Deadlock.retry_timer d) ->
  retries_tab (alter f p m) ts.
Proof.
  intros Hm Hf i t q Hi Hp. destruct (Hm i t q Hi Hp) as (d & Hd & Hr).
  destruct (decide (p = q)) as [<- | Hne].
  - exists (f d). rewrite lookup_alter_eq, Hd. split; [reflexivity|]. rewrite Hf. exact Hr.
  - exists d. rewrite lookup_alter_ne by exact Hne. auto.
Qed.

Lemma retries_tab_insert p d m ts :
  retries_tab m ts -> m !! p = None -> retries_tab (<[p := d]> m) ts.
Proof.
  intros Hm Hnone i t q Hi Hp. destruct (Hm i t q Hi Hp) as (d' & Hd & Hr).
  destruct (decide (p = q)) as [<- | Hne]; [congruence|].
  exists d'. rewrite lookup_insert_ne by exact Hne. auto.
Qed.

Lemma cancel_handle_pending h ts i t q :
  cancel_handle h ts !! i = Some t -> pending_retry q t = true -> ts !! i = Some t.
Proof.
  intros Hi Hp. destruct h as [j|]; [|exact Hi]. unfold cancel_handle, cancel_in in Hi.
  destruct (ts !! j) as [[tj cbj stj]|] eqn:Hj; [|exact Hi].
  destruct stj; try exact Hi.
  destruct (decide (i = j)) as [-> | Hne].
  - rewrite list_lookup_insert_eq in Hi by (eapply lookup_lt_Some; eassumption).
    inversion Hi; subst. unfold pending_retry in Hp. simpl in Hp.
    destruct cbj; discriminate.
  - rewrite list_lookup_insert_ne in Hi by congruence. exact Hi.
Qed.

Lemma retries_single m ts p d :
  retries_tab m ts -> m !! p = Some d -> single_retry p d ts.
Proof.
  intros Hm Hd i t Hi Hp. destruct (Hm i t p Hi Hp) as (d' & Hd' & Hr). congruence.
Qed.

Lemma retries_tab_delete p d m ts :
  retries_tab m ts -> m !! p = Some d ->
  retries_tab (delete p m) (cancel_handle (Deadlock.retry_timer d) ts).
Proof.
  intros Hm Hd i t q Hi Hp. destruct (decide (p = q)) as [<- | Hne].
  - pose proof (cancelled_none_pending p d ts (retries_single m ts p d Hm Hd) i t Hi).
    congruence.
  - pose proof (cancel_handle_pending _ _ _ _ _ Hi Hp) as Hi'.
    destruct (Hm i t q Hi' Hp) as (d' & Hd' & Hr).
    exists d'. rewrite lookup_delete_ne by exact Hne. auto.
Qed.

Lemma length_cancel_handle h ts : length (cancel_handle h ts) = length ts.
Proof. destruct h; [apply length_cancel_in | reflexivity]. Qed.

Lemma retries_tab_schedule p d m ts b b' :
  retries_tab m ts -> m !! p = Some d ->
  retries_tab
    (alter (Deadlock.with_retry b' (Some (length (cancel_handle (Deadlock.retry_timer d) ts)))) p m)
    (cancel_handle (Deadlock.retry_timer d) ts
       ++ [mkTimer b (tc_retry_pseudo_pairing p) Pending]).
Proof.
  intros Hm Hd i t q Hi Hp.
  apply lookup_app_Some in Hi as [Hi | [Hge Hi]].
  - destruct (decide (p = q)) as [<- | Hne].
    + pose proof (cancelled_none_pending p d ts (retries_single m ts p d Hm Hd) i t Hi).
      congruence.
    + pose proof (cancel_handle_pending _ _ _ _ _ Hi Hp) as Hi'.
      destruct (Hm i t q Hi' Hp) as (d' & Hd' & Hr).
      exists d'. rewrite lookup_alter_ne by exact Hne. auto.
  - apply list_lookup_singleton_Some in Hi as [Hz <-].
    unfold pending_retry in Hp. simpl in Hp. apply bool_decide_eq_true in Hp. subst q.
    eexists. rewrite lookup_alter_eq, Hd. split; [reflexivity|]. simpl. f_equal. lia.
Qed.

Lemma retries_tab_fired i t cb m ts :
  retries_tab m ts -> retries_tab m (<[i := mkTimer t cb Fired]> ts).
Proof.
  intros Hm j tj q Hj Hp. destruct (decide (i = j)) as [<- | Hne].
  - destruct (decide (i < length ts)%nat) as [Hlt | Hge].
    + rewrite list_lookup_insert_eq in Hj by exact Hlt. inversion Hj; subst.
      unfold pending_retry in Hp. simpl in Hp. destruct cb; discriminate.
    + rewrite list_insert_ge in Hj by lia. apply (Hm i tj q Hj Hp).
  - rewrite list_lookup_insert_ne in Hj by exact Hne. apply (Hm j tj q Hj Hp).
Qed.

Lemma retries_tab_timer m ts t cb :
  retries_tab m ts -> (forall p, pending_retry p (mkTimer t cb Pending) = false) ->
  retries_tab m (ts ++ [mkTimer t cb Pending]).
Proof.
  intros Hm Hcb i ti q Hi Hp.
  apply lookup_app_Some in Hi as [Hi | [Hge Hi]].
  - apply (Hm i ti q Hi Hp).
  - apply list_lookup_singleton_Some in Hi as [Hz <-]. rewrite Hcb in Hp. discriminate.
Qed.

Ltac table_fields :=
  first
    [ assumption
    | reflexivity
    | intros [? ? ? ? ? ?] [(? & ? & ?) ?]; simpl in *; repeat split; first [assumption | reflexivity]
    | intros [? ? ? ? ? ?]; reflexivity
    | repeat split; reflexivity ].

(** The state a leaf of symbolic execution ends in, as tables. *)
Ltac table_leaf :=
  unfold table_ok, devices_ok, retries_ok in *;
  cbn [inkbirds timers set_inkbirds set_bus_log set_timers set_alloc set_reg set_fout
       set_temperatures set_commands set_batteries set_bind] in *;
  rewrite ?alter_alter, ?alter_insert_eq;
  split;
  [ first [ assumption
          | apply devices_tab_alter; [assumption | table_fields]
          | apply devices_tab_insert; [assumption | table_fields | table_fields]
          | apply devices_tab_delete; assumption ]
  | first [ assumption
          | apply retries_tab_alter; [assumption | table_fields]
          | apply retries_tab_insert; assumption ] ].

Lemma table_interface_added fails path obj_dict :
  preserves table_ok (Deadlock.interface_added_callback fails path obj_dict).
Proof.
  apply invariant_wp. intros w [Hd Hr].
  unfold Deadlock.interface_added_callback, Deadlock.transition, Deadlock.on_device.
  repeat wp_step; table_leaf.
Qed.

Lemma table_teardown fails p : preserves table_ok (Deadlock.teardown_device fails p).
Proof.
  intros w [Hd Hr]. destruct (inkbirds w !! p) as [dev|] eqn:Hdev.
  - rewrite (deadlock_teardown_closed _ p dev w Hdev). split.
    + apply devices_tab_delete, Hd.
    + apply (retries_tab_delete p dev _ _ Hr Hdev).
  - rewrite (deadlock_teardown_absent _ p w Hdev). split; assumption.
Qed.

Lemma wp_pseudo_pairing_calls fails path Q E (w : World Deadlock.InkbirdDevice) :
  (forall w', inkbirds w' = inkbirds w -> timers w' = timers w -> Q tt w') ->
  (forall e w', inkbirds w' = inkbirds w -> timers w' = timers w -> E e w') ->
  wp (Deadlock.pseudo_pairing_calls fails path) Q E w.
Proof.
  intros HQ HE. destruct (pseudo_pairing_calls_frame fails path w) as [Hi Ht].
  unfold wp. destruct (Deadlock.pseudo_pairing_calls fails path w) as [[e | []] w'];
    simpl in *; [apply HE | apply HQ]; assumption.
Qed.

Lemma table_run_pseudo_pairing fails path :
  preserves table_ok (Deadlock.run_pseudo_pairing fails path).
Proof.
  apply invariant_wp. intros w [Hd Hr].
  unfold Deadlock.run_pseudo_pairing, Deadlock.pseudo_pairing_steps,
    Deadlock.schedule_retry, Deadlock.transition, Deadlock.on_device, cancel_timer.
  wp_step. wp_step. wp_step; [|wp_step; split; assumption].
  wp_step; [wp_step; split; assumption|].
  wp_step. wp_step.
  apply wp_pseudo_pairing_calls.
  - intros w' Hi Ht. repeat wp_step.
    unfold table_ok, devices_ok, retries_ok in *.
    cbn [inkbirds timers set_inkbirds]. rewrite Hi, Ht, alter_alter. split.
    + apply devices_tab_alter; [assumption|].
      intros [? ? ? ? ? ?] [(? & ? & ?) ?]; simpl in *; repeat split; assumption.
    + apply retries_tab_alter; [assumption|]. intros [? ? ? ? ? ?]. reflexivity.
  - intros e w' Hi Ht. cbv beta.
    wp_step. wp_step.
    wp_step; [|split; [unfold devices_ok; rewrite Hi | unfold retries_ok; rewrite Hi, Ht];
               assumption].
    wp_step.
    assert (Hv : inkbirds w !! path = Some v) by (rewrite <- Hi; assumption).
    pose proof (retries_tab_schedule path v _ _
                  (Deadlock.py_min (Deadlock.retry_backoff v) Deadlock.MAX_BACKOFF)
                  (Deadlock.retry_backoff v * 2)%float Hr Hv) as Hsched.
    destruct (Deadlock.retry_timer v) as [t|] eqn:Hrt; repeat wp_step;
      unfold table_ok, devices_ok, retries_ok in *;
      cbn [inkbirds timers set_inkbirds set_timers cancel_handle] in *;
      rewrite ?Hi, ?Ht; (split; [|exact Hsched]);
      (apply devices_tab_alter; [assumption|]);
      intros [? ? ? ? ? ?] [(? & ? & ?) ?]; simpl in *; repeat split; assumption.
Qed.

Lemma table_frame {A} (m : M (World Deadlock.InkbirdDevice) A) :
  (forall w, inkbirds (snd (m w)) = inkbirds w /\ timers (snd (m w)) = timers w) ->
  preserves table_ok m.
Proof.
  intros Hm w [Hd Hr]. destruct (Hm w) as [Hi Ht].
  unfold table_ok, devices_ok, retries_ok. rewrite Hi, Ht. split; assumption.
Qed.

Lemma table_transition p st :
  settled_state st = true -> preserves table_ok (Deadlock.transition p st).
Proof.
  intros Hst. apply invariant_wp. intros w [Hd Hr].
  unfold Deadlock.transition, Deadlock.on_device. wp_step.
  unfold table_ok, devices_ok, retries_ok in *. cbn [inkbirds timers set_inkbirds]. split.
  - apply devices_tab_alter; [assumption|].
    intros [? ? ? ? ? ?] [(? & ? & ?) ?]; simpl in *; repeat split; assumption.
  - apply retries_tab_alter; [assumption|]. intros [? ? ? ? ? ?]. reflexivity.
Qed.

Lemma table_start_timer t cb :
  (forall p, pending_retry p (mkTimer t cb Pending) = false) ->
  preserves table_ok (start_timer t cb).
Proof.
  intros Hcb w [Hd Hr]. split; [exact Hd|].
  unfold retries_ok. simpl. apply retries_tab_timer; assumption.
Qed.

(** The steps that touch neither the device table nor the timers. *)
Ltac table_frame_step :=
  apply table_frame; intros ?;
  first
    [ unfold on_alloc, zoom; match goal with |- context [?m (alloc ?w)] => destruct (m (alloc w)) end;
      split; reflexivity
    | unfold on_reg, zoom; match goal with |- context [?m (reg ?w)] => destruct (m (reg w)) end;
      split; reflexivity
    | unfold item; match goal with |- context [lookup_or _ ?o] => destruct o end;
      split; reflexivity
    | unfold bus_call; match goal with |- context [if ?b then _ else _] => destruct b end;
      split; reflexivity
    | split; reflexivity ].

Ltac table_structure :=
  repeat first
    [ apply table_teardown | apply table_run_pseudo_pairing | apply table_interface_added
    | apply table_transition; reflexivity
    | apply table_start_timer; intros ?; reflexivity
    | apply preserves_ret | apply preserves_raise | apply preserves_gets
    | apply preserves_lookup_or | apply preserves_t4vec
    | apply preserves_bind; [|intros ?]
    | apply preserves_try; [|intros ?]
    | apply preserves_for_each; intros ?
    | match goal with
      | |- preserves _ (match ?x with _ => _ end) => destruct x
      end
    | table_frame_step ].

Lemma table_deadlock_call order fc : preserves table_ok (deadlock_call order fc).
Proof.
  destruct fc as [fails c]. unfold deadlock_call. cbn [fst snd].
  destruct c as [path obj_dict | path ifs | path r | path obj_dict | i | now | managed |].
  - apply table_interface_added.
  - unfold Deadlock.interfaces_removed_callback. table_structure.
  - unfold Deadlock.services_resolved_callback. table_structure.
  - unfold Deadlock.temperature_callback, Deadlock.update_temperatures, update_all.
    table_structure.
  - unfold Deadlock.fire_retry, Deadlock.retry_pseudo_pairing.
    apply preserves_bind; [apply preserves_gets | intros ts].
    destruct (ts !! i) as [[t [| |p] []]|]; try apply preserves_ret.
    apply preserves_bind.
    + intros w [Hd Hr]. split; [exact Hd|]. unfold retries_ok. simpl.
      apply retries_tab_fired, Hr.
    + intros _. table_structure.
  - unfold Deadlock.logger, logger_with, unstall. table_structure.
  - unfold Deadlock.scan_dbus. table_structure.
  - unfold Deadlock.signal_handler. table_structure.
Qed.

Lemma play_invariant {S E} (I : S -> Prop) (handle : E -> M S unit) :
  (forall e, preserves I (handle e)) ->
  forall trace s, I s -> I (play handle trace s).
Proof.
  intros Hh trace. induction trace as [|e trace IH]; intros s H; simpl.
  - exact H.
  - apply IH, Hh, H.
Qed.

(** ** deadlock.py: nothing fills the characteristic tables *)

Lemma never_active_alter f p m :
  never_active m ->
  (forall d, Deadlock.state d <> Deadlock.ACTIVE -> Deadlock.state (f d) <> Deadlock.ACTIVE) ->
  never_active (alter f p m).
Proof.
  intros Hm Hf q d Hq. destruct (decide (p = q)) as [<- | Hne].
  - rewrite lookup_alter_eq in Hq. destruct (m !! p) as [d0|] eqn:E; [|discriminate].
    inversion Hq; subst. apply Hf. apply (Hm p d0 E).
  - rewrite lookup_alter_ne in Hq by exact Hne. apply (Hm q d Hq).
Qed.

Lemma never_active_insert p d m :
  never_active m -> Deadlock.state d <> Deadlock.ACTIVE -> never_active (<[p := d]> m).
Proof.
  intros Hm Hs q d' Hq. destruct (decide (p = q)) as [<- | Hne].
  - rewrite lookup_insert_eq in Hq. inversion Hq; subst. exact Hs.
  - rewrite lookup_insert_ne in Hq by exact Hne. apply (Hm q d' Hq).
Qed.

Lemma never_active_delete p m : never_active m -> never_active (delete p m).
Proof.
  intros Hm q d Hq. destruct (decide (p = q)) as [<- | Hne].
  - rewrite lookup_delete_eq in Hq. discriminate.
  - rewrite lookup_delete_ne in Hq by exact Hne. apply (Hm q d Hq).
Qed.

Ltac inert_state :=
  first
    [ assumption
    | discriminate
    | intros [? ? ? ? ? ?] ?; simpl in *; first [assumption | discriminate] ].

Ltac inert_leaf :=
  split;
  cbn [inkbirds timers temperatures commands batteries bind gatt_services alloc reg fout
       bus_log set_inkbirds set_bus_log set_timers set_alloc set_reg set_fout
       set_temperatures set_commands set_batteries set_bind] in *;
  rewrite ?alter_alter, ?alter_insert_eq;
  first
    [ assumption
    | apply never_active_alter; [assumption | inert_state]
    | apply never_active_insert; [assumption | inert_state]
    | apply never_active_delete; assumption
    | repeat (apply Forall_app; split); first [assumption | repeat constructor] ].

Lemma inert_interface_added t0 fails path obj_dict :
  preserves (inert t0) (Deadlock.interface_added_callback fails path obj_dict).
Proof.
  apply invariant_wp. intros w [H1 H2 H3 H4 H5 H6 H7 H8 H9 H10].
  unfold Deadlock.interface_added_callback, Deadlock.transition, Deadlock.on_device.
  repeat wp_step; inert_leaf.
Qed.

Lemma inert_teardown t0 fails p : preserves (inert t0) (Deadlock.teardown_device fails p).
Proof.
  intros w [H1 H2 H3 H4 H5 H6 H7 H8 H9 H10]. destruct (inkbirds w !! p) as [dev|] eqn:Hdev.
  - rewrite (deadlock_teardown_closed _ p dev w Hdev).
    unfold torn_down, stop_calls, stop_call.
    rewrite H1, H2, H3, H4, H7, !lookup_empty, !delete_empty. cbn [snd app].
    split; cbn [inkbirds timers temperatures commands batteries bind gatt_services alloc
                reg fout bus_log]; try assumption; try reflexivity.
    + apply never_active_delete, H6.
    + apply Forall_app. split; [assumption | repeat constructor].
  - rewrite (deadlock_teardown_absent _ p w Hdev). split; assumption.
Qed.

Lemma inert_run_pseudo_pairing t0 fails path :
  preserves (inert t0) (Deadlock.run_pseudo_pairing fails path).
Proof.
  apply invariant_wp. intros w [H1 H2 H3 H4 H5 H6 H7 H8 H9 H10].
  unfold Deadlock.run_pseudo_pairing, Deadlock.pseudo_pairing_steps,
    Deadlock.pseudo_pairing_calls,
    Deadlock.schedule_retry, Deadlock.transition, Deadlock.on_device, cancel_timer.
  wp_step. wp_step. wp_step; [|wp_step; split; assumption].
  wp_step; [wp_step; split; assumption|].
  wp_step. wp_step. wp_step. wp_step.
  - exfalso. rewrite H1, lookup_empty in H. discriminate.
  - repeat wp_step; inert_leaf.
Qed.

Lemma wp_t4vec {S} (data : list Z) (Q : list float -> S -> Prop) E (s : S) :
  (forall vec, Q vec s) -> (forall e, E e s) -> wp (t4vec data) Q E s.
Proof.
  intros HQ HE. destruct (t4vec_pure data s) as [Hs _]. unfold wp.
  destruct (t4vec data s) as [[e | vec] s']; simpl in Hs; subst s'; [apply HE | apply HQ].
Qed.

Lemma inert_temperature_callback t0 path obj_dict :
  preserves (inert t0) (Deadlock.temperature_callback path obj_dict).
Proof.
  apply invariant_wp. intros w HI. pose proof HI as [H1 H2 H3 H4 H5 H6 H7 H8 H9 H10].
  assert (Hslot : allocated_offsets (alloc w) !! path = None)
    by (rewrite H7; apply lookup_empty).
  assert (Hupd : forall data,
            wp (Deadlock.update_temperatures path data)
               (fun _ => inert t0) (fun _ => inert t0) w).
  { intros data. unfold Deadlock.update_temperatures.
    wp_step; [wp_step; exact HI|].
    wp_step. apply wp_t4vec; [|intros e; exact HI].
    intros vec. wp_step. wp_step; [|exact HI].
    rewrite Hslot in H. discriminate. }
  unfold Deadlock.temperature_callback.
  wp_step; [|wp_step; exact HI].
  wp_step. wp_step. wp_step. wp_step. rewrite Hslot. wp_step.
  wp_step; [|wp_step; apply Hupd].
  wp_step; [|wp_step; apply Hupd].
  exfalso. unfold Deadlock.can_act in *.
  match goal with
  | Hc : bool_decide _ = true |- _ => apply bool_decide_eq_true in Hc; eapply H6; eassumption
  end.
Qed.

Lemma inert_logger t0 fails now : preserves (inert t0) (Deadlock.logger fails now).
Proof.
  apply invariant_wp. intros w HI. pose proof HI as [H1 H2 H3 H4 H5 H6 H7 H8 H9 H10].
  unfold Deadlock.logger, logger_with, unstall.
  wp_step. wp_step. wp_step. rewrite H8. cbn [stamp register_init negb andb].
  assert (Hrest : wp (let* r := gets reg in
                      let* _ :=
                        if stamp r then
                          let sample := thermostamp r in
                          let* _ := on_reg (modify (fun r => set_laststamp now (set_stamp false r))) in
                          let* _ := on_reg (tick_counts Deadlock.next_count) in
                          modify (fun w => set_fout (fout w ++ [(now, map rendered sample)]) w)
                        else ret tt in
                      let* _ := start_timer 1%float tc_logger in
                      ret tt)
                   (fun _ => inert t0) (fun _ => inert t0) w).
  { wp_step. wp_step. rewrite H8. cbn [stamp register_init].
    repeat wp_step. inert_leaf. }
  destruct (_ <? _)%float.
  - wp_step. wp_step. rewrite H5. cbn [for_each]. wp_step. exact Hrest.
  - wp_step. exact Hrest.
Qed.

Lemma inert_transition t0 p st :
  st <> Deadlock.ACTIVE -> preserves (inert t0) (Deadlock.transition p st).
Proof.
  intros Hst. apply invariant_wp. intros w [H1 H2 H3 H4 H5 H6 H7 H8 H9 H10].
  unfold Deadlock.transition, Deadlock.on_device. wp_step. inert_leaf.
Qed.

Lemma inert_timers t0 (f : list Timer -> list Timer) :
  preserves (inert t0) (modify (fun w => set_timers (f (timers w)) w)).
Proof. intros w [H1 H2 H3 H4 H5 H6 H7 H8 H9 H10]. split; assumption. Qed.

Lemma inert_start_timer t0 t cb : preserves (inert t0) (start_timer (D:=Deadlock.InkbirdDevice) t cb).
Proof. intros w [H1 H2 H3 H4 H5 H6 H7 H8 H9 H10]. split; assumption. Qed.

Ltac inert_structure :=
  repeat first
    [ apply inert_teardown | apply inert_run_pseudo_pairing | apply inert_interface_added
    | apply inert_transition; discriminate
    | apply inert_start_timer | apply inert_timers
    | apply preserves_ret | apply preserves_raise | apply preserves_gets
    | apply preserves_lookup_or
    | apply preserves_bind; [|intros ?]
    | apply preserves_try; [|intros ?]
    | apply preserves_for_each; intros ?
    | match goal with
      | |- preserves _ (match ?x with _ => _ end) => destruct x
      end ].

Lemma inert_deadlock_call t0 order fc : preserves (inert t0) (deadlock_call order fc).
Proof.
  destruct fc as [fails c]. unfold deadlock_call. cbn [fst snd].
  destruct c as [path obj_dict | path ifs | path r | path obj_dict | i | now | managed |].
  - apply inert_interface_added.
  - unfold Deadlock.interfaces_removed_callback. inert_structure.
  - unfold Deadlock.services_resolved_callback. inert_structure.
  - apply inert_temperature_callback.
  - unfold Deadlock.fire_retry, Deadlock.retry_pseudo_pairing. inert_structure.
  - apply inert_logger.
  - unfold Deadlock.scan_dbus. inert_structure.
  - unfold Deadlock.signal_handler. inert_structure.
Qed.

Lemma inert_init t0 : inert t0 (world_init t0).
Proof.
  split; try reflexivity.
  - intros p d H. cbn in H. rewrite lookup_empty in H. discriminate.
  - constructor.
Qed.

Lemma table_init t0 : table_ok (world_init t0).
Proof.
  split.
  - intros p d H. cbn in H. rewrite lookup_empty in H. discriminate.
  - intros i t p H. cbn in H. rewrite lookup_nil in H. discriminate.
Qed.

(** X14: in deadlock.py, between any two calls of the event loop every
    device record is filed under its own path (which is also its proxy),
    its [allocated] flag is still [False], and its state is one of
    [DISCONNECTED], [CONNECTED], [ACTIVE]: [CONNECTING] and [TEARDOWN]
    never outlast the call that sets them, and [PSEUDO_PAIRING] is never
    entered.  This holds after any sequence of calls, whatever the bus
    does, from a state in which it holds. *)
Theorem deadlock_devices_settle order trace (w : World Deadlock.InkbirdDevice) :
  devices_ok w -> retries_ok w ->
  forall p d, inkbirds (play (deadlock_call order) trace w) !! p = Some d ->
    Deadlock.obj_path d = p /\ Deadlock.proxy d = p /\ Deadlock.allocated d = false /\
    Deadlock.state d ∈ [Deadlock.DISCONNECTED; Deadlock.CONNECTED; Deadlock.ACTIVE].
Proof.
  intros Hd Hr p d Hp.
  destruct (play_invariant table_ok (deadlock_call order) (table_deadlock_call order)
              trace w (conj Hd Hr)) as [Hd' _].
  destruct (Hd' p d Hp) as [(H1 & H2 & H3) H4].
  repeat (split; [assumption|]).
  destruct (Deadlock.state d); try discriminate H4; set_solver.
Qed.

Lemma deadlock_devices_settle_witness :
  exists d,
    inkbirds (play (deadlock_call map_order) sighting_trace (world_init 0%float)) !! "/d1"
    = Some d /\
    Deadlock.obj_path d = "/d1"%string /\ Deadlock.proxy d = "/d1"%string /\
    Deadlock.allocated d = false /\
    Deadlock.state d ∈ [Deadlock.DISCONNECTED; Deadlock.CONNECTED; Deadlock.ACTIVE].
Proof.
  eexists. split; [vm_compute; reflexivity|].
  apply (deadlock_devices_settle map_order sighting_trace (world_init 0%float)).
  - apply (table_init 0%float).
  - apply (table_init 0%float).
  - vm_compute. reflexivity.
Defined.

(** X15: in deadlock.py every retry timer that is still to fire belongs
    to a known device and is the timer its record points to; so a device
    never has two pending retries, and an unknown path (a device that was
    torn down, say) has none.  After any sequence of calls, whatever the
    bus does. *)
Theorem deadlock_one_pending_retry order trace (w : World Deadlock.InkbirdDevice) :
  devices_ok w -> retries_ok w ->
  let w' := play (deadlock_call order) trace w in
  (forall i t p, timers w' !! i = Some t -> pending_retry p t = true ->
     exists d, inkbirds w' !! p = Some d /\ Deadlock.retry_timer d = Some i) /\
  (forall i j ti tj p,
     timers w' !! i = Some ti -> timers w' !! j = Some tj ->
     pending_retry p ti = true -> pending_retry p tj = true -> i = j).
Proof.
  intros Hd Hr w'.
  destruct (play_invariant table_ok (deadlock_call order) (table_deadlock_call order)
              trace w (conj Hd Hr)) as [_ Hr'].
  fold w' in Hr'. split; [exact Hr'|].
  intros i j ti tj p Hi Hj Hpi Hpj.
  destruct (Hr' i ti p Hi Hpi) as (d & Hdev & Hti).
  destruct (Hr' j tj p Hj Hpj) as (d' & Hdev' & Htj).
  congruence.
Qed.

Lemma deadlock_one_pending_retry_witness :
  let w' := play (deadlock_call map_order) sighting_trace (world_init 0%float) in
  (forall i t p, timers w' !! i = Some t -> pending_retry p t = true ->
     exists d, inkbirds w' !! p = Some d /\ Deadlock.retry_timer d = Some i) /\
  (forall i j ti tj p,
     timers w' !! i = Some ti -> timers w' !! j = Some tj ->
     pending_retry p ti = true -> pending_retry p tj = true -> i = j).
Proof.
  apply deadlock_one_pending_retry; apply (table_init 0%float).
Defined.

Lemma handshake_without_characteristic fails path (w : World Deadlock.InkbirdDevice) :
  temperatures w !! path = None ->
  fst (Deadlock.pseudo_pairing_calls fails path w) = inl KeyError.
Proof.
  intros H. unfold Deadlock.pseudo_pairing_calls, and_then, item. rewrite H. reflexivity.
Qed.

(** X16: deadlock.py has no code that puts a characteristic into
    [temperatures], [commands] or [batteries], a queue into [bind] or a
    service into [gatt_services].  So, from the globals at import time
    (with [inkbirds] empty) and after any sequence of calls of the event
    loop, whatever the bus does: these tables are empty, no device is
    [ACTIVE], no slot is allocated, the register is as at start-up (no
    sample is ever stored, [stamp] is never set), no line is written to
    the log file, and the only bus calls made are [Connect],
    [Disconnect], [RemoveDevice] and the write of [Trusted]; and every
    handshake of a [CONNECTED] device fails at [temperatures[obj_path]],
    returns [False] and starts a retry timer. *)
Theorem deadlock_never_samples t0 order trace :
  let w := play (deadlock_call order) trace (world_init t0) in
  inert t0 w /\
  forall fails path dev,
    inkbirds w !! path = Some dev -> Deadlock.state dev = Deadlock.CONNECTED ->
    exists w', Deadlock.run_pseudo_pairing fails path w = (inr false, w') /\
      timers w'
        = cancel_handle (Deadlock.retry_timer dev) (timers w)
            ++ [mkTimer (Deadlock.py_min (Deadlock.retry_backoff dev) Deadlock.MAX_BACKOFF)
                        (tc_retry_pseudo_pairing path) Pending].
Proof.
  intros w.
  assert (Hw : inert t0 w).
  { apply (play_invariant (inert t0) (deadlock_call order) (inert_deadlock_call t0 order)).
    apply inert_init. }
  split; [exact Hw|].
  intros fails path dev Hdev Hst.
  destruct (pairing_failure fails path dev w Hdev Hst) as (w' & Hrun & _ & Ht).
  - exists KeyError. apply handshake_without_characteristic.
    rewrite (inert_temperatures t0 w Hw). apply lookup_empty.
  - exists w'. split; [exact Hrun | exact Ht].
Qed.

Lemma deadlock_never_samples_witness :
  exists w',
    Deadlock.run_pseudo_pairing no_failure "/d1"
      (play (deadlock_call map_order) (take 2 sighting_trace) (world_init 0%float))
    = (inr false, w').
Proof.
  destruct (deadlock_never_samples 0%float map_order (take 2 sighting_trace)) as [_ H].
  destruct (H no_failure "/d1"%string
              (Deadlock.with_state Deadlock.CONNECTED (Deadlock.new_device "/d1" "/d1")))
    as (w' & Hrun & _).
  - vm_compute. reflexivity.
  - reflexivity.
  - exists w'. exact Hrun.
Defined.

(** ** shock.py: sighting a device *)


Lemma set_bus_log_twice {D} (l l' : list BusCall) (w : World D) :
  set_bus_log l' (set_bus_log l w) = set_bus_log l' w.
Proof. reflexivity. Qed.

Lemma set_inkbirds_same {D} (w : World D) : set_inkbirds (inkbirds w) w = w.
Proof. destruct w. reflexivity. Qed.



(** ** Sweeps over the device table: shutdown and scan *)

Lemma released_gone {D} p (w w' : World D) : released p w w' -> gone p w'.
Proof. intros H. exact (rel_gone p w w' H). Qed.

Lemma released_same_at {D} p q (w w' : World D) :
  released p w w' -> q <> p -> same_at q w w'.
Proof. intros H Hq. exact (rel_others p w w' H q Hq). Qed.

Lemma gone_same_at {D} q (w w' : World D) : same_at q w w' -> gone q w -> gone q w'.
Proof.
  intros (H1 & H2 & H3 & H4 & H5 & H6) (G1 & G2 & G3 & G4 & G5 & G6).
  unfold gone. rewrite H1, H2, H3, H4, H5, H6. repeat split; assumption.
Qed.

Lemma same_at_refl {D} q (w : World D) : same_at q w w.
Proof. unfold same_at. repeat split; reflexivity. Qed.

Lemma same_at_trans {D} q (w1 w2 w3 : World D) :
  same_at q w1 w2 -> same_at q w2 w3 -> same_at q w1 w3.
Proof.
  intros (H1 & H2 & H3 & H4 & H5 & H6) (G1 & G2 & G3 & G4 & G5 & G6).
  unfold same_at. rewrite G1, G2, G3, G4, G5, G6. repeat split; assumption.
Qed.

Lemma shock_tears_down fails : tears_down (Shock.teardown_device fails).
Proof.
  intros p w. rewrite shock_teardown_closed. split; [reflexivity|].
  left. apply torn_down_released.
Qed.

Lemma deadlock_tears_down fails : tears_down (Deadlock.teardown_device fails).
Proof.
  intros p w. destruct (inkbirds w !! p) as [dev|] eqn:Hdev.
  - rewrite (deadlock_teardown_closed _ p dev w Hdev). split; [reflexivity|].
    left. apply torn_down_released.
  - rewrite (deadlock_teardown_absent _ p w Hdev). split; [reflexivity|].
    right. auto.
Qed.

(** Tearing down the devices of [paths] one after the other. *)
Lemma sweep_spec {D} (td : string -> M (World D) unit) (paths : list string) (w : World D) :
  tears_down td ->
  (forall p, p ∈ paths -> is_Some (inkbirds w !! p) \/ gone p w) ->
  let res := for_each paths td w in
  fst res = inr tt /\
  (forall p, p ∈ paths -> gone p (snd res)) /\
  (forall q, q ∉ paths -> same_at q w (snd res)).
Proof.
  intros Htd. revert w. induction paths as [|p paths IH]; intros w Hpaths; cbv zeta.
  - simpl. split; [reflexivity|]. split.
    + intros p Hp. apply elem_of_nil in Hp as [].
    + intros q _. apply same_at_refl.
  - cbn [for_each]. unfold and_then. destruct (Htd p w) as [Hret Hstep].
    destruct (td p w) as [[e | []] w1]; simpl in Hret, Hstep; [discriminate|].
    assert (Hp1 : gone p w1).
    { destruct Hstep as [Hrel | [Hnone ->]]; [exact (released_gone p w w1 Hrel)|].
      destruct (Hpaths p) as [[d Hd] | Hg]; [left | congruence | exact Hg]. }
    assert (Hsame : forall q, q <> p -> same_at q w w1).
    { intros q Hq. destruct Hstep as [Hrel | [_ ->]];
        [exact (released_same_at p q w w1 Hrel Hq) | apply same_at_refl]. }
    destruct (IH w1) as (Hr & Hgone & Hothers).
    { intros q Hq. destruct (decide (q = p)) as [-> | Hne]; [right; exact Hp1|].
      destruct (Hpaths q) as [Hknown | Hg]; [right; exact Hq | |].
      - left. destruct (Hsame q Hne) as [-> _]. exact Hknown.
      - right. apply (gone_same_at q w w1 (Hsame q Hne) Hg). }
    split; [exact Hr|]. split.
    + intros q Hq. apply elem_of_cons in Hq as [-> | Hq]; [|apply Hgone, Hq].
      destruct (decide (p ∈ paths)) as [Hin | Hout]; [apply Hgone, Hin|].
      apply (gone_same_at p w1 _ (Hothers p Hout) Hp1).
    + intros q Hq. apply not_elem_of_cons in Hq as [Hne Hq].
      apply (same_at_trans q w w1 _ (Hsame q Hne) (Hothers q Hq)).
Qed.

Lemma for_each_unless {S} (skip : string -> bool) (td : string -> M S unit)
    (paths : list string) (s : S) :
  for_each paths (fun p => if skip p then ret tt else td p) s
  = for_each (filter (fun p => skip p = false) paths) td s.
Proof.
  revert s. induction paths as [|p paths IH]; intros s; [reflexivity|].
  cbn [for_each]. destruct (skip p) eqn:Hp.
  - rewrite filter_cons_False by congruence. unfold and_then at 1. cbn [ret]. apply IH.
  - rewrite filter_cons_True by exact Hp. cbn [for_each]. unfold and_then.
    destruct (td p s) as [[e | []] s']; [reflexivity | apply IH].
Qed.

Lemma covers_map_order {D} : covers (map_order (D:=D)).
Proof.
  intros m q. unfold map_order. rewrite list_elem_of_fmap. split.
  - intros ([k v] & -> & Hin). apply elem_of_map_to_list in Hin. simpl. eauto.
  - intros [v Hv]. exists (q, v). split; [reflexivity|]. apply elem_of_map_to_list, Hv.
Qed.

Lemma sweep_all {D} (td : string -> M (World D) unit) order (w : World D) :
  tears_down td -> covers order ->
  let res := for_each (order (inkbirds w)) td w in
  fst res = inr tt /\ inkbirds (snd res) = ∅ /\
  forall p, is_Some (inkbirds w !! p) -> gone p (snd res).
Proof.
  intros Htd Hcov.
  destruct (sweep_spec td (order (inkbirds w)) w Htd) as (Hret & Hgone & Hothers).
  { intros p Hp. left. apply Hcov, Hp. }
  cbv zeta. split; [exact Hret|]. split.
  - apply map_empty. intros q.
    destruct (decide (q ∈ order (inkbirds w))) as [Hin | Hout].
    + apply (Hgone q Hin).
    + destruct (Hothers q Hout) as [-> _].
      destruct (inkbirds w !! q) eqn:E; [|reflexivity].
      exfalso. apply Hout, Hcov. rewrite E. eauto.
  - intros p Hp. apply Hgone, Hcov, Hp.
Qed.

(** X18: the signal handler tears down every known device: afterwards
    [inkbirds] is empty and each device that was known is in none of
    [temperatures], [commands], [batteries], [bind] and
    [allocated_offsets]; no bus failure stops it.  The exit status is 2
    in shock.py and 0 in deadlock.py. *)
Theorem signal_handler_releases_all :
  (forall fails order (w : World Shock.DeviceProxy),
     covers order ->
     let res := Shock.signal_handler fails order w in
     fst res = inr 2 /\ inkbirds (snd res) = ∅ /\
     forall p, is_Some (inkbirds w !! p) -> gone p (snd res)) /\
  (forall fails order (w : World Deadlock.InkbirdDevice),
     covers order ->
     let res := Deadlock.signal_handler fails order w in
     fst res = inr 0 /\ inkbirds (snd res) = ∅ /\
     forall p, is_Some (inkbirds w !! p) -> gone p (snd res)).
Proof.
  split; intros fails order w Hcov; cbv zeta.
  - destruct (sweep_all (Shock.teardown_device fails) order w (shock_tears_down fails) Hcov)
      as (Hret & Hempty & Hgone).
    unfold Shock.signal_handler, and_then, gets.
    destruct (for_each (order (inkbirds w)) (Shock.teardown_device fails) w)
      as [[e | []] w']; simpl in *; [discriminate|]. auto.
  - destruct (sweep_all (Deadlock.teardown_device fails) order w
                (deadlock_tears_down fails) Hcov) as (Hret & Hempty & Hgone).
    unfold Deadlock.signal_handler, and_then, gets.
    destruct (for_each (order (inkbirds w)) (Deadlock.teardown_device fails) w)
      as [[e | []] w']; simpl in *; [discriminate|]. auto.
Qed.

Lemma signal_handler_releases_all_witness :
  inkbirds (snd (Shock.signal_handler connect_fails map_order (shock_known "/d1"))) = ∅.
Proof.
  destruct signal_handler_releases_all as [Hs _].
  apply (Hs connect_fails map_order (shock_known "/d1") covers_map_order).
Defined.

Lemma sweep_unless {D} (td : string -> M (World D) unit) order (current : list string)
    (w : World D) :
  tears_down td -> covers order ->
  let res := for_each (order (inkbirds w))
               (fun path => if bool_decide (path ∈ current) then ret tt else td path) w in
  fst res = inr tt /\
  forall q, is_Some (inkbirds (snd res) !! q) -> q ∈ current.
Proof.
  intros Htd Hcov. cbv zeta.
  rewrite (for_each_unless (fun p => bool_decide (p ∈ current)) td).
  set (paths := filter (fun p => bool_decide (p ∈ current) = false) (order (inkbirds w))).
  destruct (sweep_spec td paths w Htd) as (Hret & Hgone & Hothers).
  { intros p Hp. left. apply list_elem_of_filter in Hp as [_ Hp]. apply Hcov, Hp. }
  split; [exact Hret|].
  intros q [d Hq].
  destruct (decide (q ∈ current)) as [Hin | Hout]; [exact Hin | exfalso].
  destruct (decide (q ∈ paths)) as [Hp | Hp].
  - destruct (Hgone q Hp) as [Hnone _]. congruence.
  - apply Hp. apply list_elem_of_filter. split.
    + apply bool_decide_eq_false, Hout.
    + apply Hcov. destruct (Hothers q Hp) as [<- _]. eauto.
Qed.

(** What only talks to the bus and the tables leaves the timers alone. *)
Ltac timers_leaf :=
  first
    [ apply preserves_modify; intros ? H; exact H
    | intros ? H; unfold item;
      match goal with |- context [lookup_or _ ?o] => destruct o end; exact H
    | intros ? H; unfold bus_call;
      match goal with |- context [if ?b then _ else _] => destruct b end; exact H
    | intros ? H; exact H ].

Lemma shock_interface_added_timers fails seen p obj_dict ts :
  preserves (fun w : World Shock.DeviceProxy => timers w = ts)
    (Shock.interface_added_callback fails seen p obj_dict).
Proof.
  unfold Shock.interface_added_callback, Shock.device_added, Shock.service_added,
    Shock.characteristic_added, add_binding, free_slot.
  preserves_structure; timers_leaf.
Qed.

Lemma sweep_unless_timers fails order (current : list string) ts :
  preserves (fun w : World Shock.DeviceProxy => timers w = ts)
    (for_each (order : list string)
       (fun path => if bool_decide (path ∈ current) then ret tt
                    else Shock.teardown_device fails path)).
Proof.
  apply preserves_for_each. intros p. destruct (bool_decide _); [apply preserves_ret|].
  intros w H. rewrite shock_teardown_closed. exact H.
Qed.

(** X19: a scan that returns has torn down every known device that is
    not among the managed objects: afterwards each path in [inkbirds] is
    a managed one.  In deadlock.py a scan whose [GetManagedObjects]
    succeeds always returns and restarts its timer.  In shock.py the
    timer for the next scan is started exactly when the scan returns
    normally: if a handler raises on the way ([Connect] on a new device,
    say), no further scan is scheduled. *)
Theorem scan_cleans_up :
  (forall fails seen order managed (w : World Shock.DeviceProxy),
     covers order ->
     let res := Shock.scan_dbus fails seen order managed w in
     timers (snd res)
       = (if fst res is inr _ then timers w ++ [shock_scan_timer] else timers w) /\
     (fst res = inr tt ->
      exists objs, managed = Some objs /\
        forall q, is_Some (inkbirds (snd res) !! q) -> q ∈ objs.*1)) /\
  (forall fails order objs (w : World Deadlock.InkbirdDevice),
     covers order ->
     let res := Deadlock.scan_dbus fails order (Some objs) w in
     fst res = inr tt /\
     (forall q, is_Some (inkbirds (snd res) !! q) -> q ∈ objs.*1) /\
     last (timers (snd res)) = Some deadlock_scan_timer).
Proof.
  split.
  - intros fails seen order managed w Hcov.
    set (P := fun res : (exn + unit) * World Shock.DeviceProxy =>
                timers (snd res)
                  = (if fst res is inr _ then timers w ++ [shock_scan_timer] else timers w) /\
                (fst res = inr tt ->
                 exists objs, managed = Some objs /\
                   forall q, is_Some (inkbirds (snd res) !! q) -> q ∈ objs.*1)).
    change (P (Shock.scan_dbus fails seen order managed w)).
    unfold Shock.scan_dbus. destruct managed as [objs|];
      [|split; [reflexivity | discriminate]].
    unfold and_then at 1. cbn [lookup_or ret]. unfold and_then at 1.
    pose proof (preserves_for_each (fun w' : World Shock.DeviceProxy => timers w' = timers w)
                  objs
                  (fun o => let* _ := Shock.interface_added_callback fails seen (fst o) (snd o) in
                            ret tt)) as H1.
    specialize (H1 (fun o => preserves_bind _ _ _
                               (shock_interface_added_timers fails seen _ _ _)
                               (fun _ => preserves_ret _ _)) w eq_refl).
    destruct (for_each objs _ w) as [[e | []] w1]; simpl in H1.
    { split; [exact H1 | discriminate]. }
    unfold and_then at 1, gets at 1. unfold and_then at 1.
    destruct (sweep_unless (Shock.teardown_device fails) order objs.*1 w1
                (shock_tears_down fails) Hcov) as [Hret Hclean].
    pose proof (sweep_unless_timers fails (order (inkbirds w1)) objs.*1 (timers w1) w1 eq_refl)
      as H2.
    destruct (for_each (order (inkbirds w1)) _ w1) as [[e | []] w2];
      simpl in Hret, Hclean, H2; [discriminate|].
    unfold and_then, start_timer, ret, P. cbn [fst snd timers set_timers inkbirds].
    split.
    + rewrite H2, H1. reflexivity.
    + intros _. exists objs. split; [reflexivity | exact Hclean].
  - intros fails order objs w Hcov.
    set (P := fun res : (exn + unit) * World Deadlock.InkbirdDevice =>
                fst res = inr tt /\
                (forall q, is_Some (inkbirds (snd res) !! q) -> q ∈ objs.*1) /\
                last (timers (snd res)) = Some deadlock_scan_timer).
    change (P (Deadlock.scan_dbus fails order (Some objs) w)).
    unfold Deadlock.scan_dbus. unfold and_then at 1. cbn [lookup_or ret].
    unfold and_then at 1.
    pose proof (for_each_returns objs
                  (fun o => Deadlock.interface_added_callback fails (fst o) (snd o)) w
                  (fun o s => deadlock_interface_added_returns fails _ _ s)) as H1.
    destruct (for_each objs _ w) as [[e | []] w1]; [discriminate H1|].
    unfold and_then at 1, gets at 1. unfold and_then at 1.
    destruct (sweep_unless (Deadlock.teardown_device fails) order objs.*1 w1
                (deadlock_tears_down fails) Hcov) as [Hret Hclean].
    destruct (for_each (order (inkbirds w1)) _ w1) as [[e | []] w2];
      simpl in Hret, Hclean; [discriminate|].
    unfold and_then, start_timer, ret, P. cbn [fst snd timers set_timers inkbirds].
    split; [reflexivity|]. split; [exact Hclean|]. apply last_snoc.
Qed.

Lemma scan_cleans_up_witness :
  let res := Deadlock.scan_dbus connect_fails map_order
               (Some [("/d1"%string, inkbird_added)]) (world_init 0%float) in
  fst res = inr tt /\
  (forall q, is_Some (inkbirds (snd res) !! q) -> q ∈ ["/d1"%string]) /\
  last (timers (snd res)) = Some deadlock_scan_timer.
Proof.
  destruct scan_cleans_up as [_ Hd].
  apply (Hd connect_fails map_order [("/d1"%string, inkbird_added)]
           (world_init 0%float) covers_map_order).
Defined.

(** ** shock.py: [ServicesResolved] *)

Lemma assoc_get_app_out {V} (k : string) (d1 d2 : list (string * V)) :
  k ∉ d1.*1 -> assoc_get k (d1 ++ d2) = assoc_get k d2.
Proof.
  induction d1 as [|[k' v] d1 IH]; intros Hout; [reflexivity|].
  simpl in *. apply not_elem_of_cons in Hout as [Hne Hout].
  destruct (String.eqb_spec k k'); [contradiction | apply IH, Hout].
Qed.

Lemma assoc_set_app_out {V} (k : string) (v : V) (d1 d2 : list (string * V)) :
  k ∉ d1.*1 -> assoc_set k v (d1 ++ d2) = d1 ++ assoc_set k v d2.
Proof.
  induction d1 as [|[k' v'] d1 IH]; intros Hout; [reflexivity|].
  simpl in *. apply not_elem_of_cons in Hout as [Hne Hout].
  destruct (String.eqb_spec k k'); [contradiction|]. rewrite IH by exact Hout. reflexivity.
Qed.

Lemma assoc_get_head {V} (k : string) (v : V) (d : list (string * V)) :
  assoc_get k ((k, v) :: d) = Some v.
Proof. simpl. rewrite String.eqb_refl. reflexivity. Qed.

Lemma assoc_set_head {V} (k : string) (v v' : V) (d : list (string * V)) :
  assoc_set k v' ((k, v) :: d) = (k, v') :: d.
Proof. simpl. rewrite String.eqb_refl. reflexivity. Qed.

(** The marking loop when no service of the device is found
    undersized: with at least six bindings queued, every service under
    [p] ends up marked and nothing else happens. *)
Lemma mark_resolved_spec fails p l (done todo : list (string * bool))
    (w : World Shock.DeviceProxy) :
  gatt_services w = done ++ todo -> NoDup (done ++ todo).*1 ->
  bind w !! p = Some l -> (6 <= length l)%nat ->
  Shock.mark_resolved fails p todo.*1 w
  = (inr None, set_gatt_services (done ++ marked p todo) w).
Proof.
  revert done w. induction todo as [|[k b] todo IH]; intros done w Hgs Hnd Hbind Hlen.
  - simpl. rewrite app_nil_r in *. rewrite <- Hgs. destruct w; reflexivity.
  - assert (Hk : k ∉ done.*1).
    { rewrite fmap_app in Hnd. apply NoDup_app in Hnd as (_ & Hdis & _).
      intros Hin. apply (Hdis k Hin). left. }
    assert (Hnext : forall b' (w' : World Shock.DeviceProxy),
              gatt_services w' = (done ++ [(k, b')]) ++ todo ->
              bind w' !! p = Some l ->
              Shock.mark_resolved fails p todo.*1 w'
              = (inr None, set_gatt_services ((done ++ [(k, b')]) ++ marked p todo) w')).
    { intros b' w' Hgs' Hbind'. apply IH; [exact Hgs' | | exact Hbind' | exact Hlen].
      rewrite <- app_assoc. cbn [app]. rewrite !fmap_app in *. exact Hnd. }
    cbn [fmap list_fmap fst Shock.mark_resolved].
    change (list_fmap _ _ fst todo) with (todo.*1).
    destruct (String.prefix p k) eqn:Hpre.
    + unfold and_then at 1, gets at 1. rewrite Hgs, (assoc_get_app_out k done) by exact Hk.
      rewrite assoc_get_head. unfold and_then at 1. cbn [lookup_or ret].
      unfold and_then at 1.
      assert (Hunder : (if negb b
                        then let* l0 := item bind p in ret (Z.of_nat (length l0) <? 6)
                        else ret false) w = (inr false, w)).
      { destruct b; [reflexivity|]. cbn [negb]. unfold and_then, item. rewrite Hbind.
        cbn [lookup_or ret]. destruct (Z.ltb_spec (Z.of_nat (length l)) 6); [lia | reflexivity]. }
      rewrite Hunder. unfold and_then at 1, modify at 1.
      rewrite Hgs, (assoc_set_app_out k true done) by exact Hk. rewrite assoc_set_head.
      rewrite (Hnext true).
      * unfold marked. cbn [map fst snd]. rewrite Hpre, orb_true_r, <- app_assoc.
        reflexivity.
      * cbn [gatt_services set_gatt_services]. rewrite <- app_assoc. reflexivity.
      * exact Hbind.
    + rewrite (Hnext b).
      * unfold marked. cbn [map fst snd]. rewrite Hpre, orb_false_r, <- app_assoc.
        reflexivity.
      * rewrite Hgs, <- app_assoc. reflexivity.
      * exact Hbind.
Qed.

Lemma for_each_bind_notify fails (l : list Binding) (w : World Shock.DeviceProxy) :
  Forall (fun b : Binding => fails (StartNotify (fst (fst b))) = false) l ->
  for_each l (Shock.bind_notify fails) w
  = (inr tt, set_bus_log (bus_log w ++ start_calls l) w).
Proof.
  revert w. induction l as [|b l IH]; intros w Hok.
  - simpl. rewrite app_nil_r. destruct w; reflexivity.
  - apply Forall_cons in Hok as [Hb Hok]. cbn [for_each].
    unfold and_then, Shock.bind_notify at 1, bus_call. rewrite Hb.
    rewrite IH by exact Hok. cbn [bus_log set_bus_log start_calls map].
    rewrite <- app_assoc. reflexivity.
Qed.

Lemma for_each_bind_notify_fails fails (l1 l2 : list Binding) (b : Binding)
    (w : World Shock.DeviceProxy) :
  Forall (fun b : Binding => fails (StartNotify (fst (fst b))) = false) l1 ->
  fails (StartNotify (fst (fst b))) = true ->
  for_each (l1 ++ b :: l2) (Shock.bind_notify fails) w
  = (inl DBusError, set_bus_log (bus_log w ++ start_calls (l1 ++ [b])) w).
Proof.
  revert w. induction l1 as [|b1 l1 IH]; intros w Hok Hb.
  - cbn [app for_each]. unfold and_then, Shock.bind_notify, bus_call. rewrite Hb. reflexivity.
  - apply Forall_cons in Hok as [Hb1 Hok]. cbn [app for_each].
    unfold and_then, Shock.bind_notify at 1, bus_call. rewrite Hb1.
    rewrite IH by assumption. cbn [bus_log set_bus_log start_calls map app].
    rewrite <- app_assoc. reflexivity.
Qed.

(** X20: the handshake of shock.py.  When [ServicesResolved] turns true
    for a device with at least six bindings queued and a command
    characteristic, and no [StartNotify] fails, the handler marks every
    service under the device path, calls [StartNotify] on each queued
    binding in the order of discovery, then writes the start command to
    the command characteristic and returns [True]; a failure of that
    write is swallowed.  Nothing else changes. *)
Theorem shock_handshake fails p l cmd (w : World Shock.DeviceProxy) :
  NoDup (gatt_services w).*1 ->
  bind w !! p = Some l -> (6 <= length l)%nat ->
  commands w !! p = Some cmd ->
  Forall (fun b : Binding => fails (StartNotify (fst (fst b))) = false) l ->
  Shock.services_resolved_callback fails p (Some true) w
  = (inr (Some true),
     set_bus_log (bus_log w ++ start_calls l ++ [WriteValue cmd Shock.start_cmd])
       (set_gatt_services (marked p (gatt_services w)) w)).
Proof.
  intros Hnd Hbind Hlen Hcmd Hok.
  unfold Shock.services_resolved_callback.
  unfold and_then at 1, gets at 1. unfold and_then at 1.
  rewrite (mark_resolved_spec fails p l [] (gatt_services w) w eq_refl Hnd Hbind Hlen).
  cbn [app]. unfold and_then at 1.
  unfold Shock.bind_all. unfold and_then at 1, gets at 1.
  cbn [bind set_gatt_services]. rewrite Hbind.
  destruct l as [|b l]; [simpl in Hlen; lia|].
  unfold try_except, and_then at 1.
  rewrite for_each_bind_notify by exact Hok. cbn [ret].
  unfold and_then at 1, gets at 1. cbn [commands set_bus_log set_gatt_services].
  rewrite Hcmd. unfold and_then. rewrite swallowed_spec.
  cbn [ret bus_log set_bus_log set_gatt_services]. rewrite <- app_assoc. reflexivity.
Qed.

Lemma let_go_held (l : list Binding) (p : string) (x : Proxy) (m : gmap string Proxy) :
  m !! p = Some x -> x ∈ proxies_of l -> let_go l p m !! p = None.
Proof.
  intros Hm Hx. unfold let_go. rewrite Hm.
  rewrite bool_decide_eq_true_2 by exact Hx. apply lookup_delete_eq.
Qed.

Lemma let_go_other (l : list Binding) (p q : string) (m : gmap string Proxy) :
  q <> p -> let_go l p m !! q = m !! q.
Proof.
  intros Hne. unfold let_go. destruct (m !! p) as [x|]; [|reflexivity].
  destruct (bool_decide (x ∈ proxies_of l)); [|reflexivity].
  apply lookup_delete_ne. congruence.
Qed.

(** X21: if a [StartNotify] fails during that handshake, the handler
    stops binding, empties the queue of the device, calls [Disconnect]
    and returns [True] (or lets the exception of [Disconnect] escape); the
    start command is not written.  The services are left marked.  The
    queue that is dropped held the only references to the characteristic
    proxies of the device, so the entries of the device in
    [temperatures], [commands] and [batteries] are gone as well; the
    device itself stays in [inkbirds]. *)
Theorem shock_binding_failure fails p l1 b l2 dev (w : World Shock.DeviceProxy) :
  NoDup (gatt_services w).*1 ->
  bind w !! p = Some (l1 ++ b :: l2) -> (6 <= length (l1 ++ b :: l2))%nat ->
  inkbirds w !! p = Some dev ->
  Forall (fun b : Binding => fails (StartNotify (fst (fst b))) = false) l1 ->
  fails (StartNotify (fst (fst b))) = true ->
  let res := Shock.services_resolved_callback fails p (Some true) w in
  res = (if fails (Disconnect p) then inl DBusError else inr (Some true),
         unbind (l1 ++ b :: l2) p
           (set_bus_log (bus_log w ++ start_calls (l1 ++ [b]) ++ [Disconnect p])
              (set_bind (<[p := []]> (bind w))
                 (set_gatt_services (marked p (gatt_services w)) w)))) /\
  (forall x, temperatures w !! p = Some x -> x ∈ proxies_of (l1 ++ b :: l2) ->
             temperatures (snd res) !! p = None) /\
  (forall x, commands w !! p = Some x -> x ∈ proxies_of (l1 ++ b :: l2) ->
             commands (snd res) !! p = None) /\
  (forall x, batteries w !! p = Some x -> x ∈ proxies_of (l1 ++ b :: l2) ->
             batteries (snd res) !! p = None) /\
  inkbirds (snd res) = inkbirds w.
Proof.
  intros Hnd Hbind Hlen Hdev Hok Hfail res.
  assert (Hres : res
    = (if fails (Disconnect p) then inl DBusError else inr (Some true),
       unbind (l1 ++ b :: l2) p
         (set_bus_log (bus_log w ++ start_calls (l1 ++ [b]) ++ [Disconnect p])
            (set_bind (<[p := []]> (bind w))
               (set_gatt_services (marked p (gatt_services w)) w))))).
  { subst res. unfold Shock.services_resolved_callback.
    unfold and_then at 1, gets at 1. unfold and_then at 1.
    rewrite (mark_resolved_spec fails p _ [] (gatt_services w) w eq_refl Hnd Hbind Hlen).
    cbn [app]. unfold and_then at 1.
    unfold Shock.bind_all. unfold and_then at 1, gets at 1.
    cbn [bind set_gatt_services]. rewrite Hbind.
    destruct (l1 ++ b :: l2) as [|b0 l0] eqn:El; [destruct l1; discriminate El|].
    rewrite <- El.
    unfold try_except, and_then at 1.
    rewrite for_each_bind_notify_fails by assumption.
    unfold scoped, and_then, modify, item, bus_call.
    cbn [inkbirds set_bus_log set_bind set_gatt_services bind bus_log]. rewrite Hdev.
    cbn [lookup_or ret].
    destruct (fails (Disconnect p));
      cbn [ret bus_log set_bus_log set_bind set_gatt_services alloc reg inkbirds temperatures
           commands batteries bind gatt_services timers fout];
      rewrite <- app_assoc; reflexivity. }
  rewrite Hres. cbn [snd]. split; [reflexivity|].
  repeat split.
  - intros x Hx Hin. cbn. apply (let_go_held _ _ x); assumption.
  - intros x Hx Hin. cbn. apply (let_go_held _ _ x); assumption.
  - intros x Hx Hin. cbn. apply (let_go_held _ _ x); assumption.
Qed.

Lemma mark_resolved_skip fails p (pre : list (string * bool)) (paths : list string)
    (w : World Shock.DeviceProxy) :
  Forall (fun s : string * bool => String.prefix p (fst s) = false) pre ->
  Shock.mark_resolved fails p (pre.*1 ++ paths) w = Shock.mark_resolved fails p paths w.
Proof.
  induction 1 as [|[k b] pre Hk _ IH]; [reflexivity|].
  cbn [fmap list_fmap app fst Shock.mark_resolved] in *. rewrite Hk. exact IH.
Qed.

(** X22: when [ServicesResolved] turns true while the first service
    under the device path is not yet marked and fewer than six bindings
    are queued for the device, the handler only calls [Disconnect] on the
    device and returns [True]: no service is marked, no notification is
    enabled, no command is written. *)
Theorem shock_undersized_service fails p pre sv rest l dev (w : World Shock.DeviceProxy) :
  gatt_services w = pre ++ (sv, false) :: rest ->
  Forall (fun s : string * bool => String.prefix p (fst s) = false) pre ->
  String.prefix p sv = true ->
  bind w !! p = Some l -> (length l < 6)%nat ->
  inkbirds w !! p = Some dev ->
  Shock.services_resolved_callback fails p (Some true) w
  = (if fails (Disconnect p) then inl DBusError else inr (Some true),
     set_bus_log (bus_log w ++ [Disconnect p]) w).
Proof.
  intros Hgs Hpre Hsv Hbind Hlen Hdev.
  assert (Hout : sv ∉ pre.*1).
  { intros Hin. apply list_elem_of_fmap in Hin as ([k b] & -> & Hin).
    rewrite Forall_forall in Hpre. specialize (Hpre _ Hin). simpl in *. congruence. }
  unfold Shock.services_resolved_callback.
  unfold and_then at 1, gets at 1. unfold and_then at 1.
  rewrite Hgs, fmap_app. rewrite (mark_resolved_skip fails p pre _ w Hpre).
  cbn [fmap list_fmap fst Shock.mark_resolved]. rewrite Hsv.
  unfold and_then at 1, gets at 1. unfold and_then at 1.
  rewrite Hgs, (assoc_get_app_out sv pre) by exact Hout. rewrite assoc_get_head.
  cbn [lookup_or ret negb]. unfold and_then at 1. unfold and_then at 1, item at 1.
  rewrite Hbind. cbn [lookup_or ret].
  destruct (Z.ltb_spec (Z.of_nat (length l)) 6) as [_ | Hge]; [|lia].
  unfold and_then, item, bus_call. rewrite Hdev. cbn [lookup_or ret].
  destruct (fails (Disconnect p)); reflexivity.
Qed.

Lemma discovered_all :
  gatt_services (discovered 9) = [("/d1/service0021"%string, false)] /\
  bind (discovered 9) !! "/d1"%string
  = Some [("/d1/service0021/char0022"%string, cb_temperature, "/d1"%string);
          ("/d1/service0021/char0025"%string, cb_command, "/d1"%string);
          ("/d1/service0021/char0027"%string, cb_extra, "/d1"%string);
          ("/d1/service0021/char002a"%string, cb_extra, "/d1"%string);
          ("/d1/service0021/char002f"%string, cb_extra, "/d1"%string);
          ("/d1/service0021/char0032"%string, cb_extra, "/d1"%string)] /\
  commands (discovered 9) !! "/d1"%string = Some "/d1/service0021/char0025"%string /\
  temperatures (discovered 9) !! "/d1"%string = Some "/d1/service0021/char0022"%string /\
  inkbirds (discovered 9) !! "/d1"%string = Some (Shock.mkDeviceProxy false false) /\
  bind (discovered 4) !! "/d1"%string
  = Some [("/d1/service0021/char0022"%string, cb_temperature, "/d1"%string);
          ("/d1/service0021/char0025"%string, cb_command, "/d1"%string)].
Proof. vm_compute. repeat split; reflexivity. Qed.

Lemma shock_handshake_witness :
  exists w', Shock.services_resolved_callback no_failure "/d1" (Some true) (discovered 9)
             = (inr (Some true), w') /\
             gatt_services w' = [("/d1/service0021"%string, true)].
Proof.
  destruct discovered_all as (Hgs & Hbind & Hcmd & _).
  eexists. split.
  - eapply shock_handshake.
    + rewrite Hgs. apply (bool_decide_unpack _). vm_compute. exact I.
    + exact Hbind.
    + simpl. lia.
    + exact Hcmd.
    + repeat constructor.
  - cbn [gatt_services set_bus_log set_gatt_services]. rewrite Hgs. reflexivity.
Defined.

Lemma shock_binding_failure_witness :
  temperatures (snd (Shock.services_resolved_callback third_notify_fails "/d1" (Some true)
                       (discovered 9))) !! "/d1"%string = None.
Proof.
  destruct discovered_all as (Hgs & Hbind & Hcmd & Htmp & Hdev & _).
  refine (proj1 (proj2 (shock_binding_failure third_notify_fails "/d1"
             [("/d1/service0021/char0022"%string, cb_temperature, "/d1"%string);
              ("/d1/service0021/char0025"%string, cb_command, "/d1"%string)]
             ("/d1/service0021/char0027"%string, cb_extra, "/d1"%string)
             [("/d1/service0021/char002a"%string, cb_extra, "/d1"%string);
              ("/d1/service0021/char002f"%string, cb_extra, "/d1"%string);
              ("/d1/service0021/char0032"%string, cb_extra, "/d1"%string)]
             (Shock.mkDeviceProxy false false) (discovered 9) _ Hbind _ Hdev _ _))
            "/d1/service0021/char0022"%string Htmp _).
  - rewrite Hgs. apply (bool_decide_unpack _). vm_compute. exact I.
  - simpl. lia.
  - repeat constructor.
  - reflexivity.
  - left.
Defined.

Lemma shock_undersized_service_witness :
  Shock.services_resolved_callback no_failure "/d1" (Some true) (discovered 4)
  = (inr (Some true),
     set_bus_log (bus_log (discovered 4) ++ [Disconnect "/d1"]) (discovered 4)).
Proof.
  destruct discovered_all as (_ & _ & _ & _ & _ & Hbind4).
  apply (shock_undersized_service no_failure "/d1" [] "/d1/service0021"%string []
           [("/d1/service0021/char0022"%string, cb_temperature, "/d1"%string);
            ("/d1/service0021/char0025"%string, cb_command, "/d1"%string)]
           (Shock.mkDeviceProxy false false) (discovered 4)).
  - vm_compute. reflexivity.
  - constructor.
  - reflexivity.
  - exact Hbind4.
  - simpl. lia.
  - vm_compute. reflexivity.
Defined.

(** ** shock.py: a device that was torn down *)

Lemma assoc_get_set_eq {V} (k : string) (v : V) (d : list (string * V)) :
  assoc_get k (assoc_set k v d) = Some v.
Proof.
  induction d as [|[k' v'] d IH]; simpl.
  - rewrite String.eqb_refl. reflexivity.
  - destruct (String.eqb_spec k k') as [-> | Hne]; simpl.
    + rewrite String.eqb_refl. reflexivity.
    + destruct (String.eqb_spec k k'); [contradiction | exact IH].
Qed.

Lemma assoc_get_set_ne {V} (k k' : string) (v : V) (d : list (string * V)) :
  k <> k' -> assoc_get k (assoc_set k' v d) = assoc_get k d.
Proof.
  intros Hne. induction d as [|[k0 v0] d IH]; simpl.
  - destruct (String.eqb_spec k k'); [contradiction | reflexivity].
  - destruct (String.eqb_spec k' k0) as [-> | Hne0]; simpl.
    + destruct (String.eqb_spec k k0); [contradiction | reflexivity].
    + destruct (String.eqb_spec k k0); [reflexivity | exact IH].
Qed.

Lemma deaf_ext {D} K p (w w' : World D) :
  discovery_tables w' = discovery_tables w -> deaf K p w -> deaf K p w'.
Proof.
  unfold discovery_tables. intros [= H1 H2 H3 H4 H5] [G1 G2 G3 G4 G5 G6].
  split; rewrite ?H1, ?H2, ?H3, ?H4, ?H5; assumption.
Qed.

Lemma deaf_frame {D A} K p (m : M (World D) A) :
  (forall t, preserves (fun w => discovery_tables w = t) m) -> preserves (deaf K p) m.
Proof.
  intros Hm w H. apply (deaf_ext K p w); [|exact H].
  apply (Hm (discovery_tables w) w eq_refl).
Qed.

(** The steps that leave the discovery tables alone. *)
Ltac tables_leaf :=
  first
    [ apply preserves_modify; intros ? H; exact H
    | intros ? H; unfold item;
      match goal with |- context [lookup_or _ ?o] => destruct o end; exact H
    | intros ? H; unfold bus_call;
      match goal with |- context [if ?b then _ else _] => destruct b end; exact H
    | intros ? H; unfold on_alloc, zoom;
      match goal with |- context [?m (alloc ?w)] => destruct (m (alloc w)) end; exact H
    | intros ? H; unfold on_reg, zoom;
      match goal with |- context [?m (reg ?w)] => destruct (m (reg w)) end; exact H
    | intros ? H; exact H ].

Lemma deaf_device_added K p fails seen path props :
  preserves (deaf (D:=Shock.DeviceProxy) K p) (Shock.device_added fails seen path props).
Proof.
  apply deaf_frame. intros t. unfold Shock.device_added, free_slot.
  preserves_structure; tables_leaf.
Qed.

Lemma deaf_temperature_callback K p fails path obj_dict :
  preserves (deaf (D:=Shock.DeviceProxy) K p) (Shock.temperature_callback fails path obj_dict).
Proof.
  apply deaf_frame. intros t.
  unfold Shock.temperature_callback, Shock.update_temperatures, update_all.
  preserves_structure; tables_leaf.
Qed.

Lemma deaf_logger K p fails now :
  preserves (deaf (D:=Shock.DeviceProxy) K p) (Shock.logger fails now).
Proof.
  apply deaf_frame. intros t. unfold Shock.logger, logger_with, unstall.
  preserves_structure; tables_leaf.
Qed.

Lemma deaf_teardown K p fails q :
  preserves (deaf (D:=Shock.DeviceProxy) K p) (Shock.teardown_device fails q).
Proof.
  intros w [G1 G2 G3 G4 G5 G6]. rewrite shock_teardown_closed.
  split; cbn [snd torn_down temperatures commands batteries bind gatt_services];
    try assumption;
    (destruct (decide (q = p)) as [-> | Hne];
     [apply lookup_delete_eq | rewrite lookup_delete_ne by exact Hne; assumption]).
Qed.

Lemma deaf_unbind {D} K p (l : list Binding) q (w : World D) :
  q <> p -> deaf K p w -> deaf K p (unbind l q w).
Proof.
  intros Hne [G1 G2 G3 G4 G5 G6].
  split; cbn [unbind temperatures commands batteries bind gatt_services
              set_batteries set_commands set_temperatures]; try assumption;
    rewrite let_go_other by congruence; assumption.
Qed.

Lemma deaf_service_added K p path props (w : World Shock.DeviceProxy) :
  (props !! "UUID"%string = Some Shock.TEMPERATURE_UUID -> dirname path = p -> path ∈ K) ->
  deaf K p w ->
  wp (Shock.service_added path props) (fun _ => deaf K p) (fun _ => deaf K p) w.
Proof.
  intros Hquiet HI. pose proof HI as [G1 G2 G3 G4 G5 G6].
  unfold Shock.service_added.
  wp_step. wp_step. wp_step; [wp_step; exact HI|].
  wp_step. wp_step; [|exact HI].
  wp_step; [|wp_step; exact HI].
  apply String.eqb_eq in Heqb. subst a.
  assert (Hne : dirname path <> p).
  { intros Hp. destruct (G6 path (Hquiet H Hp)) as [b Hb]. congruence. }
  repeat wp_step; try exact HI.
  apply deaf_unbind; [exact Hne|].
  split; cbn [temperatures commands batteries bind gatt_services set_bind set_gatt_services];
    try assumption.
  - rewrite lookup_insert_ne by exact Hne. exact G4.
  - intros sv Hsv. rewrite assoc_get_set_ne by congruence. apply G5, Hsv.
  - intros sv Hsv. destruct (decide (sv = path)) as [-> | Hd].
    + rewrite assoc_get_set_eq. eauto.
    + rewrite assoc_get_set_ne by exact Hd. apply G6, Hsv.
Qed.

Lemma wp_add_binding {D} dev_path b Q E (w : World D) :
  (forall l, bind w !! dev_path = Some l ->
             Q tt (set_bind (<[dev_path := l ++ [b]]> (bind w)) w)) ->
  (bind w !! dev_path = None -> E KeyError w) ->
  wp (add_binding dev_path b) Q E w.
Proof.
  intros HQ HE. unfold add_binding. apply wp_bind. apply wp_item.
  - intros l Hl. apply wp_modify. apply HQ, Hl.
  - exact HE.
Qed.

Lemma deaf_same_at {D} K p (w w' : World D) :
  temperatures w' !! p = temperatures w !! p ->
  commands w' !! p = commands w !! p ->
  batteries w' !! p = batteries w !! p ->
  bind w' !! p = bind w !! p ->
  gatt_services w' = gatt_services w ->
  deaf K p w -> deaf K p w'.
Proof.
  intros H1 H2 H3 H4 H5 [G1 G2 G3 G4 G5 G6].
  split; rewrite ?H1, ?H2, ?H3, ?H4, ?H5; assumption.
Qed.

Lemma deaf_characteristic_added K p path props (w : World Shock.DeviceProxy) :
  deaf K p w ->
  wp (Shock.characteristic_added path props) (fun _ => deaf K p) (fun _ => deaf K p) w.
Proof.
  intros HI. pose proof HI as [G1 G2 G3 G4 G5 G6].
  unfold Shock.characteristic_added.
  wp_step. wp_step. wp_step; [|wp_step; exact HI].
  wp_step; [wp_step; exact HI|].
  assert (Hne : dirname (dirname path) <> p).
  { intros Hp. apply (G5 (dirname path) Hp). assumption. }
  wp_step. wp_step; [|exact HI].
  repeat first
    [ apply wp_add_binding; [intros ? ? | intros ?]
    | wp_step ];
    cbv beta; try exact HI;
    (apply (deaf_same_at K p w); [| | | | |exact HI];
     cbn [temperatures commands batteries bind gatt_services set_bind set_batteries
          set_commands set_temperatures];
     repeat first [ rewrite lookup_insert_ne by exact Hne
                  | rewrite lookup_delete_ne by exact Hne ];
     reflexivity).
Qed.

Lemma deaf_mark_resolved K p fails q (paths : list string) :
  preserves (deaf (D:=Shock.DeviceProxy) K p) (Shock.mark_resolved fails q paths).
Proof.
  induction paths as [|path paths IH]; [apply preserves_ret|].
  apply invariant_wp. intros w HI. pose proof HI as [G1 G2 G3 G4 G5 G6].
  cbn [Shock.mark_resolved].
  wp_step; [|apply (wp_invariant _ _ _ IH HI)].
  wp_step. wp_step. wp_step. wp_step; [|exact HI].
  wp_step.
  assert (Hunder : forall b0,
            wp (if negb b0
                then let* l := item bind q in ret (Z.of_nat (length l) <? 6)
                else ret false)
               (fun _ w' => w' = w) (fun _ w' => w' = w) w).
  { intros b0. destruct (negb b0); repeat wp_step; reflexivity. }
  eapply wp_mono; [apply Hunder | | intros e s' ->; exact HI].
  intros under s' ->. cbv beta.
  wp_step; repeat wp_step; try exact HI.
  - split; assumption.
  - split; assumption.
  - apply (wp_invariant _ _ _ IH).
    split; cbn [temperatures commands batteries bind gatt_services set_gatt_services];
      try assumption.
    + intros sv Hsv. destruct (decide (sv = path)) as [-> | Hd].
      * rewrite assoc_get_set_eq. discriminate.
      * rewrite assoc_get_set_ne by exact Hd. apply G5, Hsv.
    + intros sv Hsv. destruct (decide (sv = path)) as [-> | Hd].
      * rewrite assoc_get_set_eq. eauto.
      * rewrite assoc_get_set_ne by exact Hd. apply G6, Hsv.
Qed.

Lemma deaf_bus {D} K p (l : list BusCall) (w : World D) :
  deaf K p w -> deaf K p (set_bus_log l w).
Proof. intros [G1 G2 G3 G4 G5 G6]. split; assumption. Qed.

Lemma deaf_bind_all K p fails q :
  preserves (deaf (D:=Shock.DeviceProxy) K p) (Shock.bind_all fails q).
Proof.
  apply invariant_wp. intros w HI. pose proof HI as [G1 G2 G3 G4 G5 G6].
  unfold Shock.bind_all.
  wp_step. wp_step. wp_step; [|wp_step; exact HI].
  wp_step; [wp_step; exact HI|].
  assert (Hne : q <> p) by congruence.
  assert (Hloop : preserves (deaf K p)
                    (for_each (b :: l0) (Shock.bind_notify fails))).
  { apply preserves_for_each. intros b'. apply deaf_frame. intros t.
    unfold Shock.bind_notify. tables_leaf. }
  wp_step. wp_step.
  eapply wp_mono; [apply (wp_invariant _ _ _ Hloop HI) | |].
  - intros u s' Hs'. cbv beta. wp_step. exact Hs'.
  - intros e s' Hs'. cbv beta. destruct Hs' as [H1 H2 H3 H4 H5 H6].
    assert (Hd : deaf K p (set_bind (<[q := []]> (bind s')) s')).
    { split; cbn [temperatures commands batteries bind gatt_services set_bind];
        try assumption.
      rewrite lookup_insert_ne by exact Hne. exact H4. }
    repeat wp_step; apply deaf_unbind;
      first [exact Hne | exact Hd | apply deaf_bus, Hd].
Qed.

Lemma deaf_services_resolved K p fails q r :
  preserves (deaf (D:=Shock.DeviceProxy) K p) (Shock.services_resolved_callback fails q r).
Proof.
  unfold Shock.services_resolved_callback.
  destruct r as [[]|]; [| |apply preserves_ret].
  - apply preserves_bind; [apply preserves_gets | intros paths].
    apply preserves_bind; [apply deaf_mark_resolved | intros early].
    destruct early; [apply preserves_ret|].
    apply preserves_bind; [apply deaf_bind_all | intros early].
    destruct early; [apply preserves_ret|].
    apply preserves_bind; [apply preserves_gets | intros cmd].
    destruct cmd; [|apply preserves_ret].
    apply preserves_bind; [|intros _; apply preserves_ret].
    intros w HI. rewrite swallowed_spec. apply deaf_bus, HI.
  - apply preserves_bind; [apply deaf_teardown | intros _; apply preserves_ret].
Qed.

Lemma deaf_interface_added K p fails seen path obj_dict :
  quiet_object K p (path, obj_dict) ->
  preserves (deaf (D:=Shock.DeviceProxy) K p)
    (Shock.interface_added_callback fails seen path obj_dict).
Proof.
  intros Hquiet. unfold Shock.interface_added_callback.
  destruct (obj_dict !! Shock.DEVICE_IFACE) as [props|] eqn:Hdev; [apply deaf_device_added|].
  destruct (obj_dict !! Shock.GATT_SERVICE_IFACE) as [props|] eqn:Hsvc.
  - apply invariant_wp. intros w HI. apply deaf_service_added; [|exact HI].
    intros Hu Hp. apply (Hquiet props); [exact Hdev | exact Hsvc | exact Hu | exact Hp].
  - destruct (obj_dict !! Shock.GATT_CHAR_IFACE) as [props|]; [|apply preserves_ret].
    apply invariant_wp. intros w HI. apply deaf_characteristic_added, HI.
Qed.

Lemma preserves_for_each_Forall {S A} (I : S -> Prop) (P : A -> Prop) (l : list A)
    (body : A -> M S unit) :
  Forall P l -> (forall a, P a -> preserves I (body a)) -> preserves I (for_each l body).
Proof.
  intros Hl Hb. induction Hl as [|a l Ha _ IH]; simpl.
  - apply preserves_ret.
  - apply preserves_bind; [apply Hb, Ha | intros _; exact IH].
Qed.

Lemma preserves_bind_some {S A B} (I : S -> Prop) e (a : A) (k : A -> M S B) :
  preserves I (k a) -> preserves I (and_then (lookup_or e (Some a)) k).
Proof. intros H s Hs. exact (H s Hs). Qed.

Lemma deaf_shock_call K p seen order fc :
  quiet_call K p (snd fc) -> preserves (deaf K p) (shock_call seen order fc).
Proof.
  destruct fc as [fails c]. unfold shock_call. cbn [fst snd]. intros Hq.
  destruct c as [path obj_dict | path ifs | path r | path obj_dict | now | managed |].
  - apply preserves_bind; [apply deaf_interface_added, Hq | intros _; apply preserves_ret].
  - unfold Shock.interfaces_removed_callback.
    apply preserves_bind; [apply preserves_gets | intros known].
    destruct (_ && _); [apply deaf_teardown | apply preserves_ret].
  - apply preserves_bind; [apply deaf_services_resolved | intros _; apply preserves_ret].
  - apply preserves_bind; [apply deaf_temperature_callback | intros _; apply preserves_ret].
  - apply deaf_logger.
  - unfold Shock.scan_dbus. destruct managed as [objs|].
    + cbn [quiet_call] in Hq. apply preserves_bind_some.
      apply preserves_bind.
      * apply (preserves_for_each_Forall _ (quiet_object K p) objs _ Hq).
        intros [path obj_dict] Ho.
        apply preserves_bind; [apply deaf_interface_added, Ho | intros _; apply preserves_ret].
      * intros _. apply preserves_bind; [apply preserves_gets | intros paths].
        apply preserves_bind.
        -- apply preserves_for_each. intros q.
           destruct (bool_decide _); [apply preserves_ret | apply deaf_teardown].
        -- intros _. apply preserves_bind; [|intros _; apply preserves_ret].
           apply deaf_frame. intros t. tables_leaf.
    + intros w HI. exact HI.
  - unfold Shock.signal_handler.
    apply preserves_bind; [|intros _; apply preserves_ret].
    apply preserves_bind; [apply preserves_gets | intros paths].
    apply preserves_bind; [|intros _; apply preserves_ret].
    apply preserves_for_each. intros q. apply deaf_teardown.
Qed.

Lemma play_invariant_if {S E} (I : S -> Prop) (P : E -> Prop) (handle : E -> M S unit) :
  (forall e, P e -> preserves I (handle e)) ->
  forall trace s, Forall P trace -> I s -> I (play handle trace s).
Proof.
  intros Hh trace. induction trace as [|e trace IH]; intros s Ht H; simpl.
  - exact H.
  - apply Forall_cons in Ht as [He Ht]. apply IH; [exact Ht|]. apply Hh; assumption.
Qed.

(** X23: in shock.py [teardown_device] forgets the characteristics and
    the binding queue of a device but leaves its services marked in
    [gatt_services], and a known service, like a characteristic of a
    marked one, is skipped when it is announced again.  So once a device
    whose services were all marked is torn down, nothing fills
    [temperatures], [commands], [batteries] or [bind] for it again: this
    holds after any sequence of calls of the event loop, whatever the bus
    does, in which no service object with [TEMPERATURE_UUID] directly
    under the device path is announced for the first time; any other
    object may be announced, the other services of the device among them.
    However often the device is sighted, resolved or scanned, it has no
    characteristic and no binding queue. *)
Theorem torn_down_device_stays_deaf fails0 seen order p K
    (trace : list ((BusCall -> bool) * ShockCall)) (w : World Shock.DeviceProxy) :
  (forall sv, sv ∈ K -> is_Some (assoc_get sv (gatt_services w))) ->
  (forall sv, dirname sv = p -> assoc_get sv (gatt_services w) <> Some false) ->
  Forall (fun fc => quiet_call K p (snd fc)) trace ->
  let w' := play (shock_call seen order) trace (snd (Shock.teardown_device fails0 p w)) in
  temperatures w' !! p = None /\ commands w' !! p = None /\
  batteries w' !! p = None /\ bind w' !! p = None.
Proof.
  intros Hknown Hmarked Htrace w'.
  assert (H0 : deaf K p (snd (Shock.teardown_device fails0 p w))).
  { rewrite shock_teardown_closed.
    split; cbn [snd torn_down temperatures commands batteries bind gatt_services];
      try assumption; apply lookup_delete_eq. }
  destruct (play_invariant_if (deaf K p) (fun fc => quiet_call K p (snd fc))
              (shock_call seen order) (deaf_shock_call K p seen order)
              trace _ Htrace H0) as [G1 G2 G3 G4 _ _].
  auto.
Qed.

Lemma resolved_services : gatt_services resolved = [("/d1/service0021"%string, true)].
Proof. vm_compute. reflexivity. Qed.

Lemma rediscovery_quiet :
  Forall (fun fc => quiet_call ["/d1/service0021"%string] "/d1" (snd fc)) rediscovery.
Proof.
  unfold rediscovery, discovery, battery_service. cbn [map app].
  repeat (apply Forall_cons; split); try apply Forall_nil; cbn [snd quiet_call];
    try exact I; unfold quiet_object; cbn [fst snd]; intros props Hd Hs Hu Hp;
    first [ vm_compute in Hd; discriminate Hd
          | vm_compute in Hs; discriminate Hs
          | left
          | vm_compute in Hs; injection Hs as <-; vm_compute in Hu; discriminate Hu ].
Qed.

Lemma torn_down_device_stays_deaf_witness :
  let w' := play (shock_call seen_disconnected map_order) rediscovery
              (snd (Shock.teardown_device no_failure "/d1" resolved)) in
  temperatures w' !! "/d1"%string = None /\ commands w' !! "/d1"%string = None /\
  batteries w' !! "/d1"%string = None /\ bind w' !! "/d1"%string = None.
Proof.
  apply (torn_down_device_stays_deaf no_failure seen_disconnected map_order "/d1"
           ["/d1/service0021"%string] rediscovery resolved).
  - intros sv H. apply list_elem_of_singleton in H as ->.
    rewrite resolved_services. vm_compute. eauto.
  - intros sv _. rewrite resolved_services. cbn [assoc_get].
    destruct (String.eqb sv "/d1/service0021"); discriminate.
  - exact rediscovery_quiet.
Defined.

(** ** deadlock.py: the first notification of a device *)

Lemma deadlock_allocate_first (path : string) :
  Deadlock.allocate path alloc_init
  = (inr tt, {| allocated_offsets := {[path := 0]};
                free_offsets := [(KInt 4, 4); (KInt 8, 8); (KInt 12, 12);
                                 (KInt 16, 16); (KInt 20, 20)] |}).
Proof.
  unfold Deadlock.allocate, choose, alloc_init. cbn. reflexivity.
Qed.

(** X24: in deadlock.py the first notification of an [ACTIVE] device is
    not lost: the handler allocates the slot and decodes the value in the
    same call.  At start-up (no slot taken, nothing sampled) a well-formed
    payload gives the device offset 0, stores its four readings in
    channels 0 to 3 and sets [stamp].  For a device that is not [ACTIVE]
    and holds no slot the same payload raises [KeyError] and changes
    nothing. *)
Theorem deadlock_first_notification (path : string) (obj_dict : gmap string (list Z))
    (d0 d1 d2 d3 d4 d5 d6 d7 : Z) (dev : Deadlock.InkbirdDevice) (t0 : float)
    (w : World Deadlock.InkbirdDevice) :
  obj_dict !! "Value"%string
    = Some [d0; d1; d2; d3; d4; d5; d6; d7; 0xFE; 0x7F; 0xFE; 0x7F] ->
  Forall is_byte [d0; d1; d2; d3; d4; d5; d6; d7] ->
  inkbirds w !! path = Some dev ->
  alloc w = alloc_init -> reg w = register_init t0 ->
  let res := Deadlock.temperature_callback path obj_dict w in
  if bool_decide (Deadlock.state dev = Deadlock.ACTIVE) then
    fst res = inr tt /\
    allocated_offsets (alloc (snd res)) !! path = Some 0 /\
    thermostamp (reg (snd res))
      = [temperature d0 d1; temperature d2 d3; temperature d4 d5; temperature d6 d7]
          ++ replicate 20 nan /\
    stamp (reg (snd res)) = true
  else res = (inl KeyError, w).
Proof.
  intros Hval Hbytes Hdev Halloc Hreg res. subst res.
  apply Forall_cons in Hbytes as [B0 Hbytes]. apply Forall_cons in Hbytes as [B1 Hbytes].
  apply Forall_cons in Hbytes as [B2 Hbytes]. apply Forall_cons in Hbytes as [B3 Hbytes].
  apply Forall_cons in Hbytes as [B4 Hbytes]. apply Forall_cons in Hbytes as [B5 Hbytes].
  apply Forall_cons in Hbytes as [B6 Hbytes]. apply Forall_cons in Hbytes as [B7 _].
  assert (Hslot : allocated_offsets (alloc w) !! path = None)
    by (rewrite Halloc; apply lookup_empty).
  assert (Hupd : forall w1 : World Deadlock.InkbirdDevice,
            Deadlock.update_temperatures path
              [d0; d1; d2; d3; d4; d5; d6; d7; 0xFE; 0x7F; 0xFE; 0x7F] w1
            = (let* offset := item (fun w => allocated_offsets (alloc w)) path in
               update_all Deadlock.update_channel offset
                 [temperature d0 d1; temperature d2 d3; temperature d4 d5;
                  temperature d6 d7]) w1).
  { intros w1. unfold Deadlock.update_temperatures.
    change (Z.of_nat (length [d0; d1; d2; d3; d4; d5; d6; d7; 0xFE; 0x7F; 0xFE; 0x7F]) <? 12)
      with false.
    cbn [orb]. rewrite bool_decide_eq_false_2 by (intros H; apply H; reflexivity).
    rewrite (and_then_run _ _ _ _ _ (t4vec_packet w1 d0 d1 d2 d3 d4 d5 d6 d7 _)).
    reflexivity. }
  destruct (bool_decide (Deadlock.state dev = Deadlock.ACTIVE)) eqn:Hact.
  - set (w1 := set_alloc
                 {| allocated_offsets := {[path := 0]};
                    free_offsets := [(KInt 4, 4); (KInt 8, 8); (KInt 12, 12);
                                     (KInt 16, 16); (KInt 20, 20)] |} w).
    assert (Hres : Deadlock.temperature_callback path obj_dict w
                   = update_all Deadlock.update_channel 0
                       [temperature d0 d1; temperature d2 d3; temperature d4 d5;
                        temperature d6 d7] w1).
    { unfold Deadlock.temperature_callback. rewrite Hval.
      unfold and_then at 1, gets at 1. unfold and_then at 1, gets at 1.
      rewrite Hdev, Hslot. unfold Deadlock.can_act. rewrite Hact.
      unfold and_then at 1, on_alloc, zoom. rewrite Halloc, deadlock_allocate_first.
      fold w1. rewrite Hupd. unfold and_then, item. subst w1.
      cbn [alloc set_alloc allocated_offsets]. rewrite lookup_singleton_eq. reflexivity. }
    rewrite Hres.
    destruct (first_update_all (temperature d0 d1) (temperature d2 d3)
                (temperature d4 d5) (temperature d6 d7) t0 w1) as [_ (filt & Hrun)];
      [exact Hreg | apply temperature_decoded_ok; assumption ..|].
    rewrite Hrun. subst w1.
    cbn [fst snd alloc reg set_reg set_alloc allocated_offsets thermostamp stamp].
    rewrite lookup_singleton_eq. auto.
  - unfold Deadlock.temperature_callback. rewrite Hval.
    unfold and_then at 1, gets at 1. unfold and_then at 1, gets at 1.
    rewrite Hdev, Hslot. unfold Deadlock.can_act. rewrite Hact.
    unfold and_then at 1. cbn [ret]. rewrite Hupd. unfold and_then, item. rewrite Hslot.
    reflexivity.
Qed.

Lemma deadlock_first_notification_witness :
  let w := set_inkbirds
             {["/d1"%string := Deadlock.with_state Deadlock.ACTIVE
                                 (Deadlock.new_device "/d1" "/d1")]}
             (world_init 0%float) in
  fst (Deadlock.temperature_callback "/d1" {["Value"%string := packet_25]} w) = inr tt.
Proof.
  intros w.
  pose proof (deadlock_first_notification "/d1" {["Value"%string := packet_25]}
                0x02 0x03 0x02 0x03 0x02 0x03 0x02 0x03
                (Deadlock.with_state Deadlock.ACTIVE (Deadlock.new_device "/d1" "/d1"))
                0%float w) as H.
  cbv zeta in H. rewrite bool_decide_eq_true_2 in H by reflexivity.
  apply H.
  - reflexivity.
  - repeat constructor; unfold is_byte; lia.
  - reflexivity.
  - reflexivity.
  - reflexivity.
Defined.

(** X25: in deadlock.py a teardown cancels the retry of the device: from
    a state in which every pending retry timer is the one its device
    record points to, [teardown_device(p)] leaves no retry timer of [p]
    pending, and the signal handler leaves no retry timer pending at
    all. *)
Theorem deadlock_teardown_cancels_retry :
  (forall fails p (w : World Deadlock.InkbirdDevice),
     retries_ok w ->
     forall i t, timers (snd (Deadlock.teardown_device fails p w)) !! i = Some t ->
                 pending_retry p t = false) /\
  (forall fails order (w : World Deadlock.InkbirdDevice),
     covers order -> devices_ok w -> retries_ok w ->
     forall i t p, timers (snd (Deadlock.signal_handler fails order w)) !! i = Some t ->
                   pending_retry p t = false).
Proof.
  split.
  - intros fails p w Hr i t Hi.
    destruct (inkbirds w !! p) as [dev|] eqn:Hdev.
    + rewrite (deadlock_teardown_closed _ p dev w Hdev) in Hi.
      cbn [snd torn_down timers] in Hi.
      apply (cancelled_none_pending p dev (timers w) (retries_single _ _ p dev Hr Hdev) i t Hi).
    + rewrite (deadlock_teardown_absent _ p w Hdev) in Hi. cbn [snd] in Hi.
      destruct (pending_retry p t) eqn:Hp; [|reflexivity].
      destruct (Hr i t p Hi Hp) as (d & Hd & _). congruence.
  - intros fails order w Hcov Hd Hr i t p Hi.
    pose proof (table_deadlock_call order (fails, DSignal) w (conj Hd Hr)) as [_ Hr'].
    destruct (sweep_all (Deadlock.teardown_device fails) order w
                (deadlock_tears_down fails) Hcov) as (Hret & Hempty & _).
    unfold deadlock_call in Hr'. cbn [fst snd] in Hr'.
    unfold Deadlock.signal_handler, and_then, gets in Hr', Hi.
    destruct (for_each (order (inkbirds w)) (Deadlock.teardown_device fails) w)
      as [[e | []] w']; simpl in Hret, Hempty, Hr', Hi; [discriminate|].
    destruct (pending_retry p t) eqn:Hp; [|reflexivity].
    destruct (Hr' i t p Hi Hp) as (d & Hdev & _).
    rewrite Hempty, lookup_empty in Hdev. discriminate.
Qed.

Lemma deadlock_teardown_cancels_retry_witness :
  let w := play (deadlock_call map_order)
             [(no_failure, DInterfaceAdded "/d1" inkbird_added);
              (write_fails, DServicesResolved "/d1" (Some true))]
             (deadlock_ready "/d1") in
  (exists t, timers w !! 0%nat = Some t /\ pending_retry "/d1" t = true) /\
  forall i t, timers (snd (Deadlock.teardown_device no_failure "/d1" w)) !! i = Some t ->
              pending_retry "/d1" t = false.
Proof.
  intros w. split.
  - eexists. split; vm_compute; reflexivity.
  - destruct deadlock_teardown_cancels_retry as [Ht _].
    apply Ht.
    apply (play_invariant table_ok (deadlock_call map_order) (table_deadlock_call map_order)).
    split.
    + intros p d H. cbn in H. unfold Deadlock.inkbirds_init in H.
      rewrite lookup_empty in H. discriminate.
    + intros i t p H. cbn in H. rewrite lookup_nil in H. discriminate.
Defined.

(** ** shock.py: no device proxy lasts *)

Lemma deallocate_init (p : string) : deallocate p alloc_init = alloc_init.
Proof. unfold deallocate. cbn [allocated_offsets alloc_init]. rewrite lookup_empty. reflexivity. Qed.

(** A lookup that found something in a table that is empty. *)
Ltac unaware_absurd :=
  exfalso;
  cbn [inkbirds timers temperatures commands batteries bind gatt_services alloc reg fout
       bus_log set_inkbirds set_bus_log set_timers set_alloc set_reg set_fout
       set_temperatures set_commands set_batteries set_bind set_gatt_services] in *;
  match goal with
  | H : ?m !! _ = Some _, E : ?m = ∅ |- _ => rewrite E, lookup_empty in H; discriminate H
  | H : assoc_get _ ?l = Some _, E : ?l = [] |- _ => rewrite E in H; discriminate H
  | H : allocated_offsets ?a !! _ = Some _, E : ?a = alloc_init |- _ =>
      rewrite E in H; cbn [allocated_offsets alloc_init] in H;
      rewrite lookup_empty in H; discriminate H
  end.

(** The state a handler leaves is as unaware as the one it found. *)
Ltac unaware_leaf :=
  split;
  cbn [inkbirds timers temperatures commands batteries bind gatt_services alloc reg fout
       bus_log set_inkbirds set_bus_log set_timers set_alloc set_reg set_fout
       set_temperatures set_commands set_batteries set_bind set_gatt_services unbind] in *;
  first
    [ assumption
    | match goal with
      | E : inkbirds ?w = ∅ |- delete _ (<[_ := _]> (inkbirds ?w)) = ∅ =>
          rewrite E; apply delete_insert_id, lookup_empty
      | E : inkbirds ?w = ∅ |- delete _ (inkbirds ?w) = ∅ => rewrite E; apply delete_empty
      | E : ?m = ∅ |- delete _ ?m = ∅ => rewrite E; apply delete_empty
      | E : alloc ?w = alloc_init |- deallocate _ (alloc ?w) = alloc_init =>
          rewrite E; apply deallocate_init
      end
    | repeat (apply Forall_app; split); first [assumption | repeat constructor] ].

Lemma unaware_interface_added t0 fails seen path obj_dict :
  preserves (unaware t0) (Shock.interface_added_callback fails seen path obj_dict).
Proof.
  apply invariant_wp. intros w HI. pose proof HI as [H1 H2 H3 H4 H5 H6 H7 H8 H9 H10].
  unfold Shock.interface_added_callback, Shock.device_added, Shock.service_added,
    Shock.characteristic_added, free_slot.
  repeat wp_step; first [exact HI | unaware_absurd | unaware_leaf].
Qed.

Lemma unaware_teardown t0 fails p :
  preserves (unaware t0) (Shock.teardown_device fails p).
Proof.
  intros w [H1 H2 H3 H4 H5 H6 H7 H8 H9 H10]. rewrite shock_teardown_closed.
  unfold torn_down, stop_calls, stop_call.
  rewrite H1, H2, H3, H4, H5, H7, !lookup_empty, !delete_empty, deallocate_init.
  cbn [snd app].
  split; cbn [inkbirds timers temperatures commands batteries bind gatt_services alloc
              reg fout bus_log]; try assumption; try reflexivity.
  apply Forall_app. split; [assumption | repeat constructor].
Qed.

Lemma unaware_services_resolved t0 fails p r :
  preserves (unaware t0) (Shock.services_resolved_callback fails p r).
Proof.
  unfold Shock.services_resolved_callback.
  destruct r as [[]|]; [| |apply preserves_ret].
  - apply invariant_wp. intros w HI. pose proof HI as [H1 H2 H3 H4 H5 H6 H7 H8 H9 H10].
    wp_step. wp_step. rewrite H6. cbn [fmap list_fmap Shock.mark_resolved].
    wp_step. wp_step. unfold Shock.bind_all.
    wp_step. wp_step. wp_step. rewrite H5, lookup_empty.
    wp_step. wp_step. wp_step. rewrite H3, lookup_empty. wp_step. exact HI.
  - apply preserves_bind; [apply unaware_teardown | intros _; apply preserves_ret].
Qed.

(** With no device known and no slot held, a temperature notification
    fails at [inkbirds[obj_path]]. *)
Lemma unaware_notification t0 fails path value (w : World Shock.DeviceProxy) :
  unaware t0 w ->
  Shock.temperature_callback fails path {["Value"%string := value]} w = (inl KeyError, w).
Proof.
  intros [H1 H2 H3 H4 H5 H6 H7 H8 H9 H10].
  unfold Shock.temperature_callback. rewrite lookup_singleton_eq.
  unfold and_then, gets, item. rewrite H7. cbn [allocated_offsets alloc_init].
  rewrite lookup_empty, H1, lookup_empty. reflexivity.
Qed.

Lemma unaware_temperature_callback t0 fails path obj_dict :
  preserves (unaware t0) (Shock.temperature_callback fails path obj_dict).
Proof.
  apply invariant_wp. intros w HI. pose proof HI as [H1 H2 H3 H4 H5 H6 H7 H8 H9 H10].
  unfold Shock.temperature_callback.
  wp_step; [|wp_step; exact HI].
  wp_step. wp_step. wp_step; [unaware_absurd|].
  wp_step. wp_step; [unaware_absurd | exact HI].
Qed.

Lemma unaware_logger t0 fails now : preserves (unaware t0) (Shock.logger fails now).
Proof.
  apply invariant_wp. intros w HI. pose proof HI as [H1 H2 H3 H4 H5 H6 H7 H8 H9 H10].
  unfold Shock.logger, logger_with, unstall.
  wp_step. wp_step. wp_step. rewrite H8. cbn [stamp register_init negb andb].
  assert (Hrest : wp (let* r := gets reg in
                      let* _ :=
                        if stamp r then
                          let sample := thermostamp r in
                          let* _ := on_reg (modify (fun r => set_laststamp now (set_stamp false r))) in
                          let* _ := on_reg (tick_counts Shock.next_count) in
                          modify (fun w => set_fout (fout w ++ [(now, map rendered sample)]) w)
                        else ret tt in
                      let* _ := start_timer 1%float tc_logger in
                      ret tt)
                   (fun _ => unaware t0) (fun _ => unaware t0) w).
  { wp_step. wp_step. rewrite H8. cbn [stamp register_init].
    repeat wp_step. unaware_leaf. }
  destruct (_ <? _)%float.
  - wp_step. wp_step. rewrite H6. cbn [for_each]. wp_step. exact Hrest.
  - wp_step. exact Hrest.
Qed.

Lemma unaware_start_timer t0 t cb :
  preserves (unaware t0) (start_timer (D:=Shock.DeviceProxy) t cb).
Proof. intros w [H1 H2 H3 H4 H5 H6 H7 H8 H9 H10]. split; assumption. Qed.

Ltac unaware_structure :=
  repeat first
    [ apply unaware_teardown | apply unaware_interface_added
    | apply unaware_start_timer
    | apply preserves_ret | apply preserves_raise | apply preserves_gets
    | apply preserves_lookup_or
    | apply preserves_bind; [|intros ?]
    | apply preserves_try; [|intros ?]
    | apply preserves_for_each; intros ?
    | match goal with
      | |- preserves _ (match ?x with _ => _ end) => destruct x
      end ].

Lemma unaware_shock_call t0 seen order fc :
  preserves (unaware t0) (shock_call seen order fc).
Proof.
  destruct fc as [fails c]. unfold shock_call. cbn [fst snd].
  destruct c as [path obj_dict | path ifs | path r | path obj_dict | now | managed |].
  - unaware_structure.
  - unfold Shock.interfaces_removed_callback. unaware_structure.
  - apply preserves_bind; [apply unaware_services_resolved | intros _; apply preserves_ret].
  - apply preserves_bind; [apply unaware_temperature_callback | intros _; apply preserves_ret].
  - apply unaware_logger.
  - unfold Shock.scan_dbus. unaware_structure.
  - unfold Shock.signal_handler. unaware_structure.
Qed.

Lemma unaware_init t0 : unaware t0 (world_init t0).
Proof. split; try reflexivity. constructor. Qed.

(** X26: in shock.py a device proxy is referred to by a local variable
    of [interface_added_callback] only, so no entry of [inkbirds]
    outlasts the call that makes it, and everything that is done for a
    known device is never done.  From the globals at import time and
    after any sequence of calls of the event loop, whatever the bus does
    and whichever of them raise: [inkbirds] is empty, no service, no
    characteristic and no binding queue is registered, no slot is
    allocated, the register is as at start-up (no sample is ever stored,
    [stamp] is never set), no line is written to the log file, no call is
    made on a characteristic; and a temperature notification, should one
    come, fails with [KeyError] at [inkbirds[obj_path]] and changes
    nothing. *)
Theorem shock_never_samples t0 seen order
    (trace : list ((BusCall -> bool) * ShockCall)) :
  unaware t0 (play (shock_call seen order) trace (world_init t0)) /\
  forall fails path value,
    Shock.temperature_callback fails path {["Value"%string := value]}
      (play (shock_call seen order) trace (world_init t0))
    = (inl KeyError, play (shock_call seen order) trace (world_init t0)).
Proof.
  assert (Hw : unaware t0 (play (shock_call seen order) trace (world_init t0))).
  { apply (play_invariant (unaware t0) (shock_call seen order)
             (unaware_shock_call t0 seen order)).
    apply unaware_init. }
  split; [exact Hw|].
  intros fails path value. apply (unaware_notification t0), Hw.
Qed.
